(** * ELD Route Planner: a shallow embedding of the React front end
      (TripForm, App, RouteMap, TripSummary, ELDLogs) and of the
      hours-of-service engine described by the specification.

    Conventions of the embedding.
    - A JavaScript number is a [number]: NaN, the two infinities, or a finite
      value carried as a rational.  The arithmetic operations and the reading
      of a decimal text round their result to binary64 ([round64]: to
      nearest, ties to even, gradual underflow, overflow to an infinity);
      comparisons, [Math.floor], [Math.round], [Math.max], [Math.min] and
      [toFixed] are exact functions of their arguments, as in the language.
      The sign of zero is not distinguished (nothing here divides by a zero
      or prints one), [toFixed] is modelled below 1e21, and the pen
      positions of the remarks, sums of text widths that are a parameter of
      the model, are kept exact.
    - A JavaScript string is a [string] whose characters are the code units
      U+0000..U+00FF.
    - Objects used as dictionaries are [gmap string _]; objects whose key
      order is observed are association lists.
    - React state is threaded explicitly: a handler is a function from the
      state before to the state after (and what it emitted). *)

From Stdlib Require Import ZArith QArith Qround Qabs Qminmax Qpower Qreduction Lqa Lia.
From Stdlib Require Import String Ascii List Bool DecimalString DecimalPos DecimalN.
From stdpp Require Import base option gmap strings.
Import ListNotations.

Local Open Scope string_scope.

(* ===================================================================== *)
(** ** JavaScript numbers and strings *)
(* ===================================================================== *)

Module JS.

Inductive number : Type :=
| NaN
| PInf
| NInf
| Fin (q : Q).

Definition of_Z (z : Z) : number := Fin (inject_Z z).

Definition isNaN (a : number) : bool :=
  match a with NaN => true | _ => false end.

Definition Qltb (x y : Q) : bool := if Qlt_le_dec x y then true else false.
Definition Qeqb (x y : Q) : bool := Qeq_bool x y.

(** [a < b]; every comparison with NaN is false. *)
Definition lt (a b : number) : bool :=
  match a, b with
  | NaN, _ | _, NaN => false
  | _, NInf => false
  | NInf, _ => true
  | PInf, _ => false
  | Fin _, PInf => true
  | Fin x, Fin y => Qltb x y
  end.

(** [a > b] is [b < a]. *)
Definition gt (a b : number) : bool := lt b a.

(* ------------------------------------------------------------------- *)
(** *** Rounding to binary64 *)

(** [2^e] for any integer exponent. *)
Definition pow2 (e : Z) : Q := Qpower (2 # 1) e.

(** The integer nearest to [q], the even one on a tie. *)
Definition rne (q : Q) : Z :=
  let f := Qfloor q in
  match Qcompare (q - inject_Z f) (1 # 2) with
  | Lt => f
  | Gt => (f + 1)%Z
  | Eq => if Z.even f then f else (f + 1)%Z
  end.

(** [floor (log2 x)] for [x > 0]. *)
Definition ilog2 (x : Q) : Z :=
  let e := (Z.log2 (Qnum x) - Z.log2 (Zpos (Qden x)))%Z in
  if Qle_bool (pow2 e) x then e else (e - 1)%Z.

(** Exponent of the unit in the last place of the binary64 numbers around
    [x > 0]: 53 significant bits, and no finer than [2^-1074]. *)
Definition ulp_exp (x : Q) : Z := Z.max (ilog2 x - 52) (-1074).

Definition round_pos (x : Q) : Q :=
  inject_Z (rne (x / pow2 (ulp_exp x))) * pow2 (ulp_exp x).

(** Round to nearest, ties to even, with an unbounded exponent above. *)
Definition round64_Q (x : Q) : Q :=
  match Qcompare x 0 with
  | Eq => 0
  | Gt => Qred (round_pos x)
  | Lt => Qred (- round_pos (- x))
  end.

(** The binary64 number nearest to [x]; beyond the largest finite one the
    result is an infinity. *)
Definition round64 (x : Q) : number :=
  let r := round64_Q x in
  if Qle_bool (pow2 1024) r then PInf
  else if Qle_bool r (- pow2 1024) then NInf
  else Fin r.
(* ------------------------------------------------------------------- *)
(** *** Arithmetic: every finite result is rounded to binary64 *)

Definition neg (a : number) : number :=
  match a with
  | NaN => NaN | PInf => NInf | NInf => PInf | Fin x => Fin (- x)
  end.

Definition add (a b : number) : number :=
  match a, b with
  | NaN, _ | _, NaN => NaN
  | PInf, NInf | NInf, PInf => NaN
  | PInf, _ | _, PInf => PInf
  | NInf, _ | _, NInf => NInf
  | Fin x, Fin y => round64 (x + y)
  end.

Definition sub (a b : number) : number := add a (neg b).

Definition inf_of_sign (positive : bool) : number :=
  if positive then PInf else NInf.

(** Sign of a number as used for products and quotients with an infinity;
    zero counts as positive (its sign is not tracked). *)
Definition nonneg (a : number) : bool :=
  match a with
  | NaN => true | PInf => true | NInf => false
  | Fin x => negb (Qltb x 0)
  end.

Definition is_zero (a : number) : bool :=
  match a with Fin x => Qeqb x 0 | _ => false end.

Definition is_inf (a : number) : bool :=
  match a with PInf | NInf => true | _ => false end.

Definition mul (a b : number) : number :=
  match a, b with
  | NaN, _ | _, NaN => NaN
  | Fin x, Fin y => round64 (x * y)
  | _, _ =>
      if is_zero a || is_zero b then NaN
      else inf_of_sign (Bool.eqb (nonneg a) (nonneg b))
  end.

Definition div (a b : number) : number :=
  match a, b with
  | NaN, _ | _, NaN => NaN
  | Fin x, Fin y =>
      if Qeqb y 0
      then (if Qeqb x 0 then NaN else inf_of_sign (nonneg a))
      else round64 (x / y)
  | Fin _, _ => Fin 0
  | _, Fin _ => inf_of_sign (Bool.eqb (nonneg a) (nonneg b))
  | _, _ => NaN
  end.

(** Math.floor, Math.round (nearest integer, ties towards +Infinity),
    Math.max and Math.min of two arguments. *)
Definition Math_floor (a : number) : number :=
  match a with Fin x => of_Z (Qfloor x) | _ => a end.

Definition Math_round (a : number) : number :=
  match a with Fin x => of_Z (Qfloor (x + (1 # 2))) | _ => a end.

Definition Math_max (a b : number) : number :=
  match a, b with
  | NaN, _ | _, NaN => NaN
  | _, _ => if lt a b then b else a
  end.

Definition Math_min (a b : number) : number :=
  match a, b with
  | NaN, _ | _, NaN => NaN
  | _, _ => if lt b a then b else a
  end.

(** ToBoolean of a number: 0 and NaN are falsy. *)
Definition truthy_num (a : number) : bool :=
  match a with
  | NaN => false
  | Fin x => negb (Qeqb x 0)
  | _ => true
  end.

(** Equality of numbers up to the representation of the rational. *)
Definition num_eq (a b : number) : Prop :=
  match a, b with
  | NaN, NaN | PInf, PInf | NInf, NInf => True
  | Fin x, Fin y => (x == y)%Q
  | _, _ => False
  end.

(* ------------------------------------------------------------------- *)
(** *** Strings *)

Definition string_of_N (n : N) : string :=
  NilZero.string_of_uint (N.to_uint n).

(** ToString of an integer. *)
Definition string_of_Z (z : Z) : string :=
  match z with
  | Z0 => "0"
  | Zpos p => string_of_N (Npos p)
  | Zneg p => "-" ++ string_of_N (Npos p)
  end.

Fixpoint repeat_char (c : ascii) (n : nat) : string :=
  match n with O => "" | S n' => String c (repeat_char c n') end.

(** String.prototype.padStart(n, c) with a one-character filler. *)
Definition padStart (n : nat) (c : ascii) (s : string) : string :=
  repeat_char c (n - String.length s) ++ s.

(** WhiteSpace and LineTerminator code units below U+0100. *)
Definition is_ws (c : ascii) : bool :=
  let n := N_of_ascii c in
  (N.eqb n 9 || N.eqb n 10 || N.eqb n 11 || N.eqb n 12 || N.eqb n 13
   || N.eqb n 32 || N.eqb n 160)%bool.

Fixpoint trimStart (s : string) : string :=
  match s with
  | String c s' => if is_ws c then trimStart s' else s
  | EmptyString => EmptyString
  end.

Definition string_rev (s : string) : string :=
  string_of_list_ascii (List.rev (list_ascii_of_string s)).

Definition trimEnd (s : string) : string :=
  string_rev (trimStart (string_rev s)).

Definition trim (s : string) : string := trimEnd (trimStart s).

(** ToBoolean of a string: only the empty string is falsy. *)
Definition truthy_str (s : string) : bool :=
  match s with EmptyString => false | _ => true end.

(* ------------------------------------------------------------------- *)
(** *** parseFloat *)

Definition digit_of (c : ascii) : option N :=
  let n := N_of_ascii c in
  if (N.leb 48 n && N.leb n 57)%bool then Some (n - 48)%N else None.

(** Longest prefix of decimal digits: its value read after [acc], the
    number of digits, and the rest of the string. *)
Fixpoint take_digits (s : string) (acc : N) (len : nat) : N * nat * string :=
  match s with
  | String c s' =>
      match digit_of c with
      | Some d => take_digits s' (acc * 10 + d)%N (S len)
      | None => (acc, len, s)
      end
  | EmptyString => (acc, len, s)
  end.

(** An ExponentPart at the head of [s], when there is a complete one: its
    value and what follows it. *)
Definition take_exponent (s : string) : Z * string :=
  match s with
  | String c s1 =>
      if (Ascii.eqb c "e" || Ascii.eqb c "E")%bool then
        let '(sgn, s2) :=
          match s1 with
          | String "+" r => (1%Z, r)
          | String "-" r => ((-1)%Z, r)
          | _ => (1%Z, s1)
          end in
        let '(e, n, r) := take_digits s2 0%N 0%nat in
        match n with O => (0%Z, s) | _ => ((sgn * Z.of_N e)%Z, r) end
      else (0%Z, s)
  | EmptyString => (0%Z, s)
  end.

Definition string_take (n : nat) (s : string) : string :=
  String.substring 0 n s.
Definition string_drop (n : nat) (s : string) : string :=
  String.substring n (String.length s - n) s.

(** The longest StrUnsignedDecimalLiteral prefix of [s]: its value (NaN when
    there is none) and the rest of the string. *)
Definition parse_unsigned (s : string) : number * string :=
  if String.prefix "Infinity" s then (PInf, string_drop 8 s)
  else
    let '(ip, ilen, r1) := take_digits s 0%N 0%nat in
    let '(m, flen, r2) :=
      match r1 with
      | String "." r =>
          let '(m, flen, r') := take_digits r ip 0%nat in
          match ilen, flen with
          | O, O => (ip, O, r1)
          | _, _ => (m, flen, r')
          end
      | _ => (ip, O, r1)
      end in
    match ilen, flen with
    | O, O => (NaN, s)
    | _, _ =>
        let '(e, r3) := take_exponent r2 in
        (round64 (inject_Z (Z.of_N m) * Qpower (10 # 1) (e - Z.of_nat flen)), r3)
    end.

(** A signed decimal literal at the head of [s]. *)
Definition parse_signed (s : string) : number * string :=
  match s with
  | String "-" r => let '(n, r') := parse_unsigned r in (neg n, r')
  | String "+" r => parse_unsigned r
  | r => parse_unsigned r
  end.

Definition parseFloat (s : string) : number :=
  fst (parse_signed (trimStart s)).

(** Digits of a NonDecimalIntegerLiteral in the given radix. *)
Definition radix_digit (radix : N) (c : ascii) : option N :=
  let n := N_of_ascii c in
  let d :=
    if (N.leb 48 n && N.leb n 57)%bool then Some (n - 48)%N
    else if (N.leb 97 n && N.leb n 102)%bool then Some (n - 87)%N
    else if (N.leb 65 n && N.leb n 70)%bool then Some (n - 55)%N
    else None in
  match d with
  | Some k => if N.ltb k radix then Some k else None
  | None => None
  end.

Fixpoint radix_value (radix : N) (s : string) (acc : N) : option N :=
  match s with
  | EmptyString => Some acc
  | String c s' =>
      match radix_digit radix c with
      | Some d => radix_value radix s' (acc * radix + d)%N
      | None => None
      end
  end.

Definition radix_literal (radix : N) (digits : string) : number :=
  match digits with
  | EmptyString => NaN
  | _ => match radix_value radix digits 0%N with
         | Some n => round64 (inject_Z (Z.of_N n))
         | None => NaN
         end
  end.

(** StringToNumber: the whole trimmed string has to be a numeric literal;
    the empty string is 0. *)
Definition StringToNumber (s : string) : number :=
  match trim s with
  | EmptyString => of_Z 0
  | String "0" (String "x" r) | String "0" (String "X" r) => radix_literal 16 r
  | String "0" (String "o" r) | String "0" (String "O" r) => radix_literal 8 r
  | String "0" (String "b" r) | String "0" (String "B" r) => radix_literal 2 r
  | t => match parse_signed t with
         | (n, EmptyString) => n
         | _ => NaN
         end
  end.

(* ------------------------------------------------------------------- *)
(** *** Values and plain objects *)

(** The values the modelled code handles.  [VObject name] stands for a
    member inherited from Object.prototype (a function, or the prototype
    itself for [__proto__]), identified by its property name. *)
Inductive value : Type :=
| VUndef
| VNum (n : number)
| VStr (s : string)
| VObject (name : string).

Definition ToNumber (v : value) : number :=
  match v with
  | VUndef => NaN
  | VNum n => n
  | VStr s => StringToNumber s
  | VObject _ => NaN
  end.

Definition ToBoolean (v : value) : bool :=
  match v with
  | VUndef => false
  | VNum n => truthy_num n
  | VStr s => truthy_str s
  | VObject _ => true
  end.

(** [a === b]. *)
Definition strict_eq (a b : value) : bool :=
  match a, b with
  | VUndef, VUndef => true
  | VNum (Fin x), VNum (Fin y) => Qeqb x y
  | VNum PInf, VNum PInf | VNum NInf, VNum NInf => true
  | VStr s, VStr t => String.eqb s t
  | VObject s, VObject t => String.eqb s t
  | _, _ => false
  end.

(** The property names every plain object inherits from Object.prototype. *)
Definition Object_prototype_keys : list string :=
  [ "constructor"; "__defineGetter__"; "__defineSetter__"; "hasOwnProperty";
    "__lookupGetter__"; "__lookupSetter__"; "isPrototypeOf";
    "propertyIsEnumerable"; "toString"; "valueOf"; "__proto__";
    "toLocaleString" ].

Fixpoint own_get (own : list (string * value)) (k : string) : option value :=
  match own with
  | [] => None
  | (k', v) :: rest => if String.eqb k' k then Some v else own_get rest k
  end.

(** [obj[k]] on an object literal with the own properties [own]: an own
    property, else an inherited one, else undefined. *)
Definition obj_get (own : list (string * value)) (k : string) : value :=
  match own_get own k with
  | Some v => v
  | None =>
      if existsb (String.eqb k) Object_prototype_keys then VObject k
      else VUndef
  end.

(** [Object.values(obj)[i]]. *)
Definition obj_values_nth (own : list (string * value)) (i : nat) : value :=
  match nth_error own i with
  | Some (_, v) => v
  | None => VUndef
  end.

(** [arr[i]] for a number [i]: an element only at an integer index inside
    the array, undefined ([None]) otherwise. *)
Definition array_get {A : Type} (arr : list A) (i : number) : option A :=
  match i with
  | Fin q =>
      if (Qeqb q (inject_Z (Qfloor q)) && negb (Qltb q 0))%bool
      then nth_error arr (Z.to_nat (Qfloor q))
      else None
  | _ => None
  end.

(* ------------------------------------------------------------------- *)
(** *** Number.prototype.toFixed *)

(** Nearest integer to [x * 10^f] for [x >= 0], the larger one on a tie. *)
Definition scaled_round (f : nat) (x : Q) : Z :=
  Qfloor (x * inject_Z (10 ^ Z.of_nat f) + (1 # 2)).

Definition toFixedQ (f : nat) (x : Q) : string :=
  let negative := Qltb x 0 in
  let n := scaled_round f (Qabs x) in
  let m := padStart (S f) "0" (string_of_Z n) in
  let k := (String.length m - f)%nat in
  let body :=
    match f with
    | O => m
    | _ => string_take k m ++ "." ++ string_drop k m
    end in
  (if negative then "-" else "") ++ body.

Definition toFixed (f : nat) (a : number) : string :=
  match a with
  | NaN => "NaN"
  | PInf => "Infinity"
  | NInf => "-Infinity"
  | Fin x => toFixedQ f x
  end.

End JS.

(* ===================================================================== *)
(** ** TripForm.jsx: validation and submission of the trip form *)
(* ===================================================================== *)

Module TripForm.

(** The form's [values] state.  Every field holds the text of its input
    element ([cycle_hours_used] starts as the number 14, which parseFloat
    first converts to the string "14"). *)
Record form_values : Type := {
  current_location : string;
  pickup_location : string;
  dropoff_location : string;
  cycle_hours_used : string;
  driver_name : string;
  carrier_name : string;
}.

Definition DEFAULT_VALUES : form_values := {|
  current_location := "Chicago, IL";
  pickup_location := "St. Louis, MO";
  dropoff_location := "Dallas, TX";
  cycle_hours_used := "14";
  driver_name := "John Doe";
  carrier_name := "ACME Trucking Co.";
|}.

(** The object passed to [onSubmit]. *)
Record request : Type := {
  req_current_location : string;
  req_pickup_location : string;
  req_dropoff_location : string;
  req_cycle_hours_used : JS.number;
  req_driver_name : string;
  req_carrier_name : string;
}.

(** The component state: [values] and the [errors] object. *)
Record form_state : Type := {
  values : form_values;
  errors : gmap string string;
}.

(** [if (cond) errs[key] = msg] *)
Definition set_if (cond : bool) (key msg : string)
    (errs : gmap string string) : gmap string string :=
  if cond then <[key := msg]> errs else errs.

Definition validate (v : form_values) : gmap string string :=
  let errs : gmap string string := ∅ in
  let errs := set_if (negb (JS.truthy_str (JS.trim (current_location v))))
                "current_location" "Required" errs in
  let errs := set_if (negb (JS.truthy_str (JS.trim (pickup_location v))))
                "pickup_location" "Required" errs in
  let errs := set_if (negb (JS.truthy_str (JS.trim (dropoff_location v))))
                "dropoff_location" "Required" errs in
  let c := JS.parseFloat (cycle_hours_used v) in
  set_if (JS.isNaN c || JS.lt c (JS.of_Z 0) || JS.gt c (JS.of_Z 70))
    "cycle_hours_used" "Must be 0–70 hrs" errs.

(** [s.trim() || dflt] *)
Definition trim_or (s dflt : string) : string :=
  if JS.truthy_str (JS.trim s) then JS.trim s else dflt.

(** [handleSubmit]: the state after the handler and the request handed to
    [onSubmit], if it was called. *)
Definition handleSubmit (st : form_state) : form_state * option request :=
  let v := values st in
  let errs := validate v in
  if negb (Nat.eqb (size errs) 0) then
    ({| values := v; errors := errs |}, None)
  else
    (st, Some {|
      req_current_location := JS.trim (current_location v);
      req_pickup_location := JS.trim (pickup_location v);
      req_dropoff_location := JS.trim (dropoff_location v);
      req_cycle_hours_used := JS.parseFloat (cycle_hours_used v);
      req_driver_name := trim_or (driver_name v) "Driver";
      req_carrier_name := trim_or (carrier_name v) "Motor Carrier";
    |}).

(** A form state given field by field. *)
Definition form_with (cur pick drop cyc dn cn : string)
    (errs : gmap string string) : form_state :=
  {| values := {| current_location := cur; pickup_location := pick;
                  dropoff_location := drop; cycle_hours_used := cyc;
                  driver_name := dn; carrier_name := cn |};
     errors := errs |}.

End TripForm.

(* ===================================================================== *)
(** ** The response of the plan-trip endpoint (README, "API Endpoints") *)
(* ===================================================================== *)

Module Schedule.

Record segment : Type := {
  status : string;
  start : Q;
  end_ : Q;
  note : option string;          (* [None]: the segment has no note *)
}.

Record day : Type := {
  day_num : Z;
  totals : gmap string Q;        (* status key to hours *)
  driven_miles : Q;
  timeline : list segment;
}.

(** A fuel or rest stop.  [miles_in = None] is a record without that
    property, whose read gives undefined. *)
Record stop : Type := {
  stop_day : Z;
  time_str : string;
  miles_in : option Q;
}.

Record trip_stats : Type := {
  total_miles : Q;
  total_driving_hrs : Q;
  trip_days : Z;
  fuel_stop_count : Z;
  cycle_used_start : Q;
  avg_speed_mph : Q;
}.

Record schedule : Type := {
  days : list day;
  fuel_stops : list stop;
  rest_stops : list stop;
  stats : trip_stats;
}.

Record location : Type := { name : string; lat : Q; lon : Q }.

Record locations : Type := {
  loc_start : location;
  loc_pickup : location;
  loc_dropoff : location;
}.

Record route : Type := {
  geometry : list (Q * Q);       (* [lon, lat] pairs *)
  distance_mi : Q;
}.

Record response_meta : Type := {
  meta_driver_name : string;
  meta_carrier_name : string;
}.

Record trip_data : Type := {
  td_locations : locations;
  td_route : route;
  td_schedule : schedule;
  td_meta : response_meta;
}.

(** [d.totals[k]], [d.totals.k]. *)
Definition totals_get (d : day) (k : string) : JS.value :=
  match totals d !! k with
  | Some q => JS.VNum (JS.Fin q)
  | None => JS.VUndef
  end.

(** [s.miles_in]. *)
Definition miles_in_get (s : stop) : JS.value :=
  match miles_in s with
  | Some q => JS.VNum (JS.Fin q)
  | None => JS.VUndef
  end.

End Schedule.

(* ===================================================================== *)
(** ** RouteMap.jsx: the markers put on the map *)
(* ===================================================================== *)

Module RouteMap.
Import Schedule.

Inductive marker_kind : Type :=
| CurrentLocation | Pickup | Dropoff | FuelStop | RestBreak.

(** [L.marker(pt, ...)]; [position = None] is a marker created on
    undefined. *)
Record marker : Type := {
  kind : marker_kind;
  position : option (Q * Q);
}.

Definition latlngs (r : route) : list (Q * Q) :=
  map (fun p => (snd p, fst p)) (geometry r).

(** [Math.min(Math.floor(frac * totalPts), totalPts - 1)] with
    [frac = s.miles_in / Math.max(totalMiles, 1)]; the fuel-stop loop and the
    rest-stop loop compute it with the same text. *)
Definition stop_index (r : route) (s : stop) : JS.number :=
  let totalPts := JS.of_Z (Z.of_nat (length (latlngs r))) in
  let totalMiles := JS.Fin (distance_mi r) in
  let frac := JS.div (JS.ToNumber (miles_in_get s))
                     (JS.Math_max totalMiles (JS.of_Z 1)) in
  JS.Math_min (JS.Math_floor (JS.mul frac totalPts))
              (JS.sub totalPts (JS.of_Z 1)).

Definition stop_marker (k : marker_kind) (r : route) (s : stop) : marker :=
  {| kind := k; position := JS.array_get (latlngs r) (stop_index r s) |}.

Definition location_marker (k : marker_kind) (l : location) : marker :=
  {| kind := k; position := Some (lat l, lon l) |}.

(** The markers the effect adds, in order. *)
Definition markers (td : trip_data) : list marker :=
  [ location_marker CurrentLocation (loc_start (td_locations td));
    location_marker Pickup (loc_pickup (td_locations td));
    location_marker Dropoff (loc_dropoff (td_locations td)) ]
  ++ map (stop_marker FuelStop (td_route td)) (fuel_stops (td_schedule td))
  ++ map (stop_marker RestBreak (td_route td)) (rest_stops (td_schedule td)).

End RouteMap.

(* ===================================================================== *)
(** ** TripSummary.jsx: cycle hours remaining *)
(* ===================================================================== *)

Module TripSummary.
Import Schedule.

(** [schedule.days.reduce((sum, d) => sum + d.totals.driving + d.totals.on_duty, 0)] *)
Definition totalOnDuty (ds : list day) : JS.number :=
  fold_left
    (fun sum d =>
       JS.add (JS.add sum (JS.ToNumber (totals_get d "driving")))
              (JS.ToNumber (totals_get d "on_duty")))
    ds (JS.of_Z 0).

(** [Math.max(0, 70 - stats.cycle_used_start - totalOnDuty)] *)
Definition cycleRemaining_value (sch : schedule) : JS.number :=
  JS.Math_max (JS.of_Z 0)
    (JS.sub (JS.sub (JS.of_Z 70) (JS.Fin (cycle_used_start (stats sch))))
            (totalOnDuty (days sch))).

(** [cycleRemaining], the text shown after "~" in the card. *)
Definition cycleRemaining (sch : schedule) : string :=
  JS.toFixed 1 (cycleRemaining_value sch).

End TripSummary.

(* ===================================================================== *)
(** ** App.js: planning a trip and what is rendered *)
(* ===================================================================== *)

Module App.
Import Schedule.

Record app_state : Type := {
  loading : bool;
  loadMsg : string;
  error : string;
  tripData : option trip_data;
}.

Definition initial_state : app_state :=
  {| loading := false; loadMsg := ""; error := ""; tripData := None |}.

(** The body of a 2xx response: [success], [error] (absent: [None]) and the
    trip itself. *)
Record response_body : Type := {
  success : bool;
  body_error : option string;
  body_trip : trip_data;
}.

(** What the awaited [axios.post] does: it resolves with a body, or rejects
    with an error carrying [response?.data?.error] (absent: [None]) and
    [message]. *)
Inductive post_outcome : Type :=
| Resolved (body : response_body)
| Rejected (response_error : option string) (message : string).

(** [a || b] on an optional string. *)
Definition or_else (a : option string) (b : string) : string :=
  match a with
  | Some s => if JS.truthy_str s then s else b
  | None => b
  end.

(** The synchronous part of [handlePlanTrip], up to the [await]. *)
Definition handlePlanTrip_begin (st : app_state) : app_state :=
  {| loading := true;
     loadMsg := "Calculating route & applying FMCSA HOS rules…";
     error := "";
     tripData := None |}.

(** The [try] body after the [await], the [catch] and the [finally]. *)
Definition handlePlanTrip_end (o : post_outcome) (st : app_state) : app_state :=
  let st1 :=
    match o with
    | Resolved body =>
        if negb (success body) then
          (* throw new Error(data.error || 'Unknown error'), caught below:
             the Error has no [response], so [msg] is its message *)
          let message := or_else (body_error body) "Unknown error" in
          {| loading := loading st; loadMsg := loadMsg st;
             error := or_else None (or_else (Some message) "Request failed.");
             tripData := tripData st |}
        else
          {| loading := loading st; loadMsg := loadMsg st;
             error := error st; tripData := Some (body_trip body) |}
    | Rejected response_error message =>
        {| loading := loading st; loadMsg := loadMsg st;
           error := or_else response_error (or_else (Some message) "Request failed.");
           tripData := tripData st |}
    end in
  {| loading := false; loadMsg := ""; error := error st1; tripData := tripData st1 |}.

Definition handlePlanTrip (o : post_outcome) (st : app_state) : app_state :=
  handlePlanTrip_end o (handlePlanTrip_begin st).

Definition handleReset (st : app_state) : app_state :=
  {| loading := loading st; loadMsg := loadMsg st; error := ""; tripData := None |}.

(** The conditional sections of the rendered page. *)
Inductive section : Type :=
| ErrorBanner (msg : string)
| LoadingCard (msg : string)
| Results (td : trip_data).       (* RouteMap, TripSummary and ELDLogs *)

Definition render (st : app_state) : list section :=
  (if JS.truthy_str (error st) then [ErrorBanner (error st)] else [])
  ++ (if loading st
      then [LoadingCard (if JS.truthy_str (loadMsg st) then loadMsg st else "Processing…")]
      else [])
  ++ match tripData st with
     | Some td => if negb (loading st) then [Results td] else []
     | None => []
     end.

End App.

(* ===================================================================== *)
(** ** ELDLogs.jsx: the daily log sheet *)
(* ===================================================================== *)

Module ELDLogs.
Import Schedule.

Definition STATUS_COLOR : list (string * JS.value) :=
  [ ("off_duty", JS.VStr "#444444");
    ("sleeper", JS.VStr "#1d4ed8");
    ("driving", JS.VStr "#d97706");
    ("on_duty", JS.VStr "#047857") ].

Definition STATUS_ROW : list (string * JS.value) :=
  [ ("off_duty", JS.VNum (JS.of_Z 0));
    ("sleeper", JS.VNum (JS.of_Z 1));
    ("driving", JS.VNum (JS.of_Z 2));
    ("on_duty", JS.VNum (JS.of_Z 3)) ].

(** The [meta] prop, as App.js builds it. *)
Record meta : Type := {
  driverName : string;
  carrierName : string;
  from : string;
  to : string;
  totalMiles : Q;
}.

(** The [info] argument of [drawELDLog]. *)
Record info : Type := {
  info_date : string;
  info_driver : string;
  info_carrier : string;
  info_from : string;
  info_to : string;
  info_dailyMiles : JS.number;
  info_totalMiles : JS.number;
  info_vehicleNo : string;
}.

Definition str_or (s dflt : string) : string :=
  if JS.truthy_str s then s else dflt.

Definition num_or (n dflt : JS.number) : JS.number :=
  if JS.truthy_num n then n else dflt.

(** The object literal DayLog passes to [drawELDLog]. *)
Definition DayLog_info (d : day) (dateStr : string) (m : meta) : info :=
  {| info_date := dateStr;
     info_driver := str_or (driverName m) "Driver";
     info_carrier := str_or (carrierName m) "Motor Carrier";
     info_from := str_or (from m) "—";
     info_to := str_or (to m) "—";
     info_dailyMiles := num_or (JS.Fin (driven_miles d)) (JS.of_Z 0);
     info_totalMiles := num_or (JS.Math_round (JS.Fin (totalMiles m))) (JS.of_Z 0);
     info_vehicleNo := "TRK-" ++ JS.string_of_Z (1000 + day_num d) |}.

(** The three pills of the day header: Drive, On Duty, Off Duty.  [None] is
    the TypeError of calling [toFixed] on undefined. *)
Definition DayLog_pills (d : day) : option (string * string * string) :=
  match totals_get d "driving", totals_get d "on_duty" with
  | JS.VNum driving, JS.VNum on_duty =>
      Some (JS.toFixed 2 driving,
            JS.toFixed 2 on_duty,
            JS.toFixed 2 (JS.add (JS.ToNumber (totals_get d "off_duty"))
                                 (JS.ToNumber (totals_get d "sleeper"))))
  | _, _ => None
  end.

(** *** fmtHr *)

Definition fmtHr_h (hour : Q) : Z := Qfloor hour.

(** [Math.round((hour - h) * 60)]: the difference and the product are
    binary64 results (finite: the difference is below 1, the product at
    most 60), the rounding to an integer is exact. *)
Definition fmtHr_m (hour : Q) : Z :=
  Qfloor (JS.round64_Q (JS.round64_Q (hour - inject_Z (fmtHr_h hour)) * 60)
          + (1 # 2)).

Definition fmtHr_period (hour : Q) : string :=
  if (fmtHr_h hour <? 12)%Z then "AM" else "PM".

Definition fmtHr_dh (hour : Q) : Z :=
  let h := fmtHr_h hour in
  if (h =? 0)%Z then 12%Z else if (h >? 12)%Z then (h - 12)%Z else h.

Definition fmtHr (hour : Q) : string :=
  JS.string_of_Z (fmtHr_dh hour) ++ ":"
  ++ JS.padStart 2 "0" (JS.string_of_Z (fmtHr_m hour)) ++ " "
  ++ fmtHr_period hour.

(** *** drawELDLog *)

(** Layout constants. *)
Definition CW : Z := 900.
Definition CH : Z := 480.
Definition M : Z := 8.
Definition HDR_H : Z := 120.
Definition GRID_X : Z := 88.
Definition GRID_TOP : Z := HDR_H + 28.
Definition ROW_H : Z := 36.
Definition ROWS : nat := 4.
Definition GRID_H : Z := Z.of_nat ROWS * ROW_H.
Definition TOTAL_X : Z := CW - 72.
Definition GRID_W : Z := TOTAL_X - GRID_X - 4.
Definition REM_TOP : Z := GRID_TOP + GRID_H + 10.
Definition REM_H : Z := CH - REM_TOP - M - 2.
Definition C_dark : string := "#222222".

(** The value of a header field: a text, or a mileage printed before " mi". *)
Inductive header_value : Type :=
| HText (s : string)
| HMiles (n : JS.number).

(** The calls on the canvas that depend on the day or on [info], in the
    order the function issues them (the frame, title, grid, ticks and
    captions are the same on every sheet and are left out).
    - [HdrField]: one [hdrField(label, value, x, y, bold)];
    - [RowTotal]: the [fillText] of a row's total hours, with the fill style;
    - [StrokeLine]: [beginPath; moveTo(x1, y1); lineTo(x2, y2); stroke] with
      the stroke style set for the segment;
    - [RemarkEntry]: the bullet at (x, y) and the label at (x + 10, y);
    - [RecapRow]: one recapitulation line, label and value. *)
Inductive cmd : Type :=
| HdrField (label : string) (v : header_value) (x y : Q) (bold : bool)
| RowTotal (text : string) (x y : Q) (fillStyle : JS.value)
| StrokeLine (strokeStyle : JS.value) (x1 y1 x2 y2 : JS.number)
| RemarkEntry (fillStyle : JS.value) (label : string) (x y : Q)
| RecapRow (label value : string) (y : Q).

Definition header (inf : info) : list cmd :=
  let HL := inject_Z (M + 8) in
  let H1 := inject_Z (M + 35) in
  let H2 := (H1 + 32)%Q in
  let H3 := (H2 + 32)%Q in
  let COL2 := (inject_Z CW / 2 - 20)%Q in
  let COL3 := (inject_Z CW * (72 # 100))%Q in
  [ HdrField "DATE (Month/Day/Year)" (HText (info_date inf)) HL H1 true;
    HdrField "DRIVER NAME" (HText (info_driver inf)) HL H2 false;
    HdrField "CARRIER / COMPANY" (HText (info_carrier inf)) HL H3 false;
    HdrField "TOTAL MILES DRIVING TODAY" (HMiles (info_dailyMiles inf)) COL2 H1 true;
    HdrField "FROM (City/State)" (HText (info_from inf)) COL2 H2 false;
    HdrField "TO (City/State)" (HText (info_to inf)) COL2 H3 false;
    HdrField "VEHICLE NO." (HText (info_vehicleNo inf)) COL3 H1 false;
    HdrField "TOTAL TRIP MILES" (HMiles (info_totalMiles inf)) COL3 H2 false ].

Definition statusKeys : list string :=
  [ "off_duty"; "sleeper"; "driving"; "on_duty" ].

(** [(dayData.totals[statusKey] || 0).toFixed(2)] for the given row. *)
Definition rowHours (d : day) (row : nat) : string :=
  let statusKey := nth row statusKeys "undefined" in
  let v := totals_get d statusKey in
  JS.toFixed 2 (if JS.ToBoolean v then JS.ToNumber v else JS.of_Z 0).

Definition row_total (d : day) (row : nat) : cmd :=
  let RY := (GRID_TOP + Z.of_nat row * ROW_H)%Z in
  RowTotal (rowHours d row)
           (inject_Z (TOTAL_X + 6))
           (inject_Z RY + inject_Z ROW_H / 2 + 4)%Q
           (JS.obj_values_nth STATUS_COLOR row).

Definition row_totals (d : day) : list cmd :=
  map (row_total d) (seq 0 ROWS).

(** [dayData.timeline.filter(s => STATUS_ROW[s.status] !== undefined)] *)
Definition validSegs (tl : list segment) : list segment :=
  List.filter
    (fun s => negb (JS.strict_eq (JS.obj_get STATUS_ROW (status s)) JS.VUndef))
    tl.

(** [GRID_X + (t / 24) * GRID_W] *)
Definition x_of_hour (t : Q) : JS.number :=
  JS.add (JS.of_Z GRID_X)
         (JS.mul (JS.div (JS.Fin t) (JS.of_Z 24)) (JS.of_Z GRID_W)).

(** [GRID_TOP + row * ROW_H + ROW_H / 2] *)
Definition cy_of_row (row : JS.value) : JS.number :=
  JS.add (JS.add (JS.of_Z GRID_TOP) (JS.mul (JS.ToNumber row) (JS.of_Z ROW_H)))
         (JS.div (JS.of_Z ROW_H) (JS.of_Z 2)).

(** The state of the activity loop: [prevRow] and [prevEndX] ([None] is
    null) and the lines stroked so far. *)
Record activity_state : Type := {
  prevRow : option JS.value;
  prevEndX : option JS.number;
  strokes : list cmd;
}.

Definition activity_step (st : activity_state) (seg : segment) : activity_state :=
  let row := JS.obj_get STATUS_ROW (status seg) in
  let sx := x_of_hour (start seg) in
  let ex := x_of_hour (end_ seg) in
  let cy := cy_of_row row in
  let col := JS.obj_get STATUS_COLOR (status seg) in
  let connector :=
    match prevRow st, prevEndX st with
    | Some pr, Some px =>
        if negb (JS.strict_eq pr row)
        then [StrokeLine col px (cy_of_row pr) px cy]
        else []
    | _, _ => []
    end in
  {| prevRow := Some row;
     prevEndX := Some ex;
     strokes := (strokes st ++ connector ++ [StrokeLine col sx cy ex cy])%list |}.

Definition activity (tl : list segment) : list cmd :=
  strokes (fold_left activity_step (validSegs tl)
             {| prevRow := None; prevEndX := None; strokes := [] |}).

(** [validSegs.filter(s => s.note && s.status !== 'off_duty')] *)
Definition has_remark (s : segment) : bool :=
  (match note s with Some n => JS.truthy_str n | None => false end
   && negb (String.eqb (status s) "off_duty"))%bool.

Definition noteSegs (tl : list segment) : list segment :=
  List.filter has_remark (validSegs tl).

Definition note_text (s : segment) : string :=
  match note s with Some n => n | None => "undefined" end.

(** The state of the remarks loop: the pen position and the entries written. *)
Record remarks_state : Type := {
  rx : Q;
  ry : Q;
  entries : list cmd;
}.

Definition remarks_step (measureText : string -> Q)
    (st : remarks_state) (seg : segment) : remarks_state :=
  let label := fmtHr (start seg) ++ " — " ++ note_text seg in
  let tw := (measureText label + 22)%Q in
  let wrap := JS.Qltb (inject_Z (CW - M - 8)) (rx st + tw) in
  let rx1 := if wrap then inject_Z (M + 8) else rx st in
  let ry1 := if wrap then (ry st + 14)%Q else ry st in
  if JS.Qltb (inject_Z (REM_TOP + REM_H - 6)) ry1
  then {| rx := rx1; ry := ry1; entries := entries st |}
  else
    let c := JS.obj_get STATUS_COLOR (status seg) in
    let style := if JS.ToBoolean c then c else JS.VStr C_dark in
    {| rx := (rx1 + tw)%Q; ry := ry1;
       entries := (entries st ++ [RemarkEntry style label rx1 ry1])%list |}.

Definition remarks (measureText : string -> Q) (tl : list segment) : list cmd :=
  entries (fold_left (remarks_step measureText) (noteSegs tl)
             {| rx := inject_Z (M + 8); ry := inject_Z (REM_TOP + 28); entries := [] |}).

(** The [recapRows] array; [None] is the TypeError of
    [dayData.totals.driving.toFixed] on undefined. *)
Definition recapRows (d : day) : option (list (string * string)) :=
  let a := JS.toFixed 2 (JS.add (JS.ToNumber (totals_get d "driving"))
                                (JS.ToNumber (totals_get d "on_duty"))) in
  match totals_get d "driving" with
  | JS.VNum driving =>
      let b := JS.toFixed 2 driving in
      let c := JS.toFixed 2 (JS.add (JS.ToNumber (totals_get d "off_duty"))
                                    (JS.ToNumber (totals_get d "sleeper"))) in
      Some [ ("A. On Duty Today (Lines 3 & 4)", a ++ " hrs");
             ("B. Driving Today (Line 3)", b ++ " hrs");
             ("C. Off Duty Today (Lines 1 & 2)", c ++ " hrs") ]
  | _ => None
  end.

Fixpoint recap_cmds (rows : list (string * string)) (i : Z) : list cmd :=
  match rows with
  | [] => []
  | (lbl, val) :: rest =>
      RecapRow lbl val (inject_Z (REM_TOP + 4 + 23 + i * 13)) :: recap_cmds rest (i + 1)
  end.

(** [drawELDLog(canvas, dayData, info)]: the calls issued, and whether the
    function returned ([true]) or threw on the way ([false]).  [measureText]
    is the width the canvas context reports for a label. *)
Definition drawELDLog (measureText : string -> Q) (dayData : day) (inf : info)
    : list cmd * bool :=
  let before :=
    (header inf ++ row_totals dayData ++ activity (timeline dayData)
     ++ remarks measureText (timeline dayData))%list in
  match recapRows dayData with
  | Some rows => ((before ++ recap_cmds rows 0)%list, true)
  | None => (before, false)
  end.

(** Projections of the calls by the part of the sheet they draw. *)
Definition is_header (c : cmd) : bool :=
  match c with HdrField _ _ _ _ _ => true | _ => false end.
Definition is_row_total (c : cmd) : bool :=
  match c with RowTotal _ _ _ _ => true | _ => false end.
Definition is_stroke (c : cmd) : bool :=
  match c with StrokeLine _ _ _ _ _ => true | _ => false end.
Definition is_remark (c : cmd) : bool :=
  match c with RemarkEntry _ _ _ _ => true | _ => false end.
Definition is_recap (c : cmd) : bool :=
  match c with RecapRow _ _ _ => true | _ => false end.

End ELDLogs.

(* ===================================================================== *)
(** ** The scheduling engine of the specification *)
(* ===================================================================== *)

(** Modelled from the spec: the hours-of-service engine ([plan], the file
    hos_calculator.py of the back end) is not among the sources.  This
    module follows sections 3 and 4 of the specification: hours and miles are
    exact rationals, the clock and the engine state are threaded through pure
    functions, and the simulation loop runs on a step budget. *)
Module Engine.
Local Open Scope Q_scope.

Inductive DutyStatus : Type := off_duty | sleeper | driving | on_duty.

Definition status_eqb (a b : DutyStatus) : bool :=
  match a, b with
  | off_duty, off_duty | sleeper, sleeper | driving, driving | on_duty, on_duty => true
  | _, _ => false
  end.

Definition is_rest (s : DutyStatus) : bool :=
  match s with off_duty | sleeper => true | _ => false end.

(** Modelled from the spec: the constants of sections 3 and 4.2. *)
Definition AVG_SPEED_MPH : Q := 55.
Definition PICKUP_HRS : Q := 1.
Definition DROPOFF_HRS : Q := 1.
Definition BREAK_AFTER_HRS : Q := 8.
Definition BREAK_HRS : Q := 1 # 2.
Definition FUEL_EVERY_MI : Q := 1000.
Definition MAX_DRIVING_HRS : Q := 11.
Definition MAX_WINDOW_HRS : Q := 14.
Definition RESET_HRS : Q := 10.
Definition CYCLE_LIMIT_HRS : Q := 70.

(** Modelled from the spec: TripInput (section 3); the average speed and
    the pickup and dropoff hours are the constants above. *)
Record TripInput : Type := {
  distance_mi : Q;
  cycle_hours_used_start : Q;
  driver_name : string;
  carrier_name : string;
}.

Definition valid_input (i : TripInput) : Prop :=
  (0 < distance_mi i)%Q
  /\ (0 <= cycle_hours_used_start i)%Q
  /\ (cycle_hours_used_start i <= CYCLE_LIMIT_HRS)%Q.

Definition valid_inputb (i : TripInput) : bool :=
  (negb (Qle_bool (distance_mi i) 0)
   && Qle_bool 0 (cycle_hours_used_start i)
   && Qle_bool (cycle_hours_used_start i) CYCLE_LIMIT_HRS)%bool.

(** Modelled from the spec: DutySegment (section 3). *)
Record DutySegment : Type := {
  seg_status : DutyStatus;
  start_hour : Q;
  end_hour : Q;
  seg_note : option string;
}.

Definition duration (s : DutySegment) : Q := (end_hour s - start_hour s)%Q.

(** *** DutyClock (section 4.1) *)

Record DutyClock : Type := {
  driving_hrs_this_shift : Q;
  duty_hrs_this_window : Q;
  driving_hrs_since_break : Q;
  cycle_hrs_used : Q;
  miles_since_fuel : Q;
  miles_traveled : Q;
}.

Definition advance_driving (c : DutyClock) (hours miles : Q) : DutyClock :=
  {| driving_hrs_this_shift := driving_hrs_this_shift c + hours;
     duty_hrs_this_window := duty_hrs_this_window c + hours;
     driving_hrs_since_break := driving_hrs_since_break c + hours;
     cycle_hrs_used := cycle_hrs_used c + hours;
     miles_since_fuel := miles_since_fuel c + miles;
     miles_traveled := miles_traveled c + miles |}%Q.

Definition advance_on_duty (c : DutyClock) (hours : Q) : DutyClock :=
  {| driving_hrs_this_shift := driving_hrs_this_shift c;
     duty_hrs_this_window := duty_hrs_this_window c + hours;
     driving_hrs_since_break := driving_hrs_since_break c;
     cycle_hrs_used := cycle_hrs_used c + hours;
     miles_since_fuel := miles_since_fuel c;
     miles_traveled := miles_traveled c |}%Q.

(** An off-duty block of at least 10 hours resets the shift budgets; a
    shorter one still runs inside the 14-hour window (invariant 3). *)
Definition advance_off_duty (c : DutyClock) (hours : Q) : DutyClock :=
  if Qle_bool RESET_HRS hours then
    {| driving_hrs_this_shift := 0;
       duty_hrs_this_window := 0;
       driving_hrs_since_break := 0;
       cycle_hrs_used := cycle_hrs_used c;
       miles_since_fuel := miles_since_fuel c;
       miles_traveled := miles_traveled c |}
  else
    {| driving_hrs_this_shift := driving_hrs_this_shift c;
       duty_hrs_this_window := duty_hrs_this_window c + hours;
       driving_hrs_since_break := driving_hrs_since_break c;
       cycle_hrs_used := cycle_hrs_used c;
       miles_since_fuel := miles_since_fuel c;
       miles_traveled := miles_traveled c |}%Q.

Definition reset_break (c : DutyClock) : DutyClock :=
  {| driving_hrs_this_shift := driving_hrs_this_shift c;
     duty_hrs_this_window := duty_hrs_this_window c;
     driving_hrs_since_break := 0;
     cycle_hrs_used := cycle_hrs_used c;
     miles_since_fuel := miles_since_fuel c;
     miles_traveled := miles_traveled c |}.

Definition reset_fuel (c : DutyClock) : DutyClock :=
  {| driving_hrs_this_shift := driving_hrs_this_shift c;
     duty_hrs_this_window := duty_hrs_this_window c;
     driving_hrs_since_break := driving_hrs_since_break c;
     cycle_hrs_used := cycle_hrs_used c;
     miles_since_fuel := 0;
     miles_traveled := miles_traveled c |}.

(** *** RuleEngine and StopPlanner (sections 4.2 and 4.3) *)

(** Modelled from the spec: a fuel or rest stop with its calendar day, hour
    of that day and cumulative mileage. *)
Record Stop : Type := {
  stop_day : Z;
  elapsed_hour_in_day : Q;
  stop_miles_in : Q;
}.

Definition day_index (elapsed : Q) : Z := Qfloor (elapsed / 24).

Definition stop_at (elapsed miles : Q) : Stop :=
  {| stop_day := (day_index elapsed + 1)%Z;
     elapsed_hour_in_day := elapsed - 24 * inject_Z (day_index elapsed);
     stop_miles_in := miles |}.

(** Modelled from the spec: the progress of the simulation, passed by
    value (section 9). *)
Record EngineState : Type := {
  clock : DutyClock;
  elapsed : Q;                       (* trip-elapsed hours *)
  remaining : Q;                     (* miles still to drive *)
  segments : list DutySegment;       (* emitted so far, in order *)
  fuel_stops : list Stop;
  rest_stops : list Stop;
}.

Inductive Trigger : Type := BreakDue | FuelDue | ShiftEnd | TripEnd.

Definition hours_to_break (c : DutyClock) : Q :=
  BREAK_AFTER_HRS - driving_hrs_since_break c.
Definition hours_to_fuel (c : DutyClock) : Q :=
  (FUEL_EVERY_MI - miles_since_fuel c) / AVG_SPEED_MPH.
Definition hours_to_drive_limit (c : DutyClock) : Q :=
  MAX_DRIVING_HRS - driving_hrs_this_shift c.
Definition hours_to_window_limit (c : DutyClock) : Q :=
  MAX_WINDOW_HRS - duty_hrs_this_window c.
Definition hours_to_destination (rem : Q) : Q := rem / AVG_SPEED_MPH.

(** How long the next driving segment is: up to the nearest threshold or to
    the destination. *)
Definition drive_hours (c : DutyClock) (rem : Q) : Q :=
  Qmin (hours_to_break c)
    (Qmin (hours_to_fuel c)
       (Qmin (hours_to_drive_limit c)
          (Qmin (hours_to_window_limit c) (hours_to_destination rem)))).

(** Which trigger fires at the end of that segment: the nearest threshold,
    ties in the order break, fuel, drive limit, window limit; the trip end
    when the destination comes strictly first. *)
Definition next_trigger (c : DutyClock) (rem : Q) : Trigger :=
  let d := drive_hours c rem in
  if Qle_bool (hours_to_break c) d then BreakDue
  else if Qle_bool (hours_to_fuel c) d then FuelDue
  else if (Qle_bool (hours_to_drive_limit c) d
           || Qle_bool (hours_to_window_limit c) d)%bool then ShiftEnd
  else TripEnd.

(** Append a segment of the given length at the current time. *)
Definition emit (st : EngineState) (s : DutyStatus) (hours : Q)
    (n : option string) (c : DutyClock) : EngineState :=
  {| clock := c;
     elapsed := elapsed st + hours;
     remaining := remaining st;
     segments := (segments st ++
                  [ {| seg_status := s; start_hour := elapsed st;
                       end_hour := elapsed st + hours; seg_note := n |} ])%list;
     fuel_stops := fuel_stops st;
     rest_stops := rest_stops st |}.

(** Drive for [hours]; nothing is emitted for an empty segment. *)
Definition drive (st : EngineState) (hours : Q) : EngineState :=
  if Qle_bool hours 0 then st
  else
    let miles := (hours * AVG_SPEED_MPH)%Q in
    let st1 := emit st driving hours None (advance_driving (clock st) hours miles) in
    {| clock := clock st1; elapsed := elapsed st1;
       remaining := remaining st - miles;
       segments := segments st1;
       fuel_stops := fuel_stops st1; rest_stops := rest_stops st1 |}.

Definition take_break (st : EngineState) : EngineState :=
  let st1 := emit st off_duty BREAK_HRS (Some "30-min break")
               (reset_break (advance_off_duty (clock st) BREAK_HRS)) in
  {| clock := clock st1; elapsed := elapsed st1; remaining := remaining st1;
     segments := segments st1; fuel_stops := fuel_stops st1;
     rest_stops := (rest_stops st ++
                    [stop_at (elapsed st) (miles_traveled (clock st))])%list |}.

(** A fuel stop is a waypoint: no segment, no hours. *)
Definition take_fuel (st : EngineState) : EngineState :=
  {| clock := reset_fuel (clock st); elapsed := elapsed st;
     remaining := remaining st; segments := segments st;
     fuel_stops := (fuel_stops st ++
                    [stop_at (elapsed st) (miles_traveled (clock st))])%list;
     rest_stops := rest_stops st |}.

Definition end_shift (st : EngineState) : EngineState :=
  emit st off_duty RESET_HRS (Some "10-hour reset")
       (advance_off_duty (clock st) RESET_HRS).

(** One simulation step (steps 2 to 5 of section 4.2): drive up to the
    nearest threshold, then handle the trigger that fired. *)
Definition step (st : EngineState) : EngineState :=
  let d := drive_hours (clock st) (remaining st) in
  let trigger := next_trigger (clock st) (remaining st) in
  let st1 := drive st d in
  match trigger with
  | BreakDue => take_break st1
  | FuelDue => take_fuel st1
  | ShiftEnd => end_shift st1
  | TripEnd => st1
  end.

Definition cycle_exceeded (st : EngineState) : bool :=
  negb (Qle_bool (cycle_hrs_used (clock st)) CYCLE_LIMIT_HRS).

Inductive Outcome (A : Type) : Type :=
| Planned (a : A)
| InvalidInput
| CycleExceeded
| BudgetExhausted.          (* the step budget ran out: not an outcome of the spec *)
Arguments Planned {A} a.
Arguments InvalidInput {A}.
Arguments CycleExceeded {A}.
Arguments BudgetExhausted {A}.

(** The loop: stop when no distance remains (step 1), halt when the cycle
    budget is exceeded after a step. *)
Fixpoint run (budget : nat) (st : EngineState) : Outcome EngineState :=
  match budget with
  | O => BudgetExhausted
  | S budget' =>
      if Qle_bool (remaining st) 0 then Planned st
      else
        let st' := step st in
        if cycle_exceeded st' then CycleExceeded else run budget' st'
  end.

Definition initial_state (i : TripInput) : EngineState :=
  {| clock := {| driving_hrs_this_shift := 0; duty_hrs_this_window := 0;
                 driving_hrs_since_break := 0;
                 cycle_hrs_used := cycle_hours_used_start i;
                 miles_since_fuel := 0; miles_traveled := 0 |};
     elapsed := 0;
     remaining := distance_mi i;
     segments := [];
     fuel_stops := [];
     rest_stops := [] |}.

Definition pickup (st : EngineState) : EngineState :=
  emit st on_duty PICKUP_HRS (Some "Pickup") (advance_on_duty (clock st) PICKUP_HRS).

(** The dropoff hour, after a shift end when it would not fit the window. *)
Definition dropoff (st : EngineState) : EngineState :=
  let st1 :=
    if Qle_bool (duty_hrs_this_window (clock st) + DROPOFF_HRS) MAX_WINDOW_HRS
    then st else end_shift st in
  emit st1 on_duty DROPOFF_HRS (Some "Dropoff")
       (advance_on_duty (clock st1) DROPOFF_HRS).

(** The whole simulation: pickup, the loop, dropoff. *)
Definition simulate (budget : nat) (i : TripInput) : Outcome EngineState :=
  if negb (valid_inputb i) then InvalidInput
  else
    let st0 := pickup (initial_state i) in
    if cycle_exceeded st0 then CycleExceeded
    else
      match run budget st0 with
      | Planned st =>
          let st' := dropoff st in
          if cycle_exceeded st' then CycleExceeded else Planned st'
      | InvalidInput => InvalidInput
      | CycleExceeded => CycleExceeded
      | BudgetExhausted => BudgetExhausted
      end.

(** *** ScheduleBuilder (section 4.4) *)

Definition midnight_after (t : Q) : Q := 24 * (inject_Z (day_index t) + 1).

(** Split a segment at the midnights it crosses, at most [n] of them. *)
Fixpoint split_segment (n : nat) (s : DutySegment) : list DutySegment :=
  match n with
  | O => [s]
  | S n' =>
      let b := midnight_after (start_hour s) in
      if negb (Qle_bool (end_hour s) b) then
        {| seg_status := seg_status s; start_hour := start_hour s;
           end_hour := b; seg_note := seg_note s |}
        :: split_segment n'
             {| seg_status := seg_status s; start_hour := b;
                end_hour := end_hour s; seg_note := seg_note s |}
      else [s]
  end.

Definition midnights_crossed (s : DutySegment) : nat :=
  Z.to_nat (day_index (end_hour s) - day_index (start_hour s)).

Definition split_stream (segs : list DutySegment) : list DutySegment :=
  concat (map (fun s => split_segment (midnights_crossed s) s) segs).

(** A piece in the hours of its own day. *)
Definition clip (k : Z) (s : DutySegment) : DutySegment :=
  {| seg_status := seg_status s;
     start_hour := start_hour s - 24 * inject_Z k;
     end_hour := end_hour s - 24 * inject_Z k;
     seg_note := seg_note s |}.

Definition clip_own (p : DutySegment) : DutySegment :=
  clip (day_index (start_hour p)) p.

(** Group the ordered pieces by the day they start in. *)
Fixpoint bucket (pieces : list DutySegment) (k : Z) (cur : list DutySegment)
    : list (Z * list DutySegment) :=
  match pieces with
  | [] => [(k, cur)]
  | p :: rest =>
      if (day_index (start_hour p) =? k)%Z
      then bucket rest k (cur ++ [clip k p])
      else (k, cur) :: bucket rest (day_index (start_hour p)) [clip_own p]
  end.

Definition buckets (pieces : list DutySegment) : list (Z * list DutySegment) :=
  match pieces with
  | [] => []
  | p :: _ => bucket pieces (day_index (start_hour p)) []
  end.

Fixpoint hours_in (st : DutyStatus) (segs : list DutySegment) : Q :=
  match segs with
  | [] => 0
  | s :: rest =>
      (if status_eqb (seg_status s) st then duration s else 0) + hours_in st rest
  end.

(** Modelled from the spec: DayLog (section 3). *)
Record DayLog : Type := {
  day_num : Z;
  day_segments : list DutySegment;
  totals : DutyStatus -> Q;
  driven_miles : Q;
}.

Definition day_log (distance total_driving : Q) (b : Z * list DutySegment) : DayLog :=
  {| day_num := (fst b + 1)%Z;
     day_segments := snd b;
     totals := fun st => hours_in st (snd b);
     driven_miles :=
       if Qle_bool total_driving 0 then 0
       else distance * (hours_in driving (snd b) / total_driving) |}.

(** *** TripStatsAggregator (section 4.5) and the result *)

Record TripStats : Type := {
  total_miles : Q;
  total_driving_hrs : Q;
  trip_days : nat;
  fuel_stop_count : nat;
  cycle_used_start : Q;
  avg_speed_mph : Q;
}.

Record ScheduleResult : Type := {
  days : list DayLog;
  result_fuel_stops : list Stop;
  result_rest_stops : list Stop;
  trip_stats : TripStats;
}.

Definition build (i : TripInput) (st : EngineState) : ScheduleResult :=
  let total_driving := hours_in driving (segments st) in
  let ds := map (day_log (distance_mi i) total_driving)
                (buckets (split_stream (segments st))) in
  {| days := ds;
     result_fuel_stops := fuel_stops st;
     result_rest_stops := rest_stops st;
     trip_stats :=
       {| total_miles := distance_mi i;
          total_driving_hrs := total_driving;
          trip_days := length ds;
          fuel_stop_count := length (fuel_stops st);
          cycle_used_start := cycle_hours_used_start i;
          avg_speed_mph := AVG_SPEED_MPH |} |}.

Definition plan_with (budget : nat) (i : TripInput) : Outcome ScheduleResult :=
  match simulate budget i with
  | Planned st => Planned (build i st)
  | InvalidInput => InvalidInput
  | CycleExceeded => CycleExceeded
  | BudgetExhausted => BudgetExhausted
  end.

(** A step budget for the trip: every step but the last fires a break, a
    fuel stop or a shift end, and those are at least 8 driving hours, 1000
    miles and 11 driving hours apart. *)
Definition step_budget (i : TripInput) : nat :=
  (Z.to_nat (Qceiling (distance_mi i / AVG_SPEED_MPH)) + 8)%nat.

(** Modelled from the spec: [plan(tripInput) -> ScheduleResult | Error]. *)
Definition plan (i : TripInput) : Outcome ScheduleResult :=
  plan_with (step_budget i) i.

(** *** Shifts (invariant 2, property P2) *)

(** The segments of the result in trip order. *)
Definition result_stream (r : ScheduleResult) : list DutySegment :=
  concat (map day_segments (days r)).

(** The scan that cuts a stream into shifts: the driving hours of the
    shifts already closed, those of the open shift, and the length of the
    off-duty/sleeper run the stream currently ends with. *)
Record ShiftScan : Type := {
  closed : list Q;
  open_driving : Q;
  rest_run : Q;
}.

(** A duty segment that follows at least 10 hours of rest closes the open
    shift and starts the next one; rest lengthens the current rest run. *)
Definition scan_step (sc : ShiftScan) (s : DutySegment) : ShiftScan :=
  if is_rest (seg_status s) then
    {| closed := closed sc; open_driving := open_driving sc;
       rest_run := rest_run sc + duration s |}
  else
    let hours := if status_eqb (seg_status s) driving then duration s else 0 in
    if Qle_bool RESET_HRS (rest_run sc) then
      {| closed := (closed sc ++ [open_driving sc])%list;
         open_driving := hours; rest_run := 0 |}
    else
      {| closed := closed sc; open_driving := open_driving sc + hours; rest_run := 0 |}.

Definition scan_start : ShiftScan :=
  {| closed := []; open_driving := 0; rest_run := 0 |}.

(** The driving hours of each shift of a stream, a shift being a maximal
    run of the stream bounded by off-duty/sleeper time of at least 10 hours. *)
Definition shift_driving_hours (segs : list DutySegment) : list Q :=
  let sc := fold_left scan_step segs scan_start in
  (closed sc ++ [open_driving sc])%list.

(** Two scans that agree up to the representation of the rationals. *)
Definition scan_equiv (a b : ShiftScan) : Prop :=
  Forall2 Qeq (closed a) (closed b)
  /\ open_driving a == open_driving b
  /\ rest_run a == rest_run b.

(** What links the clock to the scan of the stream emitted so far: no shift
    is over the limit, and unless the stream ends with a full reset the open
    shift has no more driving hours than the clock counts. *)
Definition shift_inv (sc : ShiftScan) (c : DutyClock) : Prop :=
  Forall (fun h => h <= MAX_DRIVING_HRS) (closed sc)
  /\ open_driving sc <= MAX_DRIVING_HRS
  /\ 0 <= rest_run sc
  /\ 0 <= driving_hrs_this_shift c
  /\ driving_hrs_this_shift c <= MAX_DRIVING_HRS
  /\ (rest_run sc < RESET_HRS -> open_driving sc <= driving_hrs_this_shift c).

Definition engine_inv (st : EngineState) : Prop :=
  shift_inv (fold_left scan_step (segments st) scan_start) (clock st).

End Engine.

(* ===================================================================== *)
(** ** Quantities the claims are stated with *)
(* ===================================================================== *)

Module Stated.
Import Schedule.

(** The hours a day's totals give for a status key (0 for a key the totals
    do not have). *)
Definition hours (d : day) (k : string) : Q :=
  match totals d !! k with Some q => q | None => 0%Q end.

(** The sum of [totals.driving + totals.on_duty] over all days. *)
Fixpoint on_duty_sum (ds : list day) : Q :=
  match ds with
  | [] => 0%Q
  | d :: rest => (hours d "driving" + hours d "on_duty" + on_duty_sum rest)%Q
  end.

(** A day whose totals have the four keys of the output contract. *)
Definition totals_complete (d : day) : Prop :=
  forall k, In k ["off_duty"; "sleeper"; "driving"; "on_duty"] ->
            is_Some (totals d !! k).

(** A planning outcome that is a failure: the request was rejected, or the
    response carries [success: false]. *)
Definition failed (o : App.post_outcome) : bool :=
  match o with
  | App.Resolved body => negb (App.success body)
  | App.Rejected _ _ => true
  end.

(** The error message the server supplied with a failure, if any. *)
Definition server_message (o : App.post_outcome) : option string :=
  match o with
  | App.Resolved body => App.body_error body
  | App.Rejected response_error _ => response_error
  end.

(** The message used when the server supplied none. *)
Definition generic_message (o : App.post_outcome) : string :=
  match o with
  | App.Resolved _ => "Unknown error"
  | App.Rejected _ message => if JS.truthy_str message then message else "Request failed."
  end.

End Stated.

(* ===================================================================== *)
(** ** Sample data: the 855-mile trip of the specification's scenario 2 *)
(* ===================================================================== *)

Module Sample.
Import Schedule.

Definition seg (st : string) (a b : Q) (n : option string) : segment :=
  {| status := st; start := a; end_ := b; note := n |}.

Definition day1 : day :=
  {| day_num := 1;
     totals := list_to_map
       [ ("off_duty", 21 # 2); ("sleeper", 0); ("driving", 25 # 2); ("on_duty", 1) ]%Q;
     driven_miles := 1375 # 2;
     timeline :=
       [ seg "on_duty" 0 1 (Some "Pickup");
         seg "driving" 1 9 None;
         seg "off_duty" 9 (19 # 2) (Some "30-min break");
         seg "driving" (19 # 2) (25 # 2) None;
         seg "off_duty" (25 # 2) (45 # 2) (Some "10-hr rest");
         seg "driving" (45 # 2) 24 None ]%Q |}.

Definition day2 : day :=
  {| day_num := 2;
     totals := list_to_map
       [ ("off_duty", 399 # 20); ("sleeper", 0); ("driving", 61 # 20); ("on_duty", 1) ]%Q;
     driven_miles := 335 # 2;
     timeline :=
       [ seg "driving" 0 (61 # 20) None;
         seg "on_duty" (61 # 20) (81 # 20) (Some "Dropoff");
         seg "off_duty" (81 # 20) 24 None ]%Q |}.

Definition sample_schedule : schedule :=
  {| days := [day1; day2];
     fuel_stops := [];
     rest_stops := [ {| stop_day := 1; time_str := "09:00 AM"; miles_in := None |} ];
     stats := {| total_miles := 855; total_driving_hrs := 311 # 20; trip_days := 2;
                 fuel_stop_count := 0; cycle_used_start := 14; avg_speed_mph := 55 |} |}.

Definition sample_route : route :=
  {| geometry := [ (-8763 # 100, 4188 # 100); (-9020 # 100, 3863 # 100);
                   (-9680 # 100, 3278 # 100) ]%Q;
     distance_mi := 855 |}.

(** A day whose timeline holds a segment with a status outside the four
    duty statuses. *)
Definition odd_day : day :=
  {| day_num := 1;
     totals := list_to_map
       [ ("off_duty", 22); ("sleeper", 0); ("driving", 1); ("on_duty", 0) ]%Q;
     driven_miles := 55;
     timeline :=
       [ seg "off_duty" 0 1 None;
         seg "constructor" 1 2 (Some "Detour");
         seg "driving" 2 3 None;
         seg "off_duty" 3 24 None ]%Q |}.

(** The same day without that segment. *)
Definition odd_day_filtered : list segment :=
  [ seg "off_duty" 0 1 None;
    seg "driving" 2 3 None;
    seg "off_duty" 3 24 None ]%Q.

Definition sample_meta : ELDLogs.meta :=
  {| ELDLogs.driverName := "John Doe"; ELDLogs.carrierName := "ACME Trucking Co.";
     ELDLogs.from := "Chicago, IL"; ELDLogs.to := "Dallas, TX";
     ELDLogs.totalMiles := 855 |}.

Definition other_meta : ELDLogs.meta :=
  {| ELDLogs.driverName := ""; ELDLogs.carrierName := "Other Carrier";
     ELDLogs.from := ""; ELDLogs.to := "Tulsa, OK";
     ELDLogs.totalMiles := 0 |}.

(** The input of scenario 2 and what the engine plans for it. *)
Definition trip_855 : Engine.TripInput :=
  {| Engine.distance_mi := 855; Engine.cycle_hours_used_start := 14;
     Engine.driver_name := "John Doe"; Engine.carrier_name := "ACME Trucking Co." |}.

Definition planned_855 : Engine.ScheduleResult :=
  match Engine.plan trip_855 with
  | Engine.Planned r => r
  | _ => Engine.build trip_855 (Engine.initial_state trip_855)
  end.

(** A day with a status that is neither a duty status nor an inherited
    property name. *)
Definition resting_segment : segment := seg "resting" 1 2 (Some "Nap").

(** Totals without the [driving] key, and totals without [on_duty]. *)
Definition day_without_driving : day :=
  {| day_num := 3;
     totals := list_to_map [ ("off_duty", 24); ("sleeper", 0); ("on_duty", 0) ]%Q;
     driven_miles := 0;
     timeline := [ seg "off_duty" 0 24 None ]%Q |}.

Definition day_without_on_duty : day :=
  {| day_num := 3;
     totals := list_to_map [ ("off_duty", 20); ("sleeper", 0); ("driving", 4) ]%Q;
     driven_miles := 220;
     timeline := [ seg "off_duty" 0 20 None; seg "driving" 20 24 None ]%Q |}.

Definition sample_trip : trip_data :=
  {| td_locations :=
       {| loc_start := {| name := "Chicago, IL"; lat := 4188 # 100; lon := -8763 # 100 |};
          loc_pickup := {| name := "St. Louis, MO"; lat := 3863 # 100; lon := -9020 # 100 |};
          loc_dropoff := {| name := "Dallas, TX"; lat := 3278 # 100; lon := -9680 # 100 |} |};
     td_route := sample_route;
     td_schedule := sample_schedule;
     td_meta := {| meta_driver_name := "John Doe";
                   meta_carrier_name := "ACME Trucking Co." |} |}.

End Sample.

(* ===================================================================== *)
(** ** TripForm.jsx: editing and resetting the form *)
(* ===================================================================== *)

Module TripFormHandlers.
Import TripForm.

(** The six keys the component passes to [set]. *)
Inductive field : Type :=
| F_current_location | F_pickup_location | F_dropoff_location
| F_cycle_hours_used | F_driver_name | F_carrier_name.

Definition field_key (f : field) : string :=
  match f with
  | F_current_location => "current_location"
  | F_pickup_location => "pickup_location"
  | F_dropoff_location => "dropoff_location"
  | F_cycle_hours_used => "cycle_hours_used"
  | F_driver_name => "driver_name"
  | F_carrier_name => "carrier_name"
  end.

(** [{ ...prev, [key]: val }] on the values. *)
Definition set_value (f : field) (val : string) (v : form_values) : form_values :=
  match f with
  | F_current_location =>
      {| current_location := val; pickup_location := pickup_location v;
         dropoff_location := dropoff_location v; cycle_hours_used := cycle_hours_used v;
         driver_name := driver_name v; carrier_name := carrier_name v |}
  | F_pickup_location =>
      {| current_location := current_location v; pickup_location := val;
         dropoff_location := dropoff_location v; cycle_hours_used := cycle_hours_used v;
         driver_name := driver_name v; carrier_name := carrier_name v |}
  | F_dropoff_location =>
      {| current_location := current_location v; pickup_location := pickup_location v;
         dropoff_location := val; cycle_hours_used := cycle_hours_used v;
         driver_name := driver_name v; carrier_name := carrier_name v |}
  | F_cycle_hours_used =>
      {| current_location := current_location v; pickup_location := pickup_location v;
         dropoff_location := dropoff_location v; cycle_hours_used := val;
         driver_name := driver_name v; carrier_name := carrier_name v |}
  | F_driver_name =>
      {| current_location := current_location v; pickup_location := pickup_location v;
         dropoff_location := dropoff_location v; cycle_hours_used := cycle_hours_used v;
         driver_name := val; carrier_name := carrier_name v |}
  | F_carrier_name =>
      {| current_location := current_location v; pickup_location := pickup_location v;
         dropoff_location := dropoff_location v; cycle_hours_used := cycle_hours_used v;
         driver_name := driver_name v; carrier_name := val |}
  end.

(** [set(key, val)]: the value is stored and the key's error becomes ''. *)
Definition set (f : field) (val : string) (st : form_state) : form_state :=
  {| values := set_value f val (values st);
     errors := <[field_key f := ""]> (errors st) |}.


(** [handleReset] (the call of [onReset] is the App's [handleReset]). *)
Definition handleReset (st : form_state) : form_state :=
  {| values := DEFAULT_VALUES; errors := ∅ |}.




End TripFormHandlers.

(* ===================================================================== *)
(** ** TripSummary.jsx: the texts of the cards *)
(* ===================================================================== *)

Module TripSummaryCards.
Import Schedule.

(** [formatHrs]: [h] and [m] of "${h}h ${m}m"; [m] is
    [Math.round((hrs - h) * 60)], whose difference and product are binary64
    results. *)
Definition formatHrs_h (hrs : Q) : Z := Qfloor hrs.

Definition formatHrs_m (hrs : Q) : Z :=
  Qfloor (JS.round64_Q (JS.round64_Q (hrs - inject_Z (formatHrs_h hrs)) * 60)
          + (1 # 2)).

Definition formatHrs (hrs : Q) : string :=
  JS.string_of_Z (formatHrs_h hrs) ++ "h " ++ JS.string_of_Z (formatHrs_m hrs) ++ "m".

(** [`${n} ${word}${n !== 1 ? 's' : ''}`] for an integer count. *)
Definition counted (n : Z) (word : string) : string :=
  JS.string_of_Z n ++ " " ++ word ++ (if (n =? 1)%Z then "" else "s").

(** The accent of the cycle card: [parseFloat(cycleRemaining) < 10 ? 'red' : 'green']. *)
Definition cycle_accent (sch : schedule) : string :=
  if JS.lt (JS.parseFloat (TripSummary.cycleRemaining sch)) (JS.of_Z 10)
  then "red" else "green".

(** One row of the daily breakdown: the day number and the texts after
    "Drive " and "On Duty ".  [None] is the TypeError of calling [toFixed]
    on undefined. *)
Definition day_row (d : day) : option (Z * string * string) :=
  match totals_get d "driving", totals_get d "on_duty" with
  | JS.VNum driving, JS.VNum on_duty =>
      Some (day_num d, JS.toFixed 1 driving, JS.toFixed 1 on_duty)
  | _, _ => None
  end.

(** [schedule.days.map(day => ...)]: the rows in order, [None] when the
    callback throws on some day. *)
Fixpoint day_rows (ds : list day) : option (list (Z * string * string)) :=
  match ds with
  | [] => Some []
  | d :: rest =>
      match day_row d with
      | Some r =>
          match day_rows rest with
          | Some rs => Some (r :: rs)
          | None => None
          end
      | None => None
      end
  end.

(** What TripSummary returns, restricted to the cards and rows whose text
    is built from numbers this embedding prints (integers and [toFixed]):
    the drive-time, trip-duration, fuel-stop and cycle cards and the daily
    breakdown. *)
Record summary : Type := {
  drive_time : string;
  trip_duration : string;
  fuel_stops_card : string;
  cycle_remaining : string;      (* the text after "~" in the cycle card *)
  cycle_card_accent : string;
  breakdown : list (Z * string * string);
}.

(** The render of TripSummary; [None]: it threw. *)
Definition render (sch : schedule) : option summary :=
  match day_rows (days sch) with
  | Some rows =>
      Some {| drive_time := formatHrs (total_driving_hrs (stats sch));
              trip_duration := counted (trip_days (stats sch)) "day";
              fuel_stops_card := counted (fuel_stop_count (stats sch)) "stop";
              cycle_remaining := TripSummary.cycleRemaining sch;
              cycle_card_accent := cycle_accent sch;
              breakdown := rows |}
  | None => None
  end.

End TripSummaryCards.

(* ===================================================================== *)
(** ** Where the sheet is drawn: predicates on the canvas calls *)
(* ===================================================================== *)

Module SheetGeometry.
Import ELDLogs.

(** A remarks entry inside the remarks box: not left of the text margin,
    between the first text line and the last usable line, and not past the
    right margin unless it starts a line of its own. *)
Definition remark_in_box (measureText : string -> Q) (c : cmd) : Prop :=
  match c with
  | RemarkEntry _ label x y =>
      (inject_Z (M + 8) <= x)%Q
      /\ (inject_Z (REM_TOP + 28) <= y)%Q
      /\ (y <= inject_Z (REM_TOP + REM_H - 6))%Q
      /\ (x = inject_Z (M + 8)
          \/ (x + (measureText label + 22) <= inject_Z (CW - M - 8))%Q)
  | _ => True
  end.

(** The pen of the remarks loop never leaves the box to the left or above,
    and what has been written lies in the box. *)
Definition remarks_pen_ok (mt : string -> Q) (st : remarks_state) : Prop :=
  (inject_Z (M + 8) <= rx st)%Q
  /\ (inject_Z (REM_TOP + 28) <= ry st)%Q
  /\ Forall (remark_in_box mt) (entries st).

(** An abscissa between the left and the right edge of the grid. *)
Definition in_grid_x (x : JS.number) : Prop :=
  exists q, x = JS.Fin q
            /\ (inject_Z GRID_X <= q)%Q /\ (q <= inject_Z (GRID_X + GRID_W))%Q.

(** The middle height of one of the four rows. *)
Definition on_row_centre (y : JS.number) : Prop :=
  exists r, (0 <= r <= 3)%Z /\ y = cy_of_row (JS.VNum (JS.of_Z r)).

(** A stroke of the duty graph: in one of the four status colours, with both
    ends inside the grid at row-centre heights, horizontal or vertical. *)
Definition stroke_in_grid (c : cmd) : Prop :=
  match c with
  | StrokeLine style x1 y1 x2 y2 =>
      In style (map snd STATUS_COLOR)
      /\ in_grid_x x1 /\ in_grid_x x2
      /\ on_row_centre y1 /\ on_row_centre y2
      /\ (x1 = x2 \/ y1 = y2)
  | _ => True
  end.

(** The state of the activity loop on a contract timeline. *)
Definition graph_ok (st : activity_state) : Prop :=
  match prevRow st with
  | Some pr => exists r, (0 <= r <= 3)%Z /\ pr = JS.VNum (JS.of_Z r)
  | None => True
  end
  /\ match prevEndX st with
     | Some px => in_grid_x px
     | None => True
     end
  /\ Forall stroke_in_grid (strokes st).

(** The connectors a timeline needs: one for each segment whose status
    differs from the status before it ([prev]). *)
Fixpoint status_changes (prev : string) (tl : list Schedule.segment) : nat :=
  match tl with
  | [] => 0
  | s :: rest =>
      ((if String.eqb prev (Schedule.status s) then 0 else 1)
       + status_changes (Schedule.status s) rest)%nat
  end.

(** A segment of the output contract: one of the four statuses, inside the
    day. *)
Definition contract_segment (s : Schedule.segment) : Prop :=
  In (Schedule.status s) statusKeys
  /\ (0 <= Schedule.start s)%Q /\ (Schedule.start s <= 24)%Q
  /\ (0 <= Schedule.end_ s)%Q /\ (Schedule.end_ s <= 24)%Q.

End SheetGeometry.

(* ===================================================================== *)
(** ** Decimal digit strings, as [parseFloat] reads them *)
(* ===================================================================== *)

Module Digits.

(** Every character of [s] is a decimal digit. *)
Fixpoint all_digits (s : string) : bool :=
  match s with
  | String c s' => match JS.digit_of c with Some _ => all_digits s' | None => false end
  | EmptyString => true
  end.

(** The number read from the leading digits of [s], continuing from [acc]. *)
Fixpoint digits_value (s : string) (acc : N) : N :=
  match s with
  | String c s' =>
      match JS.digit_of c with
      | Some d => digits_value s' (acc * 10 + d)%N
      | None => acc
      end
  | EmptyString => acc
  end.

End Digits.

(* ===================================================================== *)
(** * Properties *)
(* ===================================================================== *)

(** ** Rounding to binary64: monotone, accurate to half an ulp *)

Section Binary64Facts.
Import JS.
Local Open Scope Q_scope.

Lemma pow2_pos (e : Z) : 0 < pow2 e.
Proof. apply Qpower_0_lt. reflexivity. Qed.

Lemma pow2_add (a b : Z) : pow2 (a + b) == pow2 a * pow2 b.
Proof. apply Qpower_plus. discriminate. Qed.

Lemma pow2_succ (a : Z) : pow2 (a + 1) == 2 * pow2 a.
Proof. rewrite pow2_add. change (pow2 1) with (2 # 1). ring. Qed.

Lemma pow2_le (a b : Z) : (a <= b)%Z -> pow2 a <= pow2 b.
Proof. intros H. apply Qpower_le_compat_l; [exact H | discriminate]. Qed.

Lemma pow2_lt (a b : Z) : (a < b)%Z -> pow2 a < pow2 b.
Proof. intros H. apply Qpower_lt_compat_l; [exact H | reflexivity]. Qed.

Lemma pow2_lt_inv (a b : Z) : pow2 a < pow2 b -> (a < b)%Z.
Proof. intros H. apply (Qpower_lt_compat_l_inv (2 # 1)); [exact H | reflexivity]. Qed.

Lemma pow2_Z (e : Z) : (0 <= e)%Z -> pow2 e == inject_Z (2 ^ e).
Proof. intros H. unfold pow2. rewrite Zpower_Qpower by exact H. reflexivity. Qed.

Lemma Z_log2_bounds (n : Z) :
  (0 < n)%Z ->
  pow2 (Z.log2 n) <= inject_Z n /\ inject_Z n < pow2 (Z.log2 n + 1).
Proof.
  intros H. destruct (Z.log2_spec n H) as [H1 H2].
  pose proof (Z.log2_nonneg n) as H0.
  rewrite !pow2_Z by lia. rewrite <- Zle_Qle, <- Zlt_Qlt.
  replace (Z.log2 n + 1)%Z with (Z.succ (Z.log2 n)) by lia. split; assumption.
Qed.

Lemma ilog2_spec (x : Q) :
  0 < x -> pow2 (ilog2 x) <= x /\ x < pow2 (ilog2 x + 1).
Proof.
  intros Hx. destruct x as [n d].
  assert (Hn : (0 < n)%Z).
  { unfold Qlt in Hx. simpl in Hx. lia. }
  unfold ilog2. cbn [Qnum Qden].
  set (a := Z.log2 n). set (b := Z.log2 (Z.pos d)).
  destruct (Z_log2_bounds n Hn) as [Ha1 Ha2]. fold a in Ha1, Ha2.
  destruct (Z_log2_bounds (Z.pos d) eq_refl) as [Hb1 Hb2]. fold b in Hb1, Hb2.
  assert (Hx' : (n # d) * inject_Z (Z.pos d) == inject_Z n).
  { unfold Qeq, Qmult, inject_Z. simpl. lia. }
  assert (Hd : 0 < inject_Z (Z.pos d)) by reflexivity.
  assert (Hab : pow2 a == pow2 (a - b) * pow2 b).
  { rewrite <- pow2_add. replace (a - b + b)%Z with a by lia. reflexivity. }
  rewrite pow2_succ in Ha2, Hb2.
  pose proof (pow2_pos (a - b)) as HE. pose proof (pow2_pos b) as HB.
  set (X := n # d) in *. set (D := inject_Z (Z.pos d)) in *.
  set (N := inject_Z n) in *.
  set (E := pow2 (a - b)) in *. set (B := pow2 b) in *. set (A := pow2 a) in *.
  destruct (Qle_bool E X) eqn:Hc.
  - apply Qle_bool_iff in Hc. split; [exact Hc | ].
    rewrite pow2_succ. fold E.
    apply Qnot_le_lt. intros Hge.
    assert (2 * E * D <= X * D) by (apply Qmult_le_compat_r; [exact Hge | lra]).
    assert (2 * E * B <= 2 * E * D) by (apply Qmult_le_l; lra).
    lra.
  - assert (Hlt : X < E).
    { apply Qnot_le_lt. intros Hle. apply Qle_bool_iff in Hle. congruence. }
    assert (E2 : pow2 (a - b - 1 + 1) == E).
    { replace (a - b - 1 + 1)%Z with (a - b)%Z by lia. reflexivity. }
    split; [ | rewrite E2; exact Hlt].
    assert (E3 : 2 * pow2 (a - b - 1) == E) by (rewrite <- pow2_succ; exact E2).
    apply Qnot_lt_le. intros Hlt2.
    assert (X * D < pow2 (a - b - 1) * D) by (apply Qmult_lt_compat_r; assumption).
    assert (pow2 (a - b - 1) * D < pow2 (a - b - 1) * (2 * B)).
    { apply Qmult_lt_l; [apply pow2_pos | lra]. }
    assert (pow2 (a - b - 1) * (2 * B) == E * B) by (rewrite <- E3; ring).
    lra.
Qed.

Lemma ilog2_unique (x : Q) (e : Z) :
  pow2 e <= x -> x < pow2 (e + 1) -> ilog2 x = e.
Proof.
  intros H1 H2.
  assert (Hx : 0 < x) by (pose proof (pow2_pos e); lra).
  destruct (ilog2_spec x Hx) as [H3 H4].
  assert (ilog2 x < e + 1)%Z by (apply pow2_lt_inv; lra).
  assert (e < ilog2 x + 1)%Z by (apply pow2_lt_inv; lra).
  lia.
Qed.

Lemma ilog2_comp (x y : Q) : 0 < x -> x == y -> ilog2 x = ilog2 y.
Proof.
  intros Hx E. destruct (ilog2_spec x Hx) as [H1 H2].
  symmetry. apply ilog2_unique; rewrite <- E; assumption.
Qed.

Lemma ilog2_mono (x y : Q) : 0 < x -> x <= y -> (ilog2 x <= ilog2 y)%Z.
Proof.
  intros Hx Hxy.
  destruct (ilog2_spec x Hx) as [H1 _].
  destruct (ilog2_spec y ltac:(lra)) as [_ H2].
  assert (ilog2 x < ilog2 y + 1)%Z by (apply pow2_lt_inv; lra).
  lia.
Qed.

Lemma ilog2_le (x : Q) (k : Z) : 0 < x -> x < pow2 (k + 1) -> (ilog2 x <= k)%Z.
Proof.
  intros Hx H. destruct (ilog2_spec x Hx) as [H1 _].
  assert (ilog2 x < k + 1)%Z by (apply pow2_lt_inv; lra).
  lia.
Qed.

(** *** Rounding to the nearest integer *)

Lemma rne_cases (q : Q) :
  rne q = Qfloor q \/ rne q = (Qfloor q + 1)%Z.
Proof.
  unfold rne. destruct (Qcompare _ _); [destruct (Z.even _) | | ]; auto.
Qed.

Lemma rne_bounds (q : Q) :
  inject_Z (rne q) - (1 # 2) <= q /\ q <= inject_Z (rne q) + (1 # 2).
Proof.
  pose proof (Qfloor_le q) as Hlo. pose proof (Qlt_floor q) as Hhi.
  rewrite inject_Z_plus in Hhi. change (inject_Z 1) with 1 in Hhi.
  unfold rne.
  destruct (Qcompare (q - inject_Z (Qfloor q)) (1 # 2)) eqn:Hc.
  - apply Qeq_alt in Hc.
    destruct (Z.even (Qfloor q)); [ | rewrite inject_Z_plus; change (inject_Z 1) with 1]; lra.
  - apply Qlt_alt in Hc. lra.
  - apply Qgt_alt in Hc. rewrite inject_Z_plus. change (inject_Z 1) with 1. lra.
Qed.

Lemma rne_comp (q q' : Q) : q == q' -> rne q = rne q'.
Proof.
  intros E. unfold rne. rewrite (Qfloor_comp _ _ E).
  assert (Ec : Qcompare (q - inject_Z (Qfloor q')) (1 # 2)
               = Qcompare (q' - inject_Z (Qfloor q')) (1 # 2)).
  { apply Qcompare_comp; [rewrite E; reflexivity | reflexivity]. }
  rewrite Ec. reflexivity.
Qed.

Lemma rne_mono (q q' : Q) : q <= q' -> (rne q <= rne q')%Z.
Proof.
  intros H.
  destruct (Z_le_gt_dec (rne q) (rne q')) as [Hle | Hgt]; [exact Hle | ].
  destruct (rne_bounds q) as [H1 _]. destruct (rne_bounds q') as [_ H2].
  assert (Hz : (rne q' + 1 <= rne q)%Z) by lia.
  rewrite Zle_Qle, inject_Z_plus in Hz. change (inject_Z 1) with 1 in Hz.
  assert (E : q == q') by lra.
  rewrite (rne_comp _ _ E). lia.
Qed.

Lemma rne_Z (z : Z) : rne (inject_Z z) = z.
Proof.
  unfold rne. rewrite Qfloor_Z.
  assert (E : Qcompare (inject_Z z - inject_Z z) (1 # 2) = Lt).
  { apply (proj1 (Qlt_alt _ _)). lra. }
  rewrite E. reflexivity.
Qed.

Lemma rne_Z_eq (q : Q) (z : Z) : q == inject_Z z -> rne q = z.
Proof. intros E. rewrite (rne_comp _ _ E). apply rne_Z. Qed.


(** *** Rounding a positive number to 53 bits *)

Lemma ulp_exp_comp (x y : Q) : 0 < x -> x == y -> ulp_exp x = ulp_exp y.
Proof. intros Hx E. unfold ulp_exp. rewrite (ilog2_comp x y Hx E). reflexivity. Qed.

Lemma ulp_exp_mono (x y : Q) : 0 < x -> x <= y -> (ulp_exp x <= ulp_exp y)%Z.
Proof. intros Hx H. unfold ulp_exp. pose proof (ilog2_mono x y Hx H). lia. Qed.

Lemma round_pos_comp (x y : Q) : 0 < x -> x == y -> round_pos x == round_pos y.
Proof.
  intros Hx E. unfold round_pos. rewrite <- (ulp_exp_comp x y Hx E).
  assert (E' : x / pow2 (ulp_exp x) == y / pow2 (ulp_exp x))
    by (apply Qmult_comp; [exact E | reflexivity]).
  rewrite (rne_comp _ _ E'). reflexivity.
Qed.

Lemma div_pow2 (x : Q) (e : Z) : x / pow2 e * pow2 e == x.
Proof. pose proof (pow2_pos e). field. lra. Qed.

Lemma round_pos_err (x : Q) :
  Qabs (round_pos x - x) <= pow2 (ulp_exp x - 1).
Proof.
  unfold round_pos. set (e := ulp_exp x).
  pose proof (pow2_pos e) as HP.
  destruct (rne_bounds (x / pow2 e)) as [H1 H2].
  pose proof (div_pow2 x e) as Hx.
  assert (HP2 : pow2 e == 2 * pow2 (e - 1)).
  { rewrite <- pow2_succ. replace (e - 1 + 1)%Z with e by lia. reflexivity. }
  set (m := inject_Z (rne (x / pow2 e))) in *. set (q := x / pow2 e) in *.
  set (P := pow2 e) in *.
  assert (Hlo : (m - (1 # 2)) * P <= q * P) by (apply Qmult_le_compat_r; lra).
  assert (Hhi : q * P <= (m + (1 # 2)) * P) by (apply Qmult_le_compat_r; lra).
  apply Qabs_Qle_condition. split; lra.
Qed.

(** A bound that lies on the grid of [x] is kept by the rounding. *)
Lemma round_pos_le_grid (x : Q) (k : Z) :
  x <= inject_Z k * pow2 (ulp_exp x) ->
  round_pos x <= inject_Z k * pow2 (ulp_exp x).
Proof.
  intros H. unfold round_pos. set (e := ulp_exp x) in *.
  pose proof (pow2_pos e) as HP.
  apply Qmult_le_compat_r; [ | lra].
  rewrite <- Zle_Qle. rewrite <- (rne_Z k). apply rne_mono.
  apply Qle_shift_div_r; assumption.
Qed.

Lemma round_pos_ge_grid (x : Q) (k : Z) :
  inject_Z k * pow2 (ulp_exp x) <= x ->
  inject_Z k * pow2 (ulp_exp x) <= round_pos x.
Proof.
  intros H. unfold round_pos. set (e := ulp_exp x) in *.
  pose proof (pow2_pos e) as HP.
  apply Qmult_le_compat_r; [ | lra].
  rewrite <- Zle_Qle. rewrite <- (rne_Z k) at 1. apply rne_mono.
  apply Qle_shift_div_l; assumption.
Qed.

Lemma pow2_on_grid (K e : Z) :
  (e <= K)%Z -> pow2 K == inject_Z (2 ^ (K - e)) * pow2 e.
Proof.
  intros H. rewrite <- pow2_Z by lia. rewrite <- pow2_add.
  replace (K - e + e)%Z with K by lia. reflexivity.
Qed.

Lemma round_pos_le_pow2 (x : Q) (K : Z) :
  x <= pow2 K -> (ulp_exp x <= K)%Z -> round_pos x <= pow2 K.
Proof.
  intros H He. rewrite (pow2_on_grid K (ulp_exp x) He) in *.
  apply round_pos_le_grid, H.
Qed.

Lemma round_pos_ge_pow2 (x : Q) (K : Z) :
  pow2 K <= x -> (ulp_exp x <= K)%Z -> pow2 K <= round_pos x.
Proof.
  intros H He. rewrite (pow2_on_grid K (ulp_exp x) He) in *.
  apply round_pos_ge_grid, H.
Qed.

Lemma round_pos_nonneg (x : Q) : 0 <= x -> 0 <= round_pos x.
Proof.
  intros H.
  assert (E : 0 == inject_Z 0 * pow2 (ulp_exp x)) by (change (inject_Z 0) with 0; ring).
  rewrite E at 1. apply round_pos_ge_grid. rewrite <- E. exact H.
Qed.

Lemma round_pos_mono (x y : Q) :
  0 < x -> x <= y -> round_pos x <= round_pos y.
Proof.
  intros Hx Hxy.
  assert (Hy : 0 < y) by lra.
  pose proof (ulp_exp_mono x y Hx Hxy) as He.
  destruct (Z.eq_dec (ulp_exp x) (ulp_exp y)) as [E | NE].
  - unfold round_pos. rewrite <- E. set (e := ulp_exp x).
    pose proof (pow2_pos e) as HP.
    apply Qmult_le_compat_r; [ | lra].
    rewrite <- Zle_Qle. apply rne_mono.
    apply Qmult_le_compat_r; [exact Hxy | ].
    apply Qlt_le_weak, Qinv_lt_0_compat, HP.
  - assert (Hlt : (ulp_exp x < ulp_exp y)%Z) by lia.
    destruct (ilog2_spec x Hx) as [_ Hx2]. destruct (ilog2_spec y Hy) as [Hy1 _].
    assert (Hey : ulp_exp y = (ilog2 y - 52)%Z) by (unfold ulp_exp in *; lia).
    assert (Hex : (ilog2 x - 52 <= ulp_exp x)%Z) by (unfold ulp_exp; lia).
    set (K := Z.max (ilog2 x + 1) (ulp_exp x)).
    apply Qle_trans with (pow2 K).
    + apply round_pos_le_pow2; [ | lia].
      apply Qle_trans with (pow2 (ilog2 x + 1)); [lra | apply pow2_le; lia].
    + apply Qle_trans with (pow2 (ilog2 y)); [apply pow2_le; lia | ].
      apply round_pos_ge_pow2; [exact Hy1 | lia].
Qed.

(** *** round64_Q *)

Lemma round64_Q_pos (x : Q) : 0 < x -> round64_Q x == round_pos x.
Proof.
  intros H. unfold round64_Q.
  apply (proj1 (Qgt_alt _ _)) in H. rewrite H. apply Qred_correct.
Qed.

Lemma round64_Q_neg (x : Q) : x < 0 -> round64_Q x == - round_pos (- x).
Proof.
  intros H. unfold round64_Q.
  apply (proj1 (Qlt_alt _ _)) in H. rewrite H. apply Qred_correct.
Qed.

Lemma round64_Q_zero (x : Q) : x == 0 -> round64_Q x = 0.
Proof.
  intros H. unfold round64_Q.
  apply (proj1 (Qeq_alt _ _)) in H. rewrite H. reflexivity.
Qed.

Lemma round64_Q_opp (x : Q) : round64_Q (- x) == - round64_Q x.
Proof.
  destruct (Q_dec x 0) as [[H | H] | H].
  - rewrite (round64_Q_neg x H), (round64_Q_pos (- x)) by lra. ring.
  - rewrite (round64_Q_pos x H), (round64_Q_neg (- x)) by lra.
    rewrite (round_pos_comp (- - x) x) by (try lra; ring). reflexivity.
  - rewrite (round64_Q_zero x H), (round64_Q_zero (- x)) by lra. reflexivity.
Qed.

Lemma round64_Q_comp (x y : Q) : x == y -> round64_Q x = round64_Q y.
Proof.
  intros E. unfold round64_Q.
  assert (Ec : Qcompare x 0 = Qcompare y 0) by (apply Qcompare_comp; [exact E | reflexivity]).
  rewrite <- Ec. destruct (Qcompare x 0) eqn:Hc.
  - reflexivity.
  - apply Qlt_alt in Hc. apply Qred_complete.
    rewrite (round_pos_comp (- x) (- y)) by (try lra; rewrite E; reflexivity).
    reflexivity.
  - apply Qgt_alt in Hc. apply Qred_complete.
    apply round_pos_comp; [lra | exact E].
Qed.

Lemma round64_Q_nonneg (x : Q) : 0 <= x -> 0 <= round64_Q x.
Proof.
  intros H. destruct (Qle_lt_or_eq _ _ H) as [Hlt | Heq].
  - rewrite (round64_Q_pos x Hlt). apply round_pos_nonneg, H.
  - rewrite (round64_Q_zero x) by (symmetry; exact Heq). apply Qle_refl.
Qed.

Lemma round64_Q_nonpos (x : Q) : x <= 0 -> round64_Q x <= 0.
Proof.
  intros H. pose proof (round64_Q_nonneg (- x) ltac:(lra)) as Hn.
  rewrite round64_Q_opp in Hn. lra.
Qed.

(** Rounding is monotone. *)
Lemma round64_Q_mono (x y : Q) : x <= y -> round64_Q x <= round64_Q y.
Proof.
  intros Hxy.
  destruct (Qlt_le_dec 0 x) as [Hx | Hx].
  - rewrite (round64_Q_pos x Hx), (round64_Q_pos y) by lra.
    apply round_pos_mono; assumption.
  - destruct (Qlt_le_dec y 0) as [Hy | Hy].
    + assert (Hx' : x < 0) by lra.
      rewrite (round64_Q_neg x Hx'), (round64_Q_neg y Hy).
      pose proof (round_pos_mono (- y) (- x) ltac:(lra) ltac:(lra)). lra.
    + pose proof (round64_Q_nonpos x Hx). pose proof (round64_Q_nonneg y Hy). lra.
Qed.

(** The rounding error is at most half a unit in the last place. *)
Lemma round64_Q_err (x : Q) (k : Z) :
  Qabs x <= pow2 k -> (-1022 <= k)%Z ->
  Qabs (round64_Q x - x) <= pow2 (k - 53).
Proof.
  intros Hx Hk.
  assert (Hpos : forall y, 0 < y -> y <= pow2 k ->
                           Qabs (round_pos y - y) <= pow2 (k - 53)).
  { intros y Hy Hyk.
    apply Qle_trans with (pow2 (ulp_exp y - 1)); [apply round_pos_err | ].
    apply pow2_le.
    assert (ilog2 y <= k)%Z.
    { apply ilog2_le; [exact Hy | ]. pose proof (pow2_lt k (k + 1) ltac:(lia)). lra. }
    unfold ulp_exp. lia. }
  destruct (Q_dec x 0) as [[H | H] | H].
  - rewrite (round64_Q_neg x H).
    assert (Hx' : - x <= pow2 k).
    { rewrite Qabs_neg in Hx by lra. exact Hx. }
    pose proof (Hpos (- x) ltac:(lra) Hx') as Hb.
    apply Qabs_Qle_condition in Hb. apply Qabs_Qle_condition. split; lra.
  - rewrite (round64_Q_pos x H).
    apply Hpos; [exact H | ]. rewrite Qabs_pos in Hx by lra. exact Hx.
  - rewrite (round64_Q_zero x H).
    pose proof (pow2_pos (k - 53)).
    apply Qabs_Qle_condition. split; lra.
Qed.

(** Numbers that are already on the grid are not changed. *)
Lemma round64_Q_grid (x : Q) (k : Z) :
  0 < x -> x == inject_Z k * pow2 (ulp_exp x) -> round64_Q x == x.
Proof.
  intros Hx E. rewrite (round64_Q_pos x Hx).
  apply Qle_antisym.
  - rewrite E at 2. apply round_pos_le_grid. rewrite <- E. apply Qle_refl.
  - rewrite E at 1. apply round_pos_ge_grid. rewrite <- E. apply Qle_refl.
Qed.

Lemma Qred_inject_Z (z : Z) : Qred (inject_Z z) = inject_Z z.
Proof.
  unfold Qred, inject_Z.
  pose proof (Z.ggcd_gcd z 1) as Hg. pose proof (Z.ggcd_correct_divisors z 1) as Hd.
  destruct (Z.ggcd z 1) as [g [a b]]. simpl in Hg.
  rewrite Z.gcd_1_r in Hg. subst g. destruct Hd as [Ha Hb].
  rewrite Z.mul_1_l in Ha, Hb. subst z b. reflexivity.
Qed.

Lemma round64_Q_red (x : Q) : Qred (round64_Q x) = round64_Q x.
Proof.
  unfold round64_Q. destruct (Qcompare x 0); [reflexivity | | ];
    apply Qred_complete, Qred_correct.
Qed.

(** Integers up to [2^53] are binary64 numbers. *)
Lemma round64_Q_Z (z : Z) :
  (Z.abs z <= 2 ^ 53)%Z -> round64_Q (inject_Z z) = inject_Z z.
Proof.
  assert (Hpos : forall n, (0 < n <= 2 ^ 53)%Z -> round64_Q (inject_Z n) == inject_Z n).
  { intros n [Hn0 Hn].
    assert (Hq : 0 < inject_Z n) by (change 0 with (inject_Z 0); rewrite <- Zlt_Qlt; exact Hn0).
    destruct (ilog2_spec (inject_Z n) Hq) as [H1 H2].
    assert (Hle : (ilog2 (inject_Z n) <= 53)%Z).
    { apply ilog2_le; [exact Hq | ].
      rewrite pow2_Z by lia. rewrite <- Zlt_Qlt. lia. }
    destruct (Z.eq_dec (ilog2 (inject_Z n)) 53%Z) as [E53 | NE].
    - assert (En : n = (2 ^ 53)%Z).
      { rewrite E53, pow2_Z in H1 by lia. rewrite <- Zle_Qle in H1. lia. }
      apply (round64_Q_grid _ (2 ^ 52)); [exact Hq | ].
      unfold ulp_exp. rewrite E53. subst n. vm_compute. reflexivity.
    - assert (Hu : (ulp_exp (inject_Z n) <= 0)%Z) by (unfold ulp_exp; lia).
      apply (round64_Q_grid _ (n * 2 ^ (- ulp_exp (inject_Z n)))); [exact Hq | ].
      rewrite inject_Z_mult, <- pow2_Z by lia.
      rewrite <- Qmult_assoc, <- pow2_add.
      replace (- ulp_exp (inject_Z n) + ulp_exp (inject_Z n))%Z with 0%Z by lia.
      change (pow2 0) with 1. ring. }
  intros Hz.
  transitivity (Qred (inject_Z z)); [ | apply Qred_inject_Z].
  rewrite <- round64_Q_red. apply Qred_complete.
  destruct (Z.lt_trichotomy z 0) as [H | [-> | H]].
  - assert (E : inject_Z z == - inject_Z (- z)) by (rewrite inject_Z_opp; ring).
    rewrite (round64_Q_comp _ _ E), round64_Q_opp, (Hpos (- z)%Z) by lia.
    symmetry. exact E.
  - reflexivity.
  - apply Hpos. lia.
Qed.

Lemma round64_Q_pow2 (K : Z) : (-1074 <= K)%Z -> round64_Q (pow2 K) == pow2 K.
Proof.
  intros HK. pose proof (pow2_pos K) as HP.
  assert (Hi : ilog2 (pow2 K) = K).
  { apply ilog2_unique; [apply Qle_refl | apply pow2_lt; lia]. }
  assert (Hu : (ulp_exp (pow2 K) <= K)%Z) by (unfold ulp_exp; rewrite Hi; lia).
  apply (round64_Q_grid _ (2 ^ (K - ulp_exp (pow2 K)))); [exact HP | ].
  apply pow2_on_grid, Hu.
Qed.

(** *** round64: the result as a number *)

Lemma round64_comp (x y : Q) : x == y -> round64 x = round64 y.
Proof. intros E. unfold round64. rewrite (round64_Q_comp x y E). reflexivity. Qed.

(** Below [2^1023] in magnitude nothing overflows, and the error is at most
    half a unit in the last place of the bound. *)
Lemma round64_bounded (x : Q) (k : Z) :
  Qabs x <= pow2 k -> (-1022 <= k <= 1023)%Z ->
  round64 x = Fin (round64_Q x)
  /\ Qabs (round64_Q x) <= pow2 k
  /\ Qabs (round64_Q x - x) <= pow2 (k - 53).
Proof.
  intros Hx Hk.
  assert (Hb : Qabs (round64_Q x) <= pow2 k).
  { apply Qabs_Qle_condition in Hx. destruct Hx as [Hlo Hhi].
    apply Qabs_Qle_condition. split.
    - pose proof (round64_Q_mono _ _ Hlo) as H.
      rewrite round64_Q_opp, round64_Q_pow2 in H by lia. exact H.
    - pose proof (round64_Q_mono _ _ Hhi) as H.
      rewrite round64_Q_pow2 in H by lia. exact H. }
  split; [ | split; [exact Hb | apply round64_Q_err; [exact Hx | lia]]].
  pose proof (pow2_lt k 1024 ltac:(lia)) as Hlt.
  apply Qabs_Qle_condition in Hb. destruct Hb as [Hlo Hhi].
  unfold round64.
  destruct (Qle_bool (pow2 1024) (round64_Q x)) eqn:E1.
  { apply Qle_bool_iff in E1. lra. }
  destruct (Qle_bool (round64_Q x) (- pow2 1024)) eqn:E2.
  { apply Qle_bool_iff in E2. lra. }
  reflexivity.
Qed.

Lemma round64_cases (x : Q) :
  round64 x = Fin (round64_Q x)
  \/ (round64 x = PInf /\ pow2 1024 <= round64_Q x)
  \/ (round64 x = NInf /\ round64_Q x <= - pow2 1024).
Proof.
  unfold round64.
  destruct (Qle_bool (pow2 1024) (round64_Q x)) eqn:E1.
  { apply Qle_bool_iff in E1. right. left. split; [reflexivity | exact E1]. }
  destruct (Qle_bool (round64_Q x) (- pow2 1024)) eqn:E2.
  { apply Qle_bool_iff in E2. right. right. split; [reflexivity | exact E2]. }
  left. reflexivity.
Qed.

(** A non-negative number rounds to a non-negative number or to +Infinity. *)
Lemma round64_nonneg (x : Q) :
  0 <= x ->
  round64 x = PInf \/ (round64 x = Fin (round64_Q x) /\ 0 <= round64_Q x).
Proof.
  intros H. pose proof (round64_Q_nonneg x H) as Hr.
  destruct (round64_cases x) as [E | [[E _] | [_ Hn]]].
  - right. split; assumption.
  - left. exact E.
  - pose proof (pow2_pos 1024). lra.
Qed.

Lemma round64_Z (z : Z) :
  (Z.abs z <= 2 ^ 53)%Z -> round64 (inject_Z z) = Fin (inject_Z z).
Proof.
  intros Hz.
  assert (Hx : Qabs (inject_Z z) <= pow2 53).
  { rewrite pow2_Z by lia. apply Qabs_Qle_condition.
    rewrite <- inject_Z_opp, <- !Zle_Qle. lia. }
  destruct (round64_bounded _ 53 Hx ltac:(lia)) as (E & _ & _).
  rewrite E, (round64_Q_Z z Hz). reflexivity.
Qed.

Lemma round64_Q_le_Z (x : Q) (b : Z) :
  x <= inject_Z b -> (Z.abs b <= 2 ^ 53)%Z -> round64_Q x <= inject_Z b.
Proof.
  intros H Hb. apply Qle_trans with (round64_Q (inject_Z b)).
  - apply round64_Q_mono, H.
  - rewrite (round64_Q_Z b Hb). apply Qle_refl.
Qed.

Lemma round64_Q_ge_Z (x : Q) (a : Z) :
  inject_Z a <= x -> (Z.abs a <= 2 ^ 53)%Z -> inject_Z a <= round64_Q x.
Proof.
  intros H Ha. apply Qle_trans with (round64_Q (inject_Z a)).
  - rewrite (round64_Q_Z a Ha). apply Qle_refl.
  - apply round64_Q_mono, H.
Qed.

(** Rounding keeps a number between two integers that are binary64
    numbers themselves. *)
Lemma round64_between (x : Q) (a b : Z) :
  inject_Z a <= x <= inject_Z b ->
  (Z.abs a <= 2 ^ 53)%Z -> (Z.abs b <= 2 ^ 53)%Z ->
  round64 x = Fin (round64_Q x)
  /\ inject_Z a <= round64_Q x <= inject_Z b.
Proof.
  intros [Hlo Hhi] Ha Hb.
  assert (Hr : inject_Z a <= round64_Q x <= inject_Z b).
  { split.
    - rewrite <- (round64_Q_Z a Ha). apply round64_Q_mono, Hlo.
    - rewrite <- (round64_Q_Z b Hb). apply round64_Q_mono, Hhi. }
  split; [ | exact Hr].
  assert (Hx : Qabs x <= pow2 53).
  { rewrite pow2_Z by lia. apply Qabs_Qle_condition.
    assert (inject_Z (- 2 ^ 53) <= inject_Z a) by (rewrite <- Zle_Qle; lia).
    assert (inject_Z b <= inject_Z (2 ^ 53)) by (rewrite <- Zle_Qle; lia).
    rewrite <- inject_Z_opp. split; lra. }
  exact (proj1 (round64_bounded x 53 Hx ltac:(lia))).
Qed.

End Binary64Facts.

Lemma parseFloat_unfold (s : string) :
  JS.parseFloat s = fst (JS.parse_signed (JS.trimStart s)).
Proof. reflexivity. Qed.

(** From here on the rounding is used through the lemmas above and by
    evaluation of closed terms. *)
Opaque JS.round64_Q JS.round64 JS.parseFloat.

Section MinuteFacts.
Local Open Scope Q_scope.

Lemma Qfloor_unique (x : Q) (z : Z) :
  inject_Z z <= x -> x < inject_Z (z + 1) -> Qfloor x = z.
Proof.
  intros Hlo Hhi.
  pose proof (Qfloor_le x) as H1. pose proof (Qlt_floor x) as H2.
  assert (Ha : (z < Qfloor x + 1)%Z).
  { rewrite Zlt_Qlt. eapply Qle_lt_trans; [exact Hlo | exact H2]. }
  assert (Hb : (Qfloor x < z + 1)%Z).
  { rewrite Zlt_Qlt. eapply Qle_lt_trans; [exact H1 | exact Hhi]. }
  lia.
Qed.

(** [Math.round((t - Math.floor(t)) * 60)], as [fmtHr] and [formatHrs]
    compute the minutes: the two rounded operations give a number [p] in
    [0, 60] within [2^-46] of the exact minutes, and the result is
    [floor (p + 1/2)]. *)
Lemma rounded_minutes (t : Q) :
  let p := JS.round64_Q (JS.round64_Q (t - inject_Z (Qfloor t)) * 60) in
  JS.Math_round (JS.mul (JS.sub (JS.Fin t) (JS.of_Z (Qfloor t))) (JS.of_Z 60))
  = JS.of_Z (Qfloor (p + (1 # 2)))
  /\ 0 <= p <= 60
  /\ Qabs (p - 60 * (t - inject_Z (Qfloor t))) <= JS.pow2 (-46).
Proof.
  pose proof (Qfloor_le t) as Hlo. pose proof (Qlt_floor t) as Hhi.
  rewrite inject_Z_plus in Hhi. change (inject_Z 1) with 1 in Hhi.
  set (f := t - inject_Z (Qfloor t)) in *.
  assert (Hf : 0 <= f < 1) by (subst f; lra).
  assert (Hf1 : Qabs f <= JS.pow2 0).
  { change (JS.pow2 0) with 1. apply Qabs_Qle_condition. split; lra. }
  destruct (round64_bounded f 0 Hf1 ltac:(lia)) as (E1 & B1 & Err1).
  change (JS.pow2 0) with 1 in B1.
  pose proof (round64_Q_nonneg f ltac:(lra)) as P1.
  set (r := JS.round64_Q f) in *.
  apply Qabs_Qle_condition in B1. apply Qabs_Qle_condition in Err1.
  assert (Hx : Qabs (r * 60) <= JS.pow2 6).
  { change (JS.pow2 6) with 64. apply Qabs_Qle_condition. split; lra. }
  destruct (round64_bounded (r * 60) 6 Hx ltac:(lia)) as (E2 & _ & Err2).
  pose proof (round64_Q_nonneg (r * 60) ltac:(lra)) as P2.
  assert (P3 : JS.round64_Q (r * 60) <= 60).
  { change 60 with (inject_Z 60) at 2. rewrite <- (round64_Q_Z 60) by (vm_compute; discriminate).
    apply round64_Q_mono. change (inject_Z 60) with 60. lra. }
  intros p. subst p. set (p := JS.round64_Q (r * 60)) in *.
  apply Qabs_Qle_condition in Err2.
  assert (HE : 60 * JS.pow2 (0 - 53) + JS.pow2 (6 - 53) <= JS.pow2 (-46))
    by (vm_compute; discriminate).
  set (e1 := JS.pow2 (0 - 53)) in *. set (e2 := JS.pow2 (6 - 53)) in *.
  split; [ | split; [split; assumption | apply Qabs_Qle_condition; split; lra]].
  unfold JS.sub, JS.of_Z. cbn [JS.neg JS.add]. fold f.
  change (t + - inject_Z (Qfloor t)) with f.
  rewrite E1. fold r. cbn [JS.mul].
  change (inject_Z 60) with 60. rewrite E2. reflexivity.
Qed.

(** The minutes shown are between 0 and 60 and within half a minute (and
    [2^-46]) of the exact ones. *)
Lemma rounded_minutes_range (t : Q) :
  let m := Qfloor (JS.round64_Q (JS.round64_Q (t - inject_Z (Qfloor t)) * 60)
                   + (1 # 2)) in
  (0 <= m <= 60)%Z
  /\ Qabs (inject_Z m - 60 * (t - inject_Z (Qfloor t))) <= (1 # 2) + JS.pow2 (-46).
Proof.
  destruct (rounded_minutes t) as (_ & [H0 H60] & Herr).
  set (p := JS.round64_Q (JS.round64_Q (t - inject_Z (Qfloor t)) * 60)) in *.
  intros m. subst m.
  pose proof (Qfloor_le (p + (1 # 2))) as Hlo.
  pose proof (Qlt_floor (p + (1 # 2))) as Hhi.
  rewrite inject_Z_plus in Hhi. change (inject_Z 1) with 1 in Hhi.
  split.
  - split.
    + change 0%Z with (Qfloor 0). apply Qfloor_resp_le. lra.
    + assert (Qfloor (p + (1 # 2)) < 61)%Z; [ | lia].
      rewrite Zlt_Qlt. change (inject_Z 61) with 61. lra.
  - apply Qabs_Qle_condition in Herr. apply Qabs_Qle_condition. split; lra.
Qed.

End MinuteFacts.

(** ** The binary64 numbers are the fixed points of the rounding *)

Section Binary64Values.
Local Open Scope Q_scope.









End Binary64Values.

(** ** Sanity checks of the JavaScript primitives *)

(** Decimal texts are read as the nearest binary64 number. *)
Example parseFloat_just_above_70 :
  JS.parseFloat "70.00000000000000001" = JS.Fin (70 # 1).
Proof. vm_compute. reflexivity. Qed.
Example parseFloat_underflow : JS.parseFloat "-1e-400" = JS.Fin 0.
Proof. vm_compute. reflexivity. Qed.
Example parseFloat_overflow : JS.parseFloat "1e400" = JS.PInf.
Proof. vm_compute. reflexivity. Qed.
Example parseFloat_tenth :
  JS.parseFloat "0.1" = JS.Fin (3602879701896397 # 36028797018963968).
Proof. vm_compute. reflexivity. Qed.
Example parseFloat_pre : JS.num_eq (JS.parseFloat "  -12.50e1abc") (JS.Fin (-125 # 1)).
Proof. vm_compute. reflexivity. Qed.
Example parseFloat_dot : JS.parseFloat "." = JS.NaN.
Proof. reflexivity. Qed.
Example parseFloat_5dot : JS.num_eq (JS.parseFloat "5.") (JS.Fin 5).
Proof. vm_compute. reflexivity. Qed.
Example parseFloat_dot5 : JS.num_eq (JS.parseFloat ".5e") (JS.Fin (1 # 2)).
Proof. vm_compute. reflexivity. Qed.
Example parseFloat_inf : JS.parseFloat "-Infinityx" = JS.NInf.
Proof. reflexivity. Qed.
Example toFixed_ex1 : JS.toFixed 2 (JS.Fin (545 # 100)) = "5.45".
Proof. reflexivity. Qed.
Example toFixed_ex2 : JS.toFixed 2 (JS.Fin (-1 # 1000)) = "-0.00".
Proof. reflexivity. Qed.
Example toFixed_ex3 : JS.toFixed 1 (JS.Fin (1234567 # 1000)) = "1234.6".
Proof. reflexivity. Qed.
Example toFixed_ex4 : JS.toFixed 0 (JS.Fin (5 # 2)) = "3".
Proof. reflexivity. Qed.
Example trim_ex : JS.trim "  a b  " = "a b".
Proof. reflexivity. Qed.

(* ===================================================================== *)
(** ** TripForm: when the request is sent *)
(* ===================================================================== *)

Section TripFormProperties.
Import TripForm.

Lemma truthy_str_nonempty (s : string) :
  JS.truthy_str s = true <-> s <> "".
Proof. destruct s; simpl; split; congruence. Qed.








(** Texts are read as binary64 numbers: "70.00000000000000001" is 70 and
    "-1e-400" is zero, so both are accepted and sent; "70.1" is not. *)
Example submit_just_above_70 :
  option_map req_cycle_hours_used
    (snd (handleSubmit (form_with "A" "B" "C" "70.00000000000000001" "" "" ∅)))
  = Some (JS.Fin 70).
Proof. vm_compute. reflexivity. Qed.

Example submit_underflow :
  option_map req_cycle_hours_used
    (snd (handleSubmit (form_with "A" "B" "C" "-1e-400" "" "" ∅)))
  = Some (JS.Fin 0).
Proof. vm_compute. reflexivity. Qed.

Example submit_70_1 :
  snd (handleSubmit (form_with "A" "B" "C" "70.1" "" "" ∅)) = None.
Proof. vm_compute. reflexivity. Qed.

End TripFormProperties.

(* ===================================================================== *)
(** ** ELDLogs: the clock string of [fmtHr] *)
(* ===================================================================== *)

Section FmtHrProperties.
Import ELDLogs.

Lemma fmtHr_h_range (t : Q) :
  (0 <= t < 24)%Q -> (0 <= fmtHr_h t <= 23)%Z.
Proof.
  intros [H0 H24]. unfold fmtHr_h. split.
  - change 0%Z with (Qfloor 0). apply Qfloor_resp_le. exact H0.
  - assert (Qfloor t < 24)%Z; [ | lia].
    rewrite Zlt_Qlt. apply Qle_lt_trans with t; [apply Qfloor_le | exact H24].
Qed.

(** The hour and the period are those of a 12-hour clock. *)
Lemma fmtHr_hour_period (t : Q) :
  (0 <= t < 24)%Q ->
  let h := Qfloor t in
  fmtHr_dh t = (if (h =? 0)%Z then 12 else if (h <=? 12)%Z then h else h - 12)%Z
  /\ (1 <= fmtHr_dh t <= 12)%Z
  /\ fmtHr_period t = (if (h <? 12)%Z then "AM" else "PM").
Proof.
  intros Ht h. pose proof (fmtHr_h_range t Ht) as Hh.
  unfold fmtHr_dh, fmtHr_period, fmtHr_h in *. fold h in Hh |- *.
  destruct (Z.eqb_spec h 0); destruct (Z.leb_spec h 12); destruct (Z.gtb_spec h 12);
    repeat split; try lia; reflexivity.
Qed.

(** The minutes are between 0 and 60, both included. *)
Lemma fmtHr_m_range (t : Q) : (0 <= fmtHr_m t <= 60)%Z.
Proof. exact (proj1 (rounded_minutes_range t)). Qed.

(** C10 (fails on the code). At the hour 127/128 = 0.9921875, inside [0, 24),
    the minute component computed by [fmtHr] is 60 and the string returned
    is "12:60 AM": the minutes are rounded up to a full hour without a
    carry, so they do not always lie in [0, 59]. *)
Theorem C10_fmtHr_minute_reaches_60 :
  (0 <= 127 # 128 < 24)%Q
  /\ fmtHr_m (127 # 128) = 60%Z
  /\ fmtHr (127 # 128) = "12:60 AM".
Proof.
  split; [split; reflexivity || (unfold Qle, Qlt; simpl; lia) | ].
  split; vm_compute; reflexivity.
Qed.

End FmtHrProperties.

(* ===================================================================== *)
(** ** RouteMap: the position of a stop marker *)
(* ===================================================================== *)

Section RouteMapProperties.
Import Schedule RouteMap.

Lemma div_NaN_l (b : JS.number) : JS.div JS.NaN b = JS.NaN.
Proof. destruct b; reflexivity. Qed.

(** C2 (fails on the code). A rest stop with the fields of the output
    contract only ([day] and [time_str], no [miles_in]) gets the polyline
    index NaN on every route, and its marker is created on undefined. *)
Theorem C2_rest_stop_index_is_NaN (r : route) (s : stop) :
  miles_in s = None ->
  stop_index r s = JS.NaN
  /\ position (stop_marker RestBreak r s) = None.
Proof.
  intros H.
  assert (Hidx : stop_index r s = JS.NaN).
  { unfold stop_index, miles_in_get. rewrite H.
    change (JS.ToNumber JS.VUndef) with JS.NaN.
    rewrite div_NaN_l. reflexivity. }
  split; [exact Hidx | ].
  unfold stop_marker. simpl. rewrite Hidx. reflexivity.
Qed.

Lemma C2_rest_stop_index_is_NaN_witness :
  let r := {| geometry := [(0, 0); (1, 1)]%Q; distance_mi := 855 |} in
  let s := {| stop_day := 1; time_str := "08:00 AM"; miles_in := None |} in
  miles_in s = None
  /\ stop_index r s = JS.NaN
  /\ position (stop_marker RestBreak r s) = None.
Proof.
  split; [reflexivity | ].
  apply (C2_rest_stop_index_is_NaN
           {| geometry := [(0, 0); (1, 1)]%Q; distance_mi := 855 |}
           {| stop_day := 1; time_str := "08:00 AM"; miles_in := None |}).
  reflexivity.
Defined.

End RouteMapProperties.

(* ===================================================================== *)
(** ** Number formatting respects equality of rationals *)
(* ===================================================================== *)

Section NumberFacts.

Lemma Qltb_lt (x y : Q) : JS.Qltb x y = true <-> (x < y)%Q.
Proof.
  unfold JS.Qltb. destruct (Qlt_le_dec x y); split; intros; try lra; try discriminate; reflexivity.
Qed.

Lemma Qltb_ge (x y : Q) : JS.Qltb x y = false <-> (y <= x)%Q.
Proof.
  unfold JS.Qltb. destruct (Qlt_le_dec x y); split; intros; try lra; try discriminate; reflexivity.
Qed.

Lemma Qltb_compat (x x' y y' : Q) :
  (x == x')%Q -> (y == y')%Q -> JS.Qltb x y = JS.Qltb x' y'.
Proof.
  intros Hx Hy. destruct (JS.Qltb x' y') eqn:E.
  - apply Qltb_lt. apply Qltb_lt in E. lra.
  - apply Qltb_ge. apply Qltb_ge in E. lra.
Qed.

Lemma scaled_round_compat (f : nat) (x y : Q) :
  (x == y)%Q -> JS.scaled_round f x = JS.scaled_round f y.
Proof.
  intros H. unfold JS.scaled_round. apply Qfloor_comp. rewrite H. reflexivity.
Qed.

Lemma toFixedQ_compat (f : nat) (x y : Q) :
  (x == y)%Q -> JS.toFixedQ f x = JS.toFixedQ f y.
Proof.
  intros H. unfold JS.toFixedQ.
  rewrite (Qltb_compat x y 0 0 H (Qeq_refl 0)).
  rewrite (scaled_round_compat f (Qabs x) (Qabs y)); [reflexivity | ].
  rewrite H. reflexivity.
Qed.

Lemma toFixed_compat (f : nat) (a b : JS.number) :
  JS.num_eq a b -> JS.toFixed f a = JS.toFixed f b.
Proof.
  destruct a, b; simpl; try contradiction; try reflexivity.
  apply toFixedQ_compat.
Qed.

(** [Math.max(0, x)] is never below 0, whatever [x] is. *)
Lemma Math_max_0_not_negative (a : JS.number) :
  JS.lt (JS.Math_max (JS.of_Z 0) a) (JS.of_Z 0) = false.
Proof.
  destruct a as [ | | | x]; try reflexivity.
  unfold JS.Math_max, JS.of_Z. simpl.
  destruct (JS.Qltb (inject_Z 0) x) eqn:E; simpl.
  - apply Qltb_ge. apply Qltb_lt in E. lra.
  - reflexivity.
Qed.


End NumberFacts.

(* ===================================================================== *)
(** ** TripSummary: cycle hours remaining *)
(* ===================================================================== *)

Section TripSummaryProperties.
Import Schedule TripSummary Stated.

Lemma totals_get_hours (d : day) (k : string) :
  is_Some (totals d !! k) ->
  JS.ToNumber (totals_get d k) = JS.Fin (hours d k).
Proof.
  intros [q Hq]. unfold totals_get, hours. rewrite Hq. reflexivity.
Qed.









Lemma sample_totals_complete (d : day) :
  In d (days Sample.sample_schedule) -> totals_complete d.
Proof.
  simpl. intros [<- | [<- | []]] k [<- | [<- | [<- | [<- | []]]]];
    match goal with
    | |- is_Some ?x =>
        let v := eval vm_compute in x in
        match v with Some ?q => exists q; vm_compute; reflexivity end
    end.
Qed.


Example cycleRemaining_sample : cycleRemaining Sample.sample_schedule = "38.5".
Proof. vm_compute. reflexivity. Qed.

(** Binary64 sums: with totals 3.6 and 0.95 and a cycle start of 20.5 (the
    binary64 numbers nearest to them) the card reads 45.0, where the exact
    sum of the same numbers is a little below 44.95. *)
Example cycleRemaining_rounding :
  let d := {| day_num := 1;
              totals := list_to_map
                [ ("off_duty", 0%Q); ("sleeper", 0%Q);
                  ("driving", JS.round64_Q (36 # 10));
                  ("on_duty", JS.round64_Q (95 # 100)) ];
              driven_miles := 0; timeline := [] |} in
  let sch := {| days := [d]; fuel_stops := []; rest_stops := [];
                stats := {| total_miles := 0; total_driving_hrs := 0; trip_days := 1;
                            fuel_stop_count := 0; cycle_used_start := 41 # 2;
                            avg_speed_mph := 55 |} |} in
  cycleRemaining sch = "45.0"
  /\ JS.toFixedQ 1 (Qmax 0 (70 - (41 # 2) - on_duty_sum [d])) = "44.9".
Proof. vm_compute. split; reflexivity. Qed.

(** Without any assumption on the schedule the value is never negative. *)
Lemma cycleRemaining_never_negative (sch : schedule) :
  JS.lt (cycleRemaining_value sch) (JS.of_Z 0) = false.
Proof. apply Math_max_0_not_negative. Qed.

End TripSummaryProperties.

(* ===================================================================== *)
(** ** App: a failed planning outcome *)
(* ===================================================================== *)

Section AppProperties.
Import Schedule App Stated.

Lemma or_else_nonempty (a : option string) (b : string) :
  b <> "" -> or_else a b <> "".
Proof.
  intros Hb. unfold or_else. destruct a as [s | ]; [ | exact Hb].
  destruct s; simpl; [exact Hb | discriminate].
Qed.

Lemma or_else_provided (s b : string) : s <> "" -> or_else (Some s) b = s.
Proof. destruct s; simpl; [congruence | reflexivity]. Qed.

Lemma or_else_missing (a : option string) (b : string) :
  (a = None \/ a = Some "") -> or_else a b = b.
Proof. intros [-> | ->]; reflexivity. Qed.

(** The message [handlePlanTrip] stores for a failure. *)
Lemma failure_message (st : app_state) (o : post_outcome) :
  failed o = true ->
  error (handlePlanTrip o st) = or_else (server_message o) (generic_message o).
Proof.
  destruct o as [body | re message]; simpl.
  - intros Hs. rewrite Hs. simpl.
    destruct (body_error body) as [[ | c m] | ]; reflexivity.
  - intros _. destruct message; reflexivity.
Qed.

Lemma generic_message_nonempty (o : post_outcome) : generic_message o <> "".
Proof.
  destruct o as [body | re [ | c m]]; simpl; discriminate.
Qed.

(** C4. When the request fails or the response carries [success: false],
    the state after [handlePlanTrip] holds a non-empty error message and no
    trip data, whatever the state before was.  The message is the one the
    server supplied when there is a non-empty one, and the generic message
    only otherwise.  The page then shows the error banner and nothing else:
    no map, summary or log is rendered. *)
Theorem C4_failure_shows_error_and_no_result (st : app_state) (o : post_outcome) :
  failed o = true ->
  let st' := handlePlanTrip o st in
  tripData st' = None
  /\ error st' <> ""
  /\ (forall m, server_message o = Some m -> m <> "" -> error st' = m)
  /\ (server_message o = None \/ server_message o = Some "" ->
      error st' = generic_message o)
  /\ render st' = [ErrorBanner (error st')].
Proof.
  intros Hf st'.
  assert (Herr : error st' = or_else (server_message o) (generic_message o))
    by (apply failure_message; exact Hf).
  assert (Hne : error st' <> "")
    by (rewrite Herr; apply or_else_nonempty, generic_message_nonempty).
  assert (Htd : tripData st' = None).
  { subst st'. destruct o as [body | re message]; simpl in *.
    - rewrite Hf. reflexivity.
    - reflexivity. }
  assert (Hload : loading st' = false) by reflexivity.
  repeat split.
  - exact Htd.
  - exact Hne.
  - intros m Hm Hnm. rewrite Herr, Hm. apply or_else_provided. exact Hnm.
  - intros Hnone. rewrite Herr. apply or_else_missing. exact Hnone.
  - unfold render. rewrite Htd, Hload.
    apply truthy_str_nonempty in Hne. rewrite Hne. reflexivity.
Qed.

Lemma C4_failure_shows_error_and_no_result_witness :
  let st := {| loading := false; loadMsg := ""; error := "";
               tripData := Some Sample.sample_trip |} in
  let o := Rejected (Some "Could not geocode: Nowhere, ZZ")
                    "Request failed with status code 400" in
  let st' := handlePlanTrip o st in
  tripData st' = None
  /\ error st' <> ""
  /\ (forall m, server_message o = Some m -> m <> "" -> error st' = m)
  /\ (server_message o = None \/ server_message o = Some "" ->
      error st' = generic_message o)
  /\ render st' = [ErrorBanner (error st')].
Proof.
  apply (C4_failure_shows_error_and_no_result
           {| loading := false; loadMsg := ""; error := "";
              tripData := Some Sample.sample_trip |}
           (Rejected (Some "Could not geocode: Nowhere, ZZ")
                     "Request failed with status code 400")).
  reflexivity.
Defined.

(** After any outcome, an error message and trip data never coexist, and a
    successful outcome leaves the trip data and no error. *)
Lemma error_excludes_result (st : app_state) (o : post_outcome) :
  (error (handlePlanTrip o st) <> "" -> tripData (handlePlanTrip o st) = None)
  /\ (failed o = false ->
      error (handlePlanTrip o st) = ""
      /\ exists td, tripData (handlePlanTrip o st) = Some td
                    /\ render (handlePlanTrip o st) = [Results td]).
Proof.
  destruct o as [body | re message].
  - unfold handlePlanTrip, handlePlanTrip_end, handlePlanTrip_begin, render, failed.
    destruct (success body); simpl; split.
    + intros H; contradiction H; reflexivity.
    + intros _. split; [reflexivity | eexists; split; reflexivity].
    + reflexivity.
    + discriminate.
  - split; [reflexivity | discriminate].
Qed.

End AppProperties.

(* ===================================================================== *)
(** ** ELDLogs: the parts of the sheet *)
(* ===================================================================== *)

Section SheetParts.
Import Schedule ELDLogs.

Lemma filter_none {A : Type} (p : A -> bool) (l : list A) :
  Forall (fun a => p a = false) l -> List.filter p l = [].
Proof.
  induction 1 as [ | a l Ha _ IH]; simpl; [reflexivity | ].
  rewrite Ha. exact IH.
Qed.

Lemma filter_all {A : Type} (p : A -> bool) (l : list A) :
  Forall (fun a => p a = true) l -> List.filter p l = l.
Proof.
  induction 1 as [ | a l Ha _ IH]; simpl; [reflexivity | ].
  rewrite Ha, IH. reflexivity.
Qed.

Lemma header_kind (inf : info) :
  Forall (fun c => is_header c = true) (header inf).
Proof. unfold header. repeat constructor. Qed.

Lemma row_totals_kind (d : day) :
  Forall (fun c => is_row_total c = true) (row_totals d).
Proof. unfold row_totals. simpl. repeat constructor. Qed.

Lemma activity_step_kind (st : activity_state) (s : segment) :
  Forall (fun c => is_stroke c = true) (strokes st) ->
  Forall (fun c => is_stroke c = true) (strokes (activity_step st s)).
Proof.
  intros H. unfold activity_step. simpl.
  apply Forall_app. split; [exact H | ].
  apply Forall_app. split; [ | repeat constructor].
  destruct (prevRow st), (prevEndX st); try constructor.
  destruct (negb _); repeat constructor.
Qed.

Lemma activity_fold_kind (segs : list segment) (st : activity_state) :
  Forall (fun c => is_stroke c = true) (strokes st) ->
  Forall (fun c => is_stroke c = true) (strokes (fold_left activity_step segs st)).
Proof.
  revert st. induction segs as [ | s segs IH]; intros st H; simpl; [exact H | ].
  apply IH, activity_step_kind, H.
Qed.

Lemma activity_kind (tl : list segment) :
  Forall (fun c => is_stroke c = true) (activity tl).
Proof. apply activity_fold_kind. constructor. Qed.

Lemma remarks_step_kind (mt : string -> Q) (st : remarks_state) (s : segment) :
  Forall (fun c => is_remark c = true) (entries st) ->
  Forall (fun c => is_remark c = true) (entries (remarks_step mt st s)).
Proof.
  intros H. unfold remarks_step.
  destruct (JS.Qltb (inject_Z (REM_TOP + REM_H - 6)) _); simpl; [exact H | ].
  apply Forall_app. split; [exact H | repeat constructor].
Qed.

Lemma remarks_fold_kind (mt : string -> Q) (segs : list segment) (st : remarks_state) :
  Forall (fun c => is_remark c = true) (entries st) ->
  Forall (fun c => is_remark c = true) (entries (fold_left (remarks_step mt) segs st)).
Proof.
  revert st. induction segs as [ | s segs IH]; intros st H; simpl; [exact H | ].
  apply IH, remarks_step_kind, H.
Qed.

Lemma remarks_kind (mt : string -> Q) (tl : list segment) :
  Forall (fun c => is_remark c = true) (remarks mt tl).
Proof. apply remarks_fold_kind. constructor. Qed.

Lemma recap_cmds_kind (rows : list (string * string)) (i : Z) :
  Forall (fun c => is_recap c = true) (recap_cmds rows i).
Proof.
  revert i. induction rows as [ | [l v] rows IH]; intros i; simpl; constructor.
  - reflexivity.
  - apply IH.
Qed.

(** The calls of [drawELDLog], part by part. *)
Lemma drawELDLog_calls (mt : string -> Q) (d : day) (inf : info) :
  fst (drawELDLog mt d inf) =
  (header inf ++ row_totals d ++ activity (timeline d) ++ remarks mt (timeline d)
   ++ match recapRows d with Some rows => recap_cmds rows 0 | None => [] end)%list.
Proof.
  unfold drawELDLog. destruct (recapRows d); simpl.
  - rewrite <- !app_assoc. reflexivity.
  - rewrite app_nil_r. reflexivity.
Qed.

Lemma Forall_kind_other (p q : cmd -> bool) (l : list cmd) :
  (forall c, p c = true -> q c = false) ->
  Forall (fun c => p c = true) l -> Forall (fun c => q c = false) l.
Proof.
  intros Hpq. induction 1 as [ | c l Hc _ IH]; constructor; auto.
Qed.

Ltac other_kind :=
  let c := fresh "c" in intros c; destruct c; simpl; congruence.

(** The row totals printed are exactly [row_totals]. *)
Lemma drawELDLog_row_totals (mt : string -> Q) (d : day) (inf : info) :
  List.filter is_row_total (fst (drawELDLog mt d inf)) = row_totals d.
Proof.
  rewrite drawELDLog_calls, !List.filter_app.
  rewrite (filter_none _ (header inf))
    by (eapply Forall_kind_other; [ | apply header_kind]; other_kind).
  rewrite (filter_all _ (row_totals d)) by apply row_totals_kind.
  rewrite (filter_none _ (activity _))
    by (eapply Forall_kind_other; [ | apply activity_kind]; other_kind).
  rewrite (filter_none _ (remarks _ _))
    by (eapply Forall_kind_other; [ | apply remarks_kind]; other_kind).
  rewrite filter_none; [rewrite !app_nil_r; reflexivity | ].
  destruct (recapRows d); [ | constructor].
  eapply Forall_kind_other; [ | apply recap_cmds_kind]. other_kind.
Qed.

Lemma drawELDLog_strokes (mt : string -> Q) (d : day) (inf : info) :
  List.filter is_stroke (fst (drawELDLog mt d inf)) = activity (timeline d).
Proof.
  rewrite drawELDLog_calls, !List.filter_app.
  rewrite (filter_none _ (header inf))
    by (eapply Forall_kind_other; [ | apply header_kind]; other_kind).
  rewrite (filter_none _ (row_totals d))
    by (eapply Forall_kind_other; [ | apply row_totals_kind]; other_kind).
  rewrite (filter_all _ (activity _)) by apply activity_kind.
  rewrite (filter_none _ (remarks _ _))
    by (eapply Forall_kind_other; [ | apply remarks_kind]; other_kind).
  rewrite filter_none; [rewrite !app_nil_r; reflexivity | ].
  destruct (recapRows d); [ | constructor].
  eapply Forall_kind_other; [ | apply recap_cmds_kind]. other_kind.
Qed.

Lemma drawELDLog_remarks (mt : string -> Q) (d : day) (inf : info) :
  List.filter is_remark (fst (drawELDLog mt d inf)) = remarks mt (timeline d).
Proof.
  rewrite drawELDLog_calls, !List.filter_app.
  rewrite (filter_none _ (header inf))
    by (eapply Forall_kind_other; [ | apply header_kind]; other_kind).
  rewrite (filter_none _ (row_totals d))
    by (eapply Forall_kind_other; [ | apply row_totals_kind]; other_kind).
  rewrite (filter_none _ (activity _))
    by (eapply Forall_kind_other; [ | apply activity_kind]; other_kind).
  rewrite (filter_all _ (remarks _ _)) by apply remarks_kind.
  rewrite filter_none; [rewrite !app_nil_r; reflexivity | ].
  destruct (recapRows d); [ | constructor].
  eapply Forall_kind_other; [ | apply recap_cmds_kind]. other_kind.
Qed.

Lemma drawELDLog_recap (mt : string -> Q) (d : day) (inf : info) :
  List.filter is_recap (fst (drawELDLog mt d inf)) =
  match recapRows d with Some rows => recap_cmds rows 0 | None => [] end.
Proof.
  rewrite drawELDLog_calls, !List.filter_app.
  rewrite (filter_none _ (header inf))
    by (eapply Forall_kind_other; [ | apply header_kind]; other_kind).
  rewrite (filter_none _ (row_totals d))
    by (eapply Forall_kind_other; [ | apply row_totals_kind]; other_kind).
  rewrite (filter_none _ (activity _))
    by (eapply Forall_kind_other; [ | apply activity_kind]; other_kind).
  rewrite (filter_none _ (remarks _ _))
    by (eapply Forall_kind_other; [ | apply remarks_kind]; other_kind).
  simpl. apply filter_all.
  destruct (recapRows d); [apply recap_cmds_kind | constructor].
Qed.

Lemma drawELDLog_header (mt : string -> Q) (d : day) (inf : info) :
  List.filter is_header (fst (drawELDLog mt d inf)) = header inf.
Proof.
  rewrite drawELDLog_calls, !List.filter_app.
  rewrite (filter_all _ (header inf)) by apply header_kind.
  rewrite (filter_none _ (row_totals d))
    by (eapply Forall_kind_other; [ | apply row_totals_kind]; other_kind).
  rewrite (filter_none _ (activity _))
    by (eapply Forall_kind_other; [ | apply activity_kind]; other_kind).
  rewrite (filter_none _ (remarks _ _))
    by (eapply Forall_kind_other; [ | apply remarks_kind]; other_kind).
  rewrite filter_none; [rewrite !app_nil_r; reflexivity | ].
  destruct (recapRows d); [ | constructor].
  eapply Forall_kind_other; [ | apply recap_cmds_kind]. other_kind.
Qed.

End SheetParts.

(* ===================================================================== *)
(** ** ELDLogs: rows, totals and the recapitulation *)
(* ===================================================================== *)

Section SheetTotals.
Import Schedule ELDLogs Stated.




Example rowHours_sample :
  map (rowHours Sample.day1) (seq 0 ROWS) = ["10.50"; "0.00"; "12.50"; "1.00"].
Proof. vm_compute. reflexivity. Qed.






Example recap_sample :
  recapRows Sample.day1 =
  Some [ ("A. On Duty Today (Lines 3 & 4)", "13.50 hrs");
         ("B. Driving Today (Line 3)", "12.50 hrs");
         ("C. Off Duty Today (Lines 1 & 2)", "10.50 hrs") ].
Proof. vm_compute. reflexivity. Qed.

(** Binary64 sums: with totals 5.588 and 0.627 line A reads 6.21, where the
    exact sum of the same two numbers rounds to 6.22. *)
Example recap_rounding :
  let d := {| day_num := 1;
              totals := list_to_map
                [ ("off_duty", 0%Q); ("sleeper", 0%Q);
                  ("driving", JS.round64_Q (5588 # 1000));
                  ("on_duty", JS.round64_Q (627 # 1000)) ];
              driven_miles := 0; timeline := [] |} in
  option_map (fun rows => nth 0 (map snd rows) "") (recapRows d) = Some "6.21 hrs"
  /\ JS.toFixedQ 2 (hours d "driving" + hours d "on_duty") = "6.22".
Proof. vm_compute. split; reflexivity. Qed.

Example pills_sample : DayLog_pills Sample.day1 = Some ("12.50", "1.00", "10.50").
Proof. vm_compute. reflexivity. Qed.

End SheetTotals.

(* ===================================================================== *)
(** ** Driver and carrier metadata *)
(* ===================================================================== *)

Section MetadataProperties.
Import Schedule ELDLogs.

Lemma validate_fields (v1 v2 : TripForm.form_values) :
  TripForm.current_location v1 = TripForm.current_location v2 ->
  TripForm.pickup_location v1 = TripForm.pickup_location v2 ->
  TripForm.dropoff_location v1 = TripForm.dropoff_location v2 ->
  TripForm.cycle_hours_used v1 = TripForm.cycle_hours_used v2 ->
  TripForm.validate v1 = TripForm.validate v2.
Proof.
  intros H1 H2 H3 H4. unfold TripForm.validate. rewrite H1, H2, H3, H4. reflexivity.
Qed.

Lemma filter_not_header (inf : info) :
  List.filter (fun c => negb (is_header c)) (header inf) = [].
Proof. reflexivity. Qed.

(** What [drawELDLog] issues besides the header fields does not depend on
    [info]. *)
Lemma drawELDLog_body (mt : string -> Q) (d : day) (inf1 inf2 : info) :
  List.filter (fun c => negb (is_header c)) (fst (drawELDLog mt d inf1))
  = List.filter (fun c => negb (is_header c)) (fst (drawELDLog mt d inf2))
  /\ snd (drawELDLog mt d inf1) = snd (drawELDLog mt d inf2).
Proof.
  split.
  - rewrite !drawELDLog_calls, !(List.filter_app _ (header _)), !filter_not_header.
    reflexivity.
  - unfold drawELDLog. destruct (recapRows d); reflexivity.
Qed.

(** C6. Two submissions that agree on the three locations and on
    [cycle_hours_used] are both rejected or both sent, and when sent their
    requests agree on those four fields, whatever the driver and carrier
    names are.  For a fixed day, the calls [drawELDLog] issues besides the
    header fields (row totals, activity lines and connectors, remarks,
    recapitulation) and its outcome are the same for any two [meta] values;
    in particular the lines, the row totals and the remarks are the same. *)
Theorem C6_metadata_affects_header_only
    (st1 st2 : TripForm.form_state)
    (mt : string -> Q) (d : day) (dateStr : string) (m1 m2 : meta) :
  TripForm.current_location (TripForm.values st1)
    = TripForm.current_location (TripForm.values st2) ->
  TripForm.pickup_location (TripForm.values st1)
    = TripForm.pickup_location (TripForm.values st2) ->
  TripForm.dropoff_location (TripForm.values st1)
    = TripForm.dropoff_location (TripForm.values st2) ->
  TripForm.cycle_hours_used (TripForm.values st1)
    = TripForm.cycle_hours_used (TripForm.values st2) ->
  match snd (TripForm.handleSubmit st1), snd (TripForm.handleSubmit st2) with
  | Some r1, Some r2 =>
      TripForm.req_current_location r1 = TripForm.req_current_location r2
      /\ TripForm.req_pickup_location r1 = TripForm.req_pickup_location r2
      /\ TripForm.req_dropoff_location r1 = TripForm.req_dropoff_location r2
      /\ TripForm.req_cycle_hours_used r1 = TripForm.req_cycle_hours_used r2
  | None, None => True
  | _, _ => False
  end
  /\ (let sheet1 := drawELDLog mt d (DayLog_info d dateStr m1) in
      let sheet2 := drawELDLog mt d (DayLog_info d dateStr m2) in
      List.filter (fun c => negb (is_header c)) (fst sheet1)
      = List.filter (fun c => negb (is_header c)) (fst sheet2)
      /\ snd sheet1 = snd sheet2
      /\ List.filter is_stroke (fst sheet1) = List.filter is_stroke (fst sheet2)
      /\ List.filter is_row_total (fst sheet1) = List.filter is_row_total (fst sheet2)
      /\ List.filter is_remark (fst sheet1) = List.filter is_remark (fst sheet2)).
Proof.
  intros H1 H2 H3 H4. split.
  - unfold TripForm.handleSubmit.
    rewrite (validate_fields _ _ H1 H2 H3 H4).
    destruct (negb (Nat.eqb (size (TripForm.validate (TripForm.values st2))) 0));
      simpl; [exact I | ].
    rewrite H1, H2, H3, H4. repeat split; reflexivity.
  - cbv zeta.
    destruct (drawELDLog_body mt d (DayLog_info d dateStr m1) (DayLog_info d dateStr m2))
      as [Hbody Hout].
    split; [exact Hbody | ]. split; [exact Hout | ].
    rewrite !drawELDLog_strokes, !drawELDLog_row_totals, !drawELDLog_remarks.
    repeat split; reflexivity.
Qed.

Lemma C6_metadata_affects_header_only_witness :
  let st1 := TripForm.form_with "Chicago, IL" "St. Louis, MO" "Dallas, TX" "14"
               "John Doe" "ACME Trucking Co." ∅ in
  let st2 := TripForm.form_with "Chicago, IL" "St. Louis, MO" "Dallas, TX" "14"
               "" "Other Carrier" ∅ in
  let mt := fun _ : string => 60%Q in
  let d := Sample.day1 in
  match snd (TripForm.handleSubmit st1), snd (TripForm.handleSubmit st2) with
  | Some r1, Some r2 =>
      TripForm.req_current_location r1 = TripForm.req_current_location r2
      /\ TripForm.req_pickup_location r1 = TripForm.req_pickup_location r2
      /\ TripForm.req_dropoff_location r1 = TripForm.req_dropoff_location r2
      /\ TripForm.req_cycle_hours_used r1 = TripForm.req_cycle_hours_used r2
  | None, None => True
  | _, _ => False
  end
  /\ (let sheet1 := drawELDLog mt d (DayLog_info d "11/01/2026" Sample.sample_meta) in
      let sheet2 := drawELDLog mt d (DayLog_info d "11/01/2026" Sample.other_meta) in
      List.filter (fun c => negb (is_header c)) (fst sheet1)
      = List.filter (fun c => negb (is_header c)) (fst sheet2)
      /\ snd sheet1 = snd sheet2
      /\ List.filter is_stroke (fst sheet1) = List.filter is_stroke (fst sheet2)
      /\ List.filter is_row_total (fst sheet1) = List.filter is_row_total (fst sheet2)
      /\ List.filter is_remark (fst sheet1) = List.filter is_remark (fst sheet2)).
Proof.
  apply (C6_metadata_affects_header_only
           (TripForm.form_with "Chicago, IL" "St. Louis, MO" "Dallas, TX" "14"
              "John Doe" "ACME Trucking Co." ∅)
           (TripForm.form_with "Chicago, IL" "St. Louis, MO" "Dallas, TX" "14"
              "" "Other Carrier" ∅)
           (fun _ : string => 60%Q) Sample.day1 "11/01/2026"
           Sample.sample_meta Sample.other_meta); reflexivity.
Defined.

(** The two sample submissions are sent, and the header fields do differ. *)
Example sample_submissions_sent :
  (exists r, snd (TripForm.handleSubmit
                    (TripForm.form_with "Chicago, IL" "St. Louis, MO" "Dallas, TX" "14"
                       "" "Other Carrier" ∅)) = Some r
             /\ TripForm.req_driver_name r = "Driver")
  /\ header (DayLog_info Sample.day1 "11/01/2026" Sample.sample_meta)
     <> header (DayLog_info Sample.day1 "11/01/2026" Sample.other_meta).
Proof.
  split.
  - eexists. split; vm_compute; reflexivity.
  - vm_compute. discriminate.
Qed.

End MetadataProperties.

(* ===================================================================== *)
(** ** ELDLogs: statuses and totals outside the contract *)
(* ===================================================================== *)

Section OffContract.
Import Schedule ELDLogs.

(** Which segments the filter before drawing keeps: those whose status is a
    key of [STATUS_ROW] or a property name inherited from Object.prototype. *)
Lemma validSegs_keeps (s : segment) :
  JS.strict_eq (JS.obj_get STATUS_ROW (status s)) JS.VUndef = false
  <-> (In (status s) statusKeys \/ In (status s) JS.Object_prototype_keys).
Proof.
  unfold JS.obj_get, STATUS_ROW. cbn [JS.own_get].
  destruct (String.eqb_spec "off_duty" (status s)) as [E | N0];
    [split; [left; rewrite <- E; simpl; tauto | reflexivity] | ].
  destruct (String.eqb_spec "sleeper" (status s)) as [E | N1];
    [split; [left; rewrite <- E; simpl; tauto | reflexivity] | ].
  destruct (String.eqb_spec "driving" (status s)) as [E | N2];
    [split; [left; rewrite <- E; simpl; tauto | reflexivity] | ].
  destruct (String.eqb_spec "on_duty" (status s)) as [E | N3];
    [split; [left; rewrite <- E; simpl; tauto | reflexivity] | ].
  destruct (existsb (String.eqb (status s)) JS.Object_prototype_keys) eqn:Ex.
  - split; [intros _; right | reflexivity].
    apply existsb_exists in Ex. destruct Ex as (k & Hk & Hek).
    apply String.eqb_eq in Hek. subst k. exact Hk.
  - split; [discriminate | ]. intros [Hin | Hin].
    + simpl in Hin. intuition congruence.
    + exfalso. assert (existsb (String.eqb (status s)) JS.Object_prototype_keys = true).
      { apply existsb_exists. exists (status s). split; [exact Hin | apply String.eqb_refl]. }
      congruence.
Qed.

(** A segment whose status is neither is dropped by the filter, so it
    cannot contribute a line, a connector or a remark. *)
Lemma validSegs_drops (l1 l2 : list segment) (s : segment) :
  ~ In (status s) statusKeys ->
  ~ In (status s) JS.Object_prototype_keys ->
  validSegs (l1 ++ s :: l2) = validSegs (l1 ++ l2).
Proof.
  intros H1 H2. unfold validSegs. rewrite !List.filter_app. simpl.
  destruct (JS.strict_eq (JS.obj_get STATUS_ROW (status s)) JS.VUndef) eqn:E;
    [reflexivity | ].
  apply validSegs_keeps in E. tauto.
Qed.

(** A status key missing from the totals prints the row total 0.00. *)
Lemma rowHours_missing (d : day) (r : nat) :
  totals d !! nth r statusKeys "undefined" = None ->
  rowHours d r = "0.00".
Proof.
  intros H. unfold rowHours, totals_get. rewrite H. reflexivity.
Qed.

(** [drawELDLog] returns unless the totals lack [driving], in which case the
    recapitulation throws after the rest of the sheet has been drawn. *)
Lemma drawELDLog_returns (mt : string -> Q) (d : day) (inf : info) :
  snd (drawELDLog mt d inf) = true <-> is_Some (totals d !! "driving").
Proof.
  unfold drawELDLog, recapRows, totals_get.
  destruct (totals d !! "driving") as [q | ]; simpl; split; intros H;
    try reflexivity; try discriminate; eauto.
  destruct H as [q Hq]. discriminate.
Qed.

(** C9 (fails on the code). The segment with status "constructor" of
    [Sample.odd_day] is not one of the four duty statuses, yet the filter
    keeps it: [STATUS_ROW["constructor"]] is the inherited constructor, not
    undefined.  The segment then gets a remarks entry, whatever the text
    widths are, and an activity line and two connectors are stroked for it
    at the height NaN, where the filtered timeline has one connector between
    its neighbours. *)
Theorem C9_inherited_status_is_not_filtered :
  let tl := timeline Sample.odd_day in
  ~ In "constructor" statusKeys
  /\ validSegs tl = tl
  /\ (forall mt : string -> Q, exists x y,
        remarks mt tl = [RemarkEntry (JS.VObject "constructor") "1:00 AM — Detour" x y])
  /\ (forall mt : string -> Q, remarks mt Sample.odd_day_filtered = [])
  /\ List.filter
       (fun c => match c with
                 | StrokeLine _ _ JS.NaN _ _ | StrokeLine _ _ _ _ JS.NaN => true
                 | _ => false
                 end) (activity tl)
     = [ StrokeLine (JS.VObject "constructor")
           (x_of_hour 1) (cy_of_row (JS.VNum (JS.of_Z 0))) (x_of_hour 1) JS.NaN;
         StrokeLine (JS.VObject "constructor")
           (x_of_hour 1) JS.NaN (x_of_hour 2) JS.NaN;
         StrokeLine (JS.VStr "#d97706")
           (x_of_hour 2) JS.NaN (x_of_hour 2) (cy_of_row (JS.VNum (JS.of_Z 2))) ]
  /\ length (activity tl) = 7%nat
  /\ length (activity Sample.odd_day_filtered) = 5%nat.
Proof.
  cbv zeta. split.
  { simpl. intros H. repeat (destruct H as [H | H]; [discriminate H | ]). exact H. }
  split; [reflexivity | ].
  split.
  { intros mt. unfold remarks, noteSegs. simpl fold_left.
    unfold remarks_step at 1. simpl.
    destruct (JS.Qltb (inject_Z (CW - M - 8)) _); vm_compute;
      eexists; eexists; reflexivity. }
  split; [intros mt; reflexivity | ].
  split; [vm_compute; reflexivity | ].
  split; reflexivity.
Qed.

End OffContract.

(* ===================================================================== *)
(** ** Engine: the driving hours of a shift *)
(* ===================================================================== *)

Section ShiftScanFacts.
Import Engine.
Local Open Scope Q_scope.

Lemma Qle_bool_cases (a b : Q) :
  (Qle_bool a b = true /\ a <= b) \/ (Qle_bool a b = false /\ b < a).
Proof.
  destruct (Qle_bool a b) eqn:E.
  - left. split; [reflexivity | apply Qle_bool_iff; exact E].
  - right. split; [reflexivity | ].
    apply Qnot_le_lt. intros H. apply Qle_bool_iff in H. congruence.
Qed.

Ltac case_Qle a b :=
  let H := fresh "Hle" in
  let E := fresh "Ele" in
  destruct (Qle_bool_cases a b) as [[E H] | [E H]]; rewrite ?E in *.

Lemma scan_equiv_refl (a : ShiftScan) : scan_equiv a a.
Proof.
  repeat split; try reflexivity.
Qed.

Lemma Forall2_Qeq_trans (l1 l2 l3 : list Q) :
  Forall2 Qeq l1 l2 -> Forall2 Qeq l2 l3 -> Forall2 Qeq l1 l3.
Proof.
  intros H12. revert l3. induction H12 as [ | x y l1 l2 Hxy _ IH]; intros l3 H23.
  - exact H23.
  - inversion H23 as [ | y' z l2' l3' Hyz Hrest]; subst.
    constructor; [rewrite Hxy; exact Hyz | apply IH; exact Hrest].
Qed.

Lemma scan_equiv_trans (a b c : ShiftScan) :
  scan_equiv a b -> scan_equiv b c -> scan_equiv a c.
Proof.
  intros (Hc1 & Ho1 & Hr1) (Hc2 & Ho2 & Hr2). repeat split.
  - eapply Forall2_Qeq_trans; eassumption.
  - rewrite Ho1. exact Ho2.
  - rewrite Hr1. exact Hr2.
Qed.

Lemma Forall2_Qeq_snoc (l1 l2 : list Q) (x y : Q) :
  Forall2 Qeq l1 l2 -> x == y -> Forall2 Qeq (l1 ++ [x]) (l2 ++ [y]).
Proof.
  intros H Hxy. apply Forall2_app; [exact H | ]. constructor; [exact Hxy | constructor].
Qed.

(** [scan_step] only looks at the status and the length of the segment. *)
Lemma scan_step_equiv (a b : ShiftScan) (s t : DutySegment) :
  scan_equiv a b ->
  seg_status s = seg_status t ->
  duration s == duration t ->
  scan_equiv (scan_step a s) (scan_step b t).
Proof.
  intros (Hc & Ho & Hr) Hst Hd. unfold scan_step. rewrite <- Hst.
  destruct (is_rest (seg_status s)).
  - split; [ | split]; simpl; [exact Hc | exact Ho | lra].
  - case_Qle RESET_HRS (rest_run a); case_Qle RESET_HRS (rest_run b);
      try (exfalso; lra).
    + split; [ | split]; simpl.
      * apply Forall2_Qeq_snoc; assumption.
      * destruct (status_eqb (seg_status s) driving); [exact Hd | reflexivity].
      * reflexivity.
    + split; [ | split]; simpl.
      * exact Hc.
      * destruct (status_eqb (seg_status s) driving); lra.
      * reflexivity.
Qed.

(** A segment cut in two consecutive pieces scans like the whole. *)
Lemma scan_step_two_pieces (a b : ShiftScan) (p1 p2 s : DutySegment) :
  scan_equiv a b ->
  seg_status p1 = seg_status s ->
  seg_status p2 = seg_status s ->
  duration p1 + duration p2 == duration s ->
  scan_equiv (scan_step (scan_step a p1) p2) (scan_step b s).
Proof.
  intros (Hc & Ho & Hr) H1 H2 Hd. unfold scan_step. rewrite H1, H2.
  destruct (is_rest (seg_status s)) eqn:Hrest.
  - split; [ | split]; simpl; [exact Hc | exact Ho | lra].
  - case_Qle RESET_HRS (rest_run a); case_Qle RESET_HRS (rest_run b);
      try (exfalso; lra); simpl.
    + case_Qle RESET_HRS 0; [exfalso; unfold RESET_HRS in *; lra | ].
      split; [ | split]; simpl.
      * apply Forall2_Qeq_snoc; assumption.
      * destruct (status_eqb (seg_status s) driving); lra.
      * reflexivity.
    + case_Qle RESET_HRS 0; [exfalso; unfold RESET_HRS in *; lra | ].
      split; [ | split]; simpl.
      * exact Hc.
      * destruct (status_eqb (seg_status s) driving); lra.
      * reflexivity.
Qed.

Lemma split_segment_scan (n : nat) (s : DutySegment) (a b : ShiftScan) :
  scan_equiv a b ->
  scan_equiv (fold_left scan_step (split_segment n s) a) (scan_step b s).
Proof.
  revert s a b. induction n as [ | n IH]; intros s a b Hab; simpl.
  - apply scan_step_equiv; [exact Hab | reflexivity | reflexivity].
  - destruct (negb (Qle_bool (end_hour s) (midnight_after (start_hour s)))); simpl.
    + set (p1 := {| seg_status := seg_status s; start_hour := start_hour s;
                    end_hour := midnight_after (start_hour s);
                    seg_note := seg_note s |}).
      set (p2 := {| seg_status := seg_status s;
                    start_hour := midnight_after (start_hour s);
                    end_hour := end_hour s; seg_note := seg_note s |}).
      apply scan_equiv_trans with (scan_step (scan_step a p1) p2).
      * apply IH. apply scan_equiv_refl.
      * apply scan_step_two_pieces; [exact Hab | reflexivity | reflexivity | ].
        unfold duration; simpl; lra.
    + apply scan_step_equiv; [exact Hab | reflexivity | reflexivity].
Qed.

End ShiftScanFacts.

Section EngineInvariant.
Import Engine.
Local Open Scope Q_scope.

Ltac case_Qle a b :=
  let H := fresh "Hle" in
  let E := fresh "Ele" in
  destruct (Qle_bool_cases a b) as [[E H] | [E H]]; rewrite ?E in *.

Ltac split_inv :=
  unfold shift_inv; simpl; split; [ | split; [ | split; [ | split; [ | split]]]].

Lemma Forall_le_snoc (l : list Q) (x : Q) :
  Forall (fun h => h <= MAX_DRIVING_HRS) l -> x <= MAX_DRIVING_HRS ->
  Forall (fun h => h <= MAX_DRIVING_HRS) (l ++ [x]).
Proof.
  intros Hl Hx. apply Forall_app. split; [exact Hl | ].
  constructor; [exact Hx | constructor].
Qed.

(** A duty segment (driving or on duty) keeps the invariant when the clock
    counts its driving hours and stays within the limit. *)
Lemma shift_inv_duty (sc : ShiftScan) (c c' : DutyClock) (s : DutySegment) :
  shift_inv sc c ->
  is_rest (seg_status s) = false ->
  0 <= duration s ->
  driving_hrs_this_shift c' ==
    driving_hrs_this_shift c
    + (if status_eqb (seg_status s) driving then duration s else 0) ->
  driving_hrs_this_shift c' <= MAX_DRIVING_HRS ->
  shift_inv (scan_step sc s) c'.
Proof.
  intros (Hcl & Hop & Hrest & H0 & H11 & Hlink) Hst Hdur Hc' Hmax.
  unfold scan_step. rewrite Hst.
  assert (Hh : 0 <= (if status_eqb (seg_status s) driving then duration s else 0))
    by (destruct (status_eqb _ _); lra).
  case_Qle RESET_HRS (rest_run sc); split_inv;
    try (apply Forall_le_snoc; assumption); try exact Hcl; try lra;
    intros _; try specialize (Hlink Hle); lra.
Qed.

(** A rest segment keeps the invariant when the clock leaves the driving
    hours alone, or resets them after a rest of at least 10 hours. *)
Lemma shift_inv_rest (sc : ShiftScan) (c c' : DutyClock) (s : DutySegment) :
  shift_inv sc c ->
  is_rest (seg_status s) = true ->
  0 <= duration s ->
  (driving_hrs_this_shift c' == driving_hrs_this_shift c
   \/ (RESET_HRS <= duration s /\ driving_hrs_this_shift c' == 0)) ->
  shift_inv (scan_step sc s) c'.
Proof.
  intros (Hcl & Hop & Hrest & H0 & H11 & Hlink) Hst Hdur Hc'.
  unfold scan_step. rewrite Hst.
  destruct Hc' as [Hsame | [Hlong Hzero]]; split_inv;
    try exact Hcl; try exact Hop; unfold MAX_DRIVING_HRS in *; try lra;
    intros Hshort; rewrite Hsame; apply Hlink; lra.
Qed.

Lemma segments_emit (st : EngineState) (s : DutyStatus) (h : Q)
    (n : option string) (c : DutyClock) :
  fold_left scan_step (segments (emit st s h n c)) scan_start
  = scan_step (fold_left scan_step (segments st) scan_start)
      {| seg_status := s; start_hour := elapsed st;
         end_hour := elapsed st + h; seg_note := n |}.
Proof. unfold emit. simpl. rewrite fold_left_app. reflexivity. Qed.

Lemma engine_inv_pickup (i : TripInput) : engine_inv (pickup (initial_state i)).
Proof.
  unfold engine_inv, pickup. rewrite segments_emit. simpl.
  unfold scan_step, scan_start, MAX_DRIVING_HRS, RESET_HRS, PICKUP_HRS; simpl.
  split_inv; unfold MAX_DRIVING_HRS; try lra.
  constructor.
Qed.

Lemma drive_hours_le_limit (c : DutyClock) (rem : Q) :
  drive_hours c rem <= hours_to_drive_limit c.
Proof.
  unfold drive_hours.
  eapply Qle_trans; [apply Q.le_min_r | ].
  eapply Qle_trans; [apply Q.le_min_r | ].
  apply Q.le_min_l.
Qed.

Lemma engine_inv_drive (st : EngineState) :
  engine_inv st ->
  engine_inv (drive st (drive_hours (clock st) (remaining st))).
Proof.
  intros Hinv. unfold drive.
  set (d := drive_hours (clock st) (remaining st)).
  case_Qle d 0; [exact Hinv | ].
  unfold engine_inv. simpl clock. simpl segments. rewrite fold_left_app. simpl.
  pose proof (drive_hours_le_limit (clock st) (remaining st)) as Hd.
  fold d in Hd. unfold hours_to_drive_limit in Hd.
  eapply shift_inv_duty; [exact Hinv | reflexivity | | | ];
    unfold duration; simpl; lra.
Qed.

Lemma engine_inv_take_break (st : EngineState) :
  engine_inv st -> engine_inv (take_break st).
Proof.
  intros Hinv. unfold engine_inv, take_break. simpl clock. simpl segments.
  rewrite fold_left_app. simpl.
  eapply shift_inv_rest; [exact Hinv | reflexivity | | ].
  - unfold duration, BREAK_HRS; simpl. lra.
  - left. unfold advance_off_duty, BREAK_HRS, RESET_HRS. simpl. reflexivity.
Qed.

Lemma engine_inv_take_fuel (st : EngineState) :
  engine_inv st -> engine_inv (take_fuel st).
Proof. intros Hinv. exact Hinv. Qed.

Lemma engine_inv_end_shift (st : EngineState) :
  engine_inv st -> engine_inv (end_shift st).
Proof.
  intros Hinv. unfold engine_inv, end_shift. rewrite segments_emit. simpl clock.
  eapply shift_inv_rest; [exact Hinv | reflexivity | | ].
  - unfold duration, RESET_HRS; simpl. lra.
  - right. unfold duration, advance_off_duty, RESET_HRS. simpl.
    split; [lra | reflexivity].
Qed.

Lemma engine_inv_step (st : EngineState) : engine_inv st -> engine_inv (step st).
Proof.
  intros Hinv. unfold step.
  pose proof (engine_inv_drive st Hinv) as Hd.
  destruct (next_trigger (clock st) (remaining st)).
  - apply engine_inv_take_break, Hd.
  - apply engine_inv_take_fuel, Hd.
  - apply engine_inv_end_shift, Hd.
  - exact Hd.
Qed.

Lemma engine_inv_run (budget : nat) (st st' : EngineState) :
  engine_inv st -> run budget st = Planned st' -> engine_inv st'.
Proof.
  revert st. induction budget as [ | budget IH]; intros st Hinv Hrun; simpl in Hrun.
  - discriminate.
  - destruct (Qle_bool (remaining st) 0).
    + injection Hrun as <-. exact Hinv.
    + destruct (cycle_exceeded (step st)); [discriminate | ].
      eapply IH; [ | exact Hrun]. apply engine_inv_step, Hinv.
Qed.

Lemma engine_inv_dropoff (st : EngineState) :
  engine_inv st -> engine_inv (dropoff st).
Proof.
  intros Hinv. unfold dropoff.
  set (st1 := if Qle_bool _ _ then st else end_shift st).
  assert (H1 : engine_inv st1).
  { subst st1. destruct (Qle_bool _ _); [exact Hinv | apply engine_inv_end_shift, Hinv]. }
  unfold engine_inv. rewrite segments_emit. simpl clock.
  destruct H1 as (Hcl & Hop & Hrest & H0 & H11 & Hlink).
  eapply shift_inv_duty; [split_inv; eassumption | reflexivity | | | ];
    unfold duration, DROPOFF_HRS; simpl; lra.
Qed.

(** Every state the simulation returns satisfies the invariant. *)
Lemma engine_inv_simulate (budget : nat) (i : TripInput) (st : EngineState) :
  simulate budget i = Planned st -> engine_inv st.
Proof.
  unfold simulate. destruct (negb (valid_inputb i)); [discriminate | ].
  destruct (cycle_exceeded (pickup (initial_state i))); [discriminate | ].
  destruct (run budget (pickup (initial_state i))) as [st1 | | | ] eqn:Hrun;
    try discriminate.
  destruct (cycle_exceeded (dropoff st1)); [discriminate | ].
  intros H. injection H as <-.
  apply engine_inv_dropoff. eapply engine_inv_run; [ | exact Hrun].
  apply engine_inv_pickup.
Qed.

End EngineInvariant.

Section ScheduleBuilderFacts.
Import Engine.
Local Open Scope Q_scope.

(** The day buckets hold the pieces in their order, each in the hours of
    its day. *)
Lemma bucket_concat (pieces cur : list DutySegment) (k : Z) :
  concat (map snd (bucket pieces k cur)) = (cur ++ map clip_own pieces)%list.
Proof.
  revert k cur. induction pieces as [ | p rest IH]; intros k cur; simpl.
  - rewrite !app_nil_r. reflexivity.
  - destruct (Z.eqb_spec (day_index (start_hour p)) k) as [E | N].
    + rewrite IH, <- app_assoc. unfold clip_own. rewrite E. reflexivity.
    + simpl. rewrite IH. reflexivity.
Qed.

Lemma buckets_concat (pieces : list DutySegment) :
  concat (map snd (buckets pieces)) = map clip_own pieces.
Proof.
  unfold buckets. destruct pieces as [ | p rest]; [reflexivity | ].
  rewrite bucket_concat. reflexivity.
Qed.

Lemma result_stream_build (i : TripInput) (st : EngineState) :
  result_stream (build i st) = map clip_own (split_stream (segments st)).
Proof.
  unfold result_stream, build. simpl. rewrite map_map. simpl.
  apply buckets_concat.
Qed.

Lemma clip_duration (k : Z) (p : DutySegment) : duration (clip k p) == duration p.
Proof. unfold duration, clip. simpl. lra. Qed.

(** Clipping the pieces to their days does not change the scan. *)
Lemma scan_clipped (pieces : list DutySegment) (a b : ShiftScan) :
  scan_equiv a b ->
  scan_equiv (fold_left scan_step (map clip_own pieces) a)
             (fold_left scan_step pieces b).
Proof.
  revert a b. induction pieces as [ | p rest IH]; intros a b Hab; simpl.
  - exact Hab.
  - apply IH. apply scan_step_equiv; [exact Hab | reflexivity | apply clip_duration].
Qed.

(** Splitting the segments at midnight does not change the scan. *)
Lemma scan_split_stream (segs : list DutySegment) (a b : ShiftScan) :
  scan_equiv a b ->
  scan_equiv (fold_left scan_step (split_stream segs) a)
             (fold_left scan_step segs b).
Proof.
  unfold split_stream.
  revert a b. induction segs as [ | s rest IH]; intros a b Hab; simpl.
  - exact Hab.
  - rewrite fold_left_app. apply IH. apply split_segment_scan. exact Hab.
Qed.

Lemma Forall_le_Qeq (l1 l2 : list Q) (bound : Q) :
  Forall2 Qeq l1 l2 ->
  Forall (fun h => h <= bound) l2 -> Forall (fun h => h <= bound) l1.
Proof.
  induction 1 as [ | x y l1 l2 Hxy _ IH]; intros H; [constructor | ].
  inversion H as [ | y' l' Hy Hl]; subst.
  constructor; [rewrite Hxy; exact Hy | apply IH; exact Hl].
Qed.

(** The shifts of the result are those of the simulated stream. *)
Lemma shift_driving_hours_build (i : TripInput) (st : EngineState) :
  Forall2 Qeq (shift_driving_hours (result_stream (build i st)))
              (shift_driving_hours (segments st)).
Proof.
  unfold shift_driving_hours. rewrite result_stream_build.
  assert (H : scan_equiv
                (fold_left scan_step (map clip_own (split_stream (segments st))) scan_start)
                (fold_left scan_step (segments st) scan_start)).
  { eapply scan_equiv_trans.
    - apply scan_clipped. apply scan_equiv_refl.
    - apply scan_split_stream. apply scan_equiv_refl. }
  destruct H as (Hc & Ho & _).
  apply Forall2_app; [exact Hc | ]. constructor; [exact Ho | constructor].
Qed.

End ScheduleBuilderFacts.

Section ShiftCap.
Import Engine.
Local Open Scope Q_scope.

Lemma engine_inv_shifts (st : EngineState) :
  engine_inv st ->
  Forall (fun h => h <= MAX_DRIVING_HRS) (shift_driving_hours (segments st)).
Proof.
  intros (Hcl & Hop & _). unfold shift_driving_hours.
  apply Forall_app. split; [exact Hcl | ]. constructor; [exact Hop | constructor].
Qed.

(** C5. For every valid trip input and every step budget, when the engine
    returns a schedule, the driving hours of each of its shifts (the runs of
    the result's segments, taken over all days in order, that are bounded by
    off-duty/sleeper time of at least 10 hours) are at most 11. *)
Theorem C5_shift_driving_at_most_11
    (budget : nat) (i : TripInput) (r : ScheduleResult) :
  valid_input i ->
  plan_with budget i = Planned r ->
  Forall (fun h => h <= 11) (shift_driving_hours (result_stream r)).
Proof.
  intros _ Hplan. unfold plan_with in Hplan.
  destruct (simulate budget i) as [st | | | ] eqn:Hsim; try discriminate.
  injection Hplan as <-.
  eapply Forall_le_Qeq; [apply shift_driving_hours_build | ].
  apply engine_inv_shifts. eapply engine_inv_simulate. exact Hsim.
Qed.

Lemma plan_trip_855 :
  plan_with (step_budget Sample.trip_855) Sample.trip_855 = Planned Sample.planned_855.
Proof. vm_compute. reflexivity. Qed.

Lemma valid_trip_855 : valid_input Sample.trip_855.
Proof.
  unfold valid_input, Sample.trip_855, CYCLE_LIMIT_HRS.
  cbn [distance_mi cycle_hours_used_start]. lra.
Qed.

Lemma C5_shift_driving_at_most_11_witness :
  valid_input Sample.trip_855
  /\ plan_with (step_budget Sample.trip_855) Sample.trip_855 = Planned Sample.planned_855
  /\ Forall (fun h => h <= 11)
        (shift_driving_hours (result_stream Sample.planned_855)).
Proof.
  split; [exact valid_trip_855 | ]. split; [exact plan_trip_855 | ].
  exact (C5_shift_driving_at_most_11
           (step_budget Sample.trip_855) Sample.trip_855 Sample.planned_855
           valid_trip_855 plan_trip_855).
Defined.

(** The two shifts of that plan drive 11 hours and 50/11 hours, on two days. *)
Example shifts_trip_855 :
  map Qred (shift_driving_hours (result_stream Sample.planned_855)) = [11; 50 # 11]
  /\ map day_num (days Sample.planned_855) = [1%Z; 2%Z].
Proof. vm_compute. split; reflexivity. Qed.

(** Scenario 4 of the specification: the cycle budget is exceeded. *)
Example plan_cycle_exceeded :
  plan {| distance_mi := 2000; cycle_hours_used_start := 68;
          driver_name := ""; carrier_name := "" |} = CycleExceeded.
Proof. vm_compute. reflexivity. Qed.

(** Scenario 5: an invalid input is refused before the simulation. *)
Example plan_invalid_input :
  plan {| distance_mi := 300; cycle_hours_used_start := 71;
          driver_name := ""; carrier_name := "" |} = InvalidInput.
Proof. vm_compute. reflexivity. Qed.

End ShiftCap.

(* ===================================================================== *)
(** ** Trimming *)
(* ===================================================================== *)

Section TrimFacts.

Lemma append_cons (c : ascii) (s t : string) : String c s ++ t = String c (s ++ t).
Proof. reflexivity. Qed.

Lemma append_empty (t : string) : "" ++ t = t.
Proof. reflexivity. Qed.

Lemma string_of_list_app (l1 l2 : list ascii) :
  string_of_list_ascii (l1 ++ l2)
  = string_of_list_ascii l1 ++ string_of_list_ascii l2.
Proof.
  induction l1 as [ | c l1 IH]; [reflexivity | ].
  change (string_of_list_ascii ((c :: l1) ++ l2))
    with (String c (string_of_list_ascii (l1 ++ l2))).
  rewrite IH. reflexivity.
Qed.

Lemma string_rev_cons (c : ascii) (s : string) :
  JS.string_rev (String c s) = JS.string_rev s ++ String c "".
Proof.
  unfold JS.string_rev.
  change (list_ascii_of_string (String c s)) with (c :: list_ascii_of_string s).
  change (List.rev (c :: list_ascii_of_string s))
    with (List.rev (list_ascii_of_string s) ++ [c])%list.
  rewrite string_of_list_app. reflexivity.
Qed.

Lemma string_rev_snoc (s : string) (c : ascii) :
  JS.string_rev (s ++ String c "") = String c (JS.string_rev s).
Proof.
  induction s as [ | x s IH]; [reflexivity | ].
  rewrite append_cons, !string_rev_cons, IH. reflexivity.
Qed.

Lemma string_rev_involutive (s : string) : JS.string_rev (JS.string_rev s) = s.
Proof.
  induction s as [ | c s IH]; [reflexivity | ].
  rewrite string_rev_cons, string_rev_snoc, IH. reflexivity.
Qed.

(** What [trimStart] returns is empty or starts with a character that is
    not white space. *)
Lemma trimStart_head (s : string) :
  JS.trimStart s = ""
  \/ exists c s', JS.trimStart s = String c s' /\ JS.is_ws c = false.
Proof.
  induction s as [ | c s IH]; simpl; [left; reflexivity | ].
  destruct (JS.is_ws c) eqn:E; [exact IH | ].
  right. exists c, s. split; [reflexivity | exact E].
Qed.

Lemma trimStart_fixed (c : ascii) (s : string) :
  JS.is_ws c = false -> JS.trimStart (String c s) = String c s.
Proof. intros H. simpl. rewrite H. reflexivity. Qed.

Lemma trimStart_idempotent (s : string) :
  JS.trimStart (JS.trimStart s) = JS.trimStart s.
Proof.
  destruct (trimStart_head s) as [-> | (c & s' & -> & Hc)]; [reflexivity | ].
  apply trimStart_fixed, Hc.
Qed.

Lemma trimStart_snoc (s : string) (c : ascii) :
  JS.is_ws c = false ->
  JS.trimStart (s ++ String c "") = JS.trimStart s ++ String c "".
Proof.
  intros Hc. induction s as [ | x s IH].
  - rewrite append_empty. apply trimStart_fixed, Hc.
  - rewrite append_cons.
    change (JS.trimStart (String x (s ++ String c "")))
      with (if JS.is_ws x then JS.trimStart (s ++ String c "")
            else String x (s ++ String c "")).
    change (JS.trimStart (String x s))
      with (if JS.is_ws x then JS.trimStart s else String x s).
    destruct (JS.is_ws x); [exact IH | reflexivity].
Qed.

Lemma trimEnd_idempotent (s : string) : JS.trimEnd (JS.trimEnd s) = JS.trimEnd s.
Proof.
  unfold JS.trimEnd. rewrite string_rev_involutive, trimStart_idempotent. reflexivity.
Qed.

(** [trimEnd] keeps a first character that is not white space. *)
Lemma trimEnd_head (c : ascii) (s : string) :
  JS.is_ws c = false ->
  exists s', JS.trimEnd (String c s) = String c s'.
Proof.
  intros Hc. unfold JS.trimEnd.
  rewrite string_rev_cons, trimStart_snoc by exact Hc.
  rewrite string_rev_snoc. eexists. reflexivity.
Qed.

Lemma trimEnd_empty : JS.trimEnd "" = "".
Proof. reflexivity. Qed.


(** A trimmed string neither starts nor ends with white space. *)
Lemma trim_no_outer_space (s : string) :
  JS.trimStart (JS.trim s) = JS.trim s /\ JS.trimEnd (JS.trim s) = JS.trim s.
Proof.
  split.
  - unfold JS.trim.
    destruct (trimStart_head s) as [-> | (c & s' & -> & Hc)]; [reflexivity | ].
    destruct (trimEnd_head c s' Hc) as [t ->]. apply trimStart_fixed, Hc.
  - unfold JS.trim. apply trimEnd_idempotent.
Qed.

End TrimFacts.

(* ===================================================================== *)
(** ** TripForm: what validation reports and what is sent *)
(* ===================================================================== *)

Section TripFormMore.
Import TripForm TripFormHandlers.












End TripFormMore.

(* ===================================================================== *)
(** ** RouteMap: where a stop marker is put *)
(* ===================================================================== *)

Section RouteMapMore.
Import Schedule RouteMap.
Local Open Scope Q_scope.

Lemma Math_max_Fin (a b : Q) :
  JS.Math_max (JS.Fin a) (JS.Fin b) = JS.Fin (if JS.Qltb a b then b else a).
Proof. unfold JS.Math_max. simpl. destruct (JS.Qltb a b); reflexivity. Qed.

Lemma Math_min_Fin (a b : Q) :
  JS.Math_min (JS.Fin a) (JS.Fin b) = JS.Fin (if JS.Qltb b a then b else a).
Proof. unfold JS.Math_min. simpl. destruct (JS.Qltb b a); reflexivity. Qed.

Lemma Qeqb_false (x : Q) : ~ x == 0 -> JS.Qeqb x 0 = false.
Proof.
  intros H. unfold JS.Qeqb. destruct (Qeq_bool x 0) eqn:E; [ | reflexivity].
  apply Qeq_bool_iff in E. contradiction.
Qed.

(** An integer index inside the array reads the element at that index. *)
Lemma array_get_integer {A : Type} (arr : list A) (x : Q) (z : Z) :
  x == inject_Z z -> (0 <= z)%Z ->
  JS.array_get arr (JS.Fin x) = nth_error arr (Z.to_nat z).
Proof.
  intros Hx Hz. unfold JS.array_get.
  assert (Hf : Qfloor x = z) by (rewrite (Qfloor_comp _ _ Hx); apply Qfloor_Z).
  rewrite Hf.
  assert (E1 : JS.Qeqb x (inject_Z z) = true) by (apply Qeq_bool_iff; exact Hx).
  assert (E2 : JS.Qltb x 0 = false).
  { apply Qltb_ge. rewrite Hx. change 0 with (inject_Z 0). rewrite <- Zle_Qle. exact Hz. }
  rewrite E1, E2. reflexivity.
Qed.

Lemma latlngs_length (r : route) : length (latlngs r) = length (geometry r).
Proof. unfold latlngs. apply length_map. Qed.

(** X4. A stop that carries a mileage [miles_in >= 0] (as the fuel stops of
    the contract do) gets, on every route with a non-empty geometry (an
    array, so of fewer than 2^32 points), an integer index inside the
    polyline, and its marker is put on the route point with that index,
    never on undefined; this holds whatever the binary64 quotient and
    product round to, also when they overflow. *)
Theorem stop_with_mileage_is_on_route
    (k : marker_kind) (r : route) (s : stop) (q : Q) :
  miles_in s = Some q ->
  0 <= q ->
  geometry r <> [] ->
  (Z.of_nat (length (geometry r)) < 2 ^ 32)%Z ->
  let n := Z.of_nat (length (geometry r)) in
  exists (i : Z) (pt : Q * Q),
    (0 <= i < n)%Z
    /\ stop_index r s = JS.of_Z i
    /\ nth_error (latlngs r) (Z.to_nat i) = Some pt
    /\ position (stop_marker k r s) = Some pt.
Proof.
  intros Hm Hq Hne Hlen n.
  assert (Hn : (1 <= n)%Z).
  { subst n. destruct (geometry r); [congruence | simpl; lia]. }
  set (m := if JS.Qltb (distance_mi r) (inject_Z 1) then inject_Z 1 else distance_mi r).
  assert (Hm1 : 1 <= m).
  { subst m. destruct (JS.Qltb (distance_mi r) (inject_Z 1)) eqn:E.
    - unfold inject_Z. lra.
    - apply Qltb_ge in E. unfold inject_Z in *. lra. }
  assert (Hnq : 1 <= inject_Z n).
  { change 1 with (inject_Z 1). rewrite <- Zle_Qle. exact Hn. }
  assert (Hlast : JS.sub (JS.of_Z n) (JS.of_Z 1) = JS.of_Z (n - 1)).
  { unfold JS.sub, JS.of_Z. cbn [JS.neg JS.add].
    rewrite (round64_comp _ (inject_Z (n - 1)))
      by (rewrite <- inject_Z_opp, <- inject_Z_plus; reflexivity).
    apply round64_Z. fold n in Hlen. lia. }
  (* the index is either the last one or the floor of a non-negative number *)
  assert (Hidx : exists i : Z, (0 <= i < n)%Z /\ stop_index r s = JS.of_Z i).
  { unfold stop_index, miles_in_get. rewrite Hm, latlngs_length. fold n.
    rewrite Hlast. cbn [JS.ToNumber].
    change (JS.of_Z 1) with (JS.Fin (inject_Z 1)). rewrite Math_max_Fin. fold m.
    assert (Hinf : JS.Math_min (JS.Math_floor (JS.mul JS.PInf (JS.of_Z n))) (JS.of_Z (n - 1))
                   = JS.of_Z (n - 1)).
    { unfold JS.mul, JS.of_Z. cbn [JS.is_zero JS.nonneg orb].
      rewrite (Qeqb_false (inject_Z n)) by lra.
      assert (E : JS.Qltb (inject_Z n) 0 = false) by (apply Qltb_ge; lra).
      rewrite E. reflexivity. }
    unfold JS.div. rewrite (Qeqb_false m) by lra.
    destruct (round64_nonneg (q / m)) as [E | [E Hf]].
    { apply Qle_shift_div_l; lra. }
    { rewrite E. exists (n - 1)%Z. split; [lia | exact Hinf]. }
    rewrite E. set (f := JS.round64_Q (q / m)) in *.
    change (JS.of_Z n) with (JS.Fin (inject_Z n)). cbn [JS.mul].
    destruct (round64_nonneg (f * inject_Z n)) as [E' | [E' Hp]].
    { apply Qmult_le_0_compat; lra. }
    { rewrite E'. exists (n - 1)%Z. split; [lia | ].
      unfold JS.of_Z. reflexivity. }
    rewrite E'. set (p := JS.round64_Q (f * inject_Z n)) in *.
    unfold JS.Math_floor. set (z := Qfloor p).
    assert (Hz : (0 <= z)%Z).
    { subst z. change 0%Z with (Qfloor 0). apply Qfloor_resp_le. exact Hp. }
    unfold JS.of_Z. rewrite Math_min_Fin.
    destruct (JS.Qltb (inject_Z (n - 1)) (inject_Z z)) eqn:Ec.
    - exists (n - 1)%Z. split; [lia | reflexivity].
    - apply Qltb_ge in Ec. rewrite <- Zle_Qle in Ec.
      exists z. split; [lia | reflexivity]. }
  destruct Hidx as (i & Hi & Hidx).
  assert (Hlt : (Z.to_nat i < length (latlngs r))%nat).
  { rewrite latlngs_length. subst n. lia. }
  destruct (nth_error (latlngs r) (Z.to_nat i)) as [pt | ] eqn:Hpt.
  - exists i, pt. split; [exact Hi | ]. split; [exact Hidx | ].
    split; [exact Hpt | ].
    unfold stop_marker. cbn [position]. rewrite Hidx. unfold JS.of_Z.
    rewrite (array_get_integer _ _ i) by (reflexivity || lia). exact Hpt.
  - exfalso. apply List.nth_error_None in Hpt. lia.
Qed.

Lemma stop_with_mileage_is_on_route_witness :
  let r := Sample.sample_route in
  let s := {| stop_day := 2; time_str := "05:40 AM"; miles_in := Some 600 |} in
  let n := Z.of_nat (length (geometry r)) in
  exists (i : Z) (pt : Q * Q),
    (0 <= i < n)%Z
    /\ stop_index r s = JS.of_Z i
    /\ nth_error (latlngs r) (Z.to_nat i) = Some pt
    /\ position (stop_marker FuelStop r s) = Some pt.
Proof.
  apply (stop_with_mileage_is_on_route FuelStop Sample.sample_route
           {| stop_day := 2; time_str := "05:40 AM"; miles_in := Some 600 |} 600).
  - reflexivity.
  - lra.
  - discriminate.
  - reflexivity.
Defined.

Example fuel_marker_sample :
  position (stop_marker FuelStop Sample.sample_route
              {| stop_day := 2; time_str := "05:40 AM"; miles_in := Some 600 |})
  = Some (3278 # 100, -9680 # 100).
Proof. vm_compute. reflexivity. Qed.

(** Binary64 quotient and product: 1000 miles into a route of 1062 miles
    with 531 points is point 499, where the exact quotient gives 500. *)
Example fuel_marker_rounding :
  let r := {| geometry := repeat (0, 0) 531; distance_mi := 1062 |} in
  let s := {| stop_day := 1; time_str := "10:00 AM"; miles_in := Some 1000 |} in
  stop_index r s = JS.of_Z 499
  /\ Qfloor (1000 / 1062 * 531) = 500%Z.
Proof. vm_compute. split; reflexivity. Qed.

End RouteMapMore.

(* ===================================================================== *)
(** ** Hours shown as hours and minutes *)
(* ===================================================================== *)

Section MinuteRounding.
Import ELDLogs TripSummaryCards.
Local Open Scope Q_scope.


Example formatHrs_sample :
  formatHrs (311 # 20) = "15h 33m" /\ formatHrs (239 # 240) = "0h 60m".
Proof. split; vm_compute; reflexivity. Qed.

(** Binary64 product: 0.425 hours (the binary64 number nearest to it) are
    shown as 26 minutes, its product with 60 being rounded to 25.5 before
    [Math.round]; the exact product is a little below 25.5. *)
Example formatHrs_rounding :
  formatHrs (JS.round64_Q (425 # 1000)) = "0h 26m"
  /\ Qfloor (JS.round64_Q (425 # 1000) * 60 + (1 # 2)) = 25%Z.
Proof. split; vm_compute; reflexivity. Qed.

Lemma Qfloor_whole_minutes (k : Z) : Qfloor (inject_Z k / 60) = (k / 60)%Z.
Proof.
  unfold Qdiv, Qmult, Qinv, inject_Z, Qfloor. simpl.
  rewrite Z.mul_1_r. reflexivity.
Qed.

(** The text of [fmtHr] from its hour and its minutes, for an hour of the
    day. *)
Lemma fmtHr_text (t : Q) (k : Z) :
  (0 <= k < 1440)%Z ->
  fmtHr_h t = (k / 60)%Z ->
  fmtHr_m t = (k mod 60)%Z ->
  fmtHr t
  = JS.string_of_Z (if (k / 60 =? 0)%Z then 12
                    else if (k / 60 <=? 12)%Z then k / 60 else k / 60 - 12)
    ++ ":" ++ JS.padStart 2 "0" (JS.string_of_Z (k mod 60)) ++ " "
    ++ (if (k <? 720)%Z then "AM" else "PM").
Proof.
  intros Hk Hh Hm. set (h := (k / 60)%Z) in *.
  unfold fmtHr, fmtHr_dh, fmtHr_period. rewrite Hm, Hh.
  assert (Hrange : (0 <= h <= 23)%Z).
  { subst h. split; [apply Z.div_pos; lia | ].
    assert (k / 60 < 24)%Z by (apply Z.div_lt_upper_bound; lia). lia. }
  assert (Hnoon : (h <? 12)%Z = (k <? 720)%Z).
  { subst h. destruct (Z.ltb_spec k 720) as [H | H].
    - apply Z.ltb_lt. apply Z.div_lt_upper_bound; lia.
    - apply Z.ltb_ge. apply Z.div_le_lower_bound; lia. }
  rewrite Hnoon.
  destruct (Z.eqb_spec h 0); [reflexivity | ].
  destruct (Z.gtb_spec h 12); destruct (Z.leb_spec h 12); try lia; reflexivity.
Qed.

(** Hour and minutes of a value within [2^-48] of the whole minute k/60. *)
Lemma fmtHr_near_whole_minute (t : Q) (k : Z) :
  (0 <= k < 1440)%Z ->
  inject_Z (k / 60) <= t ->
  Qabs (t - inject_Z k / 60) <= JS.pow2 (-48) ->
  fmtHr_h t = (k / 60)%Z /\ fmtHr_m t = (k mod 60)%Z.
Proof.
  intros Hk Hlo Hnear.
  set (h := (k / 60)%Z) in *.
  pose proof (Z.mod_pos_bound k 60 ltac:(lia)) as Hmod.
  assert (HK : inject_Z k == 60 * inject_Z h + inject_Z (k mod 60)).
  { subst h. rewrite (Z.div_mod k 60) at 1 by lia.
    rewrite inject_Z_plus, inject_Z_mult. reflexivity. }
  assert (Hj : 0 <= inject_Z (k mod 60) <= 59).
  { change 0 with (inject_Z 0). change 59 with (inject_Z 59).
    rewrite <- !Zle_Qle. lia. }
  assert (E : inject_Z k / 60 == inject_Z h + inject_Z (k mod 60) * (1 # 60)).
  { rewrite HK. field. }
  rewrite E in Hnear. apply Qabs_Qle_condition in Hnear.
  assert (HE : JS.pow2 (-48) <= 1 # 1000 /\ JS.pow2 (-46) <= 1 # 1000)
    by (split; vm_compute; discriminate).
  destruct HE as [HE48 HE46].
  set (e48 := JS.pow2 (-48)) in *. set (e46 := JS.pow2 (-46)) in *.
  set (j := inject_Z (k mod 60)) in *.
  assert (Hh : fmtHr_h t = h).
  { unfold fmtHr_h. apply Qfloor_unique; [exact Hlo | ].
    rewrite inject_Z_plus. change (inject_Z 1) with 1. lra. }
  split; [exact Hh | ].
  unfold fmtHr_m. rewrite Hh.
  destruct (rounded_minutes t) as (_ & _ & Herr).
  fold (fmtHr_h t) in Herr. rewrite Hh in Herr. fold e46 in Herr.
  set (p := JS.round64_Q (JS.round64_Q (t - inject_Z h) * 60)) in *.
  apply Qabs_Qle_condition in Herr.
  apply Qfloor_unique.
  - fold j. lra.
  - rewrite inject_Z_plus. change (inject_Z 1) with 1. fold j. lra.
Qed.

(** X7. When the hour value is a whole number of minutes k/60 of a day
    (0 <= k < 1440), [fmtHr] prints exactly that time on a 12-hour clock:
    hour 12 for 0 and 12 o'clock, AM before noon, and the minutes k mod 60,
    which are below 60; and it prints the same for the binary64 number
    nearest to k/60. *)
Theorem fmtHr_exact_on_whole_minutes (k : Z) :
  (0 <= k < 1440)%Z ->
  let t := inject_Z k / 60 in
  let h := (k / 60)%Z in
  fmtHr_m t = (k mod 60)%Z
  /\ (0 <= fmtHr_m t <= 59)%Z
  /\ fmtHr t
     = JS.string_of_Z (if (h =? 0)%Z then 12 else if (h <=? 12)%Z then h else h - 12)
       ++ ":" ++ JS.padStart 2 "0" (JS.string_of_Z (k mod 60)) ++ " "
       ++ (if (k <? 720)%Z then "AM" else "PM")
  /\ fmtHr (JS.round64_Q t) = fmtHr t.
Proof.
  intros Hk t h.
  pose proof (Z.mod_pos_bound k 60 ltac:(lia)) as Hmod.
  assert (HE : 0 < JS.pow2 (-48)) by apply pow2_pos.
  assert (Hth : inject_Z h <= t).
  { subst t h. apply Qle_shift_div_l; [reflexivity | ].
    rewrite <- (inject_Z_mult _ 60), <- Zle_Qle.
    pose proof (Z.mul_div_le k 60 ltac:(lia)). lia. }
  destruct (fmtHr_near_whole_minute t k Hk Hth) as [Hh Hm].
  { assert (E : t - inject_Z k / 60 == 0) by (subst t; ring).
    rewrite E. apply Qabs_Qle_condition. split; lra. }
  split; [exact Hm | ]. split; [lia | ].
  split; [exact (fmtHr_text t k Hk Hh Hm) | ].
  assert (Ht : 0 <= t < 24).
  { subst t. split.
    - apply Qle_shift_div_l; [reflexivity | ].
      change (0 * 60) with (inject_Z 0). rewrite <- Zle_Qle. lia.
    - apply Qlt_shift_div_r; [reflexivity | ].
      change (24 * 60) with (inject_Z 1440). rewrite <- Zlt_Qlt. lia. }
  assert (Hb : Qabs t <= JS.pow2 5).
  { change (JS.pow2 5) with 32. apply Qabs_Qle_condition. split; lra. }
  destruct (round64_bounded t 5 Hb ltac:(lia)) as (_ & _ & Herr).
  destruct (fmtHr_near_whole_minute (JS.round64_Q t) k Hk) as [Hh' Hm'].
  { apply round64_Q_ge_Z; [exact Hth | ].
    assert (0 <= h <= 23)%Z.
    { subst h. split; [apply Z.div_pos; lia | ].
      assert (k / 60 < 24)%Z by (apply Z.div_lt_upper_bound; lia). lia. }
    lia. }
  { exact Herr. }
  rewrite (fmtHr_text t k Hk Hh Hm), (fmtHr_text _ k Hk Hh' Hm'). reflexivity.
Qed.

Lemma fmtHr_exact_on_whole_minutes_witness :
  let k := 1172%Z in
  let t := inject_Z k / 60 in
  let h := (k / 60)%Z in
  fmtHr_m t = (k mod 60)%Z
  /\ (0 <= fmtHr_m t <= 59)%Z
  /\ fmtHr t
     = JS.string_of_Z (if (h =? 0)%Z then 12 else if (h <=? 12)%Z then h else h - 12)
       ++ ":" ++ JS.padStart 2 "0" (JS.string_of_Z (k mod 60)) ++ " "
       ++ (if (k <? 720)%Z then "AM" else "PM")
  /\ fmtHr (JS.round64_Q t) = fmtHr t.
Proof.
  apply (fmtHr_exact_on_whole_minutes 1172). lia.
Defined.

Example fmtHr_samples :
  fmtHr (39 # 2) = "7:30 PM" /\ fmtHr 0 = "12:00 AM" /\ fmtHr (61 # 5) = "12:12 PM".
Proof. repeat split; vm_compute; reflexivity. Qed.

End MinuteRounding.

(* ===================================================================== *)
(** ** ELDLogs: remarks, unknown statuses, missing totals *)
(* ===================================================================== *)

Section SheetEdges.
Import Schedule ELDLogs SheetGeometry.
Local Open Scope Q_scope.

Lemma remarks_step_pen (mt : string -> Q) (st : remarks_state) (s : segment) :
  (forall l, 0 <= mt l) ->
  remarks_pen_ok mt st -> remarks_pen_ok mt (remarks_step mt st s).
Proof.
  intros Hmt (Hx & Hy & Hent). unfold remarks_step.
  set (label := fmtHr (start s) ++ " — " ++ note_text s).
  pose proof (Hmt label) as Hw.
  destruct (JS.Qltb (inject_Z (CW - M - 8)) (rx st + (mt label + 22))) eqn:Ewrap.
  - (* the entry starts a new line *)
    destruct (JS.Qltb (inject_Z (REM_TOP + REM_H - 6)) (ry st + 14)) eqn:Eover;
      unfold remarks_pen_ok; simpl.
    + split; [lra | ]. split; [lra | exact Hent].
    + apply Qltb_ge in Eover.
      split; [lra | ]. split; [lra | ].
      apply Forall_app. split; [exact Hent | ].
      constructor; [ | constructor]. simpl.
      split; [lra | ]. split; [lra | ]. split; [exact Eover | left; reflexivity].
  - apply Qltb_ge in Ewrap.
    destruct (JS.Qltb (inject_Z (REM_TOP + REM_H - 6)) (ry st)) eqn:Eover;
      unfold remarks_pen_ok; simpl.
    + split; [exact Hx | ]. split; [exact Hy | exact Hent].
    + apply Qltb_ge in Eover.
      split; [lra | ]. split; [exact Hy | ].
      apply Forall_app. split; [exact Hent | ].
      constructor; [ | constructor]. simpl.
      split; [exact Hx | ]. split; [exact Hy | ]. split; [exact Eover | right; exact Ewrap].
Qed.

Lemma remarks_fold_pen (mt : string -> Q) (segs : list segment) (st : remarks_state) :
  (forall l, 0 <= mt l) ->
  remarks_pen_ok mt st ->
  remarks_pen_ok mt (fold_left (remarks_step mt) segs st).
Proof.
  intros Hmt. revert st. induction segs as [ | s segs IH]; intros st Hst; simpl.
  - exact Hst.
  - apply IH, remarks_step_pen; assumption.
Qed.

(** X8. Whatever the timeline holds, every remarks entry [drawELDLog] writes
    lies inside the remarks box (text widths being non-negative): at or
    right of the text margin, on a text line between the first line and the
    last usable one, and within the right margin unless it is alone at the
    start of its line.  Entries that would fall below the box are not
    written. *)
Theorem remarks_stay_in_box (mt : string -> Q) (d : day) (inf : info) :
  (forall l, 0 <= mt l) ->
  Forall (remark_in_box mt)
         (List.filter is_remark (fst (drawELDLog mt d inf))).
Proof.
  intros Hmt. rewrite drawELDLog_remarks. unfold remarks.
  apply (remarks_fold_pen mt (noteSegs (timeline d))); [exact Hmt | ].
  unfold remarks_pen_ok. simpl. split; [lra | ]. split; [lra | constructor].
Qed.

Lemma remarks_stay_in_box_witness :
  Forall (remark_in_box (fun l => inject_Z (Z.of_nat (String.length l)) * 4))
         (List.filter is_remark
            (fst (drawELDLog (fun l => inject_Z (Z.of_nat (String.length l)) * 4)
                    Sample.day1
                    (DayLog_info Sample.day1 "11/01/2026" Sample.sample_meta)))).
Proof.
  apply (remarks_stay_in_box
           (fun l => inject_Z (Z.of_nat (String.length l)) * 4)
           Sample.day1 (DayLog_info Sample.day1 "11/01/2026" Sample.sample_meta)).
  intros l. apply Qmult_le_0_compat; [ | lra].
  change 0 with (inject_Z 0). rewrite <- Zle_Qle. lia.
Defined.

(** X9. A segment whose status is neither one of the four duty statuses nor
    a property name inherited from Object.prototype leaves no trace on the
    sheet: the lines, connectors and remarks are those of the timeline
    without it. *)
Theorem unknown_status_leaves_no_trace
    (mt : string -> Q) (l1 l2 : list segment) (s : segment) :
  ~ In (status s) statusKeys ->
  ~ In (status s) JS.Object_prototype_keys ->
  activity (l1 ++ s :: l2) = activity (l1 ++ l2)
  /\ remarks mt (l1 ++ s :: l2) = remarks mt (l1 ++ l2).
Proof.
  intros H1 H2. unfold activity, remarks, noteSegs.
  rewrite (validSegs_drops l1 l2 s H1 H2). split; reflexivity.
Qed.

Lemma unknown_status_leaves_no_trace_witness :
  let mt := fun _ : string => 60 in
  let l1 := [ Sample.seg "off_duty" 0 1 None ] in
  let l2 := [ Sample.seg "driving" 2 3 None ] in
  activity (l1 ++ Sample.resting_segment :: l2) = activity (l1 ++ l2)
  /\ remarks mt (l1 ++ Sample.resting_segment :: l2) = remarks mt (l1 ++ l2).
Proof.
  apply (unknown_status_leaves_no_trace (fun _ : string => 60)
           [ Sample.seg "off_duty" 0 1 None ] [ Sample.seg "driving" 2 3 None ]
           Sample.resting_segment).
  - simpl. intros H. repeat (destruct H as [H | H]; [discriminate H | ]). exact H.
  - simpl. intros H. repeat (destruct H as [H | H]; [discriminate H | ]). exact H.
Defined.

(** X10. When the day's totals lack the [driving] key, [drawELDLog] has
    drawn the header, the four row totals (the driving row reading 0.00),
    the lines and the remarks, and then throws while building the
    recapitulation, no line of which is drawn; the day header's pills throw
    as well. *)
Theorem missing_driving_total_throws (mt : string -> Q) (d : day) (inf : info) :
  totals d !! "driving" = None ->
  drawELDLog mt d inf
  = ((header inf ++ row_totals d ++ activity (timeline d)
      ++ remarks mt (timeline d))%list, false)
  /\ rowHours d 2 = "0.00"
  /\ List.filter is_recap (fst (drawELDLog mt d inf)) = []
  /\ DayLog_pills d = None.
Proof.
  intros H.
  assert (Hrec : recapRows d = None).
  { unfold recapRows, totals_get. rewrite H. reflexivity. }
  split; [unfold drawELDLog; rewrite Hrec; reflexivity | ].
  split; [apply rowHours_missing; exact H | ].
  split; [rewrite drawELDLog_recap, Hrec; reflexivity | ].
  unfold DayLog_pills, totals_get. rewrite H. reflexivity.
Qed.

Lemma missing_driving_total_throws_witness :
  let mt := fun _ : string => 60 in
  let d := Sample.day_without_driving in
  let inf := DayLog_info Sample.day_without_driving "11/03/2026" Sample.sample_meta in
  drawELDLog mt d inf
  = ((header inf ++ row_totals d ++ activity (timeline d)
      ++ remarks mt (timeline d))%list, false)
  /\ rowHours d 2 = "0.00"
  /\ List.filter is_recap (fst (drawELDLog mt d inf)) = []
  /\ DayLog_pills d = None.
Proof.
  apply (missing_driving_total_throws (fun _ : string => 60)
           Sample.day_without_driving
           (DayLog_info Sample.day_without_driving "11/03/2026" Sample.sample_meta)).
  vm_compute. reflexivity.
Defined.

(** X11. When the totals have [driving] but lack [on_duty], [drawELDLog]
    returns normally: the on-duty row prints 0.00 while line A of the
    recapitulation prints "NaN hrs", line B prints the driving hours, and
    the day header's pills throw. *)
Theorem missing_on_duty_total_prints_NaN
    (mt : string -> Q) (d : day) (inf : info) (q : Q) :
  totals d !! "driving" = Some q ->
  totals d !! "on_duty" = None ->
  snd (drawELDLog mt d inf) = true
  /\ rowHours d 3 = "0.00"
  /\ nth_error (List.filter is_recap (fst (drawELDLog mt d inf))) 0
     = Some (RecapRow "A. On Duty Today (Lines 3 & 4)" "NaN hrs"
               (inject_Z (REM_TOP + 4 + 23 + 0 * 13)))
  /\ nth_error (List.filter is_recap (fst (drawELDLog mt d inf))) 1
     = Some (RecapRow "B. Driving Today (Line 3)" (JS.toFixedQ 2 q ++ " hrs")
               (inject_Z (REM_TOP + 4 + 23 + (0 + 1) * 13)))
  /\ DayLog_pills d = None.
Proof.
  intros Hd Ho.
  assert (Hrec : exists c,
             recapRows d = Some
               [ ("A. On Duty Today (Lines 3 & 4)", "NaN hrs");
                 ("B. Driving Today (Line 3)", JS.toFixedQ 2 q ++ " hrs");
                 ("C. Off Duty Today (Lines 1 & 2)", c) ]).
  { unfold recapRows, totals_get. rewrite Hd, Ho. simpl. eexists. reflexivity. }
  destruct Hrec as [c Hrec].
  split; [unfold drawELDLog; rewrite Hrec; reflexivity | ].
  split; [apply rowHours_missing; exact Ho | ].
  rewrite drawELDLog_recap, Hrec.
  split; [reflexivity | ]. split; [reflexivity | ].
  unfold DayLog_pills, totals_get. rewrite Hd, Ho. reflexivity.
Qed.

Lemma missing_on_duty_total_prints_NaN_witness :
  let mt := fun _ : string => 60 in
  let d := Sample.day_without_on_duty in
  let inf := DayLog_info Sample.day_without_on_duty "11/03/2026" Sample.sample_meta in
  snd (drawELDLog mt d inf) = true
  /\ rowHours d 3 = "0.00"
  /\ nth_error (List.filter is_recap (fst (drawELDLog mt d inf))) 0
     = Some (RecapRow "A. On Duty Today (Lines 3 & 4)" "NaN hrs"
               (inject_Z (REM_TOP + 4 + 23 + 0 * 13)))
  /\ nth_error (List.filter is_recap (fst (drawELDLog mt d inf))) 1
     = Some (RecapRow "B. Driving Today (Line 3)" (JS.toFixedQ 2 4 ++ " hrs")
               (inject_Z (REM_TOP + 4 + 23 + (0 + 1) * 13)))
  /\ DayLog_pills d = None.
Proof.
  apply (missing_on_duty_total_prints_NaN (fun _ : string => 60)
           Sample.day_without_on_duty
           (DayLog_info Sample.day_without_on_duty "11/03/2026" Sample.sample_meta) 4).
  - vm_compute. reflexivity.
  - vm_compute. reflexivity.
Defined.

End SheetEdges.

(* ===================================================================== *)
(** ** ELDLogs: the duty graph of a contract timeline *)
(* ===================================================================== *)

Section DutyGraph.
Import Schedule ELDLogs SheetGeometry.
Local Open Scope Q_scope.

Lemma x_of_hour_in_grid (t : Q) : 0 <= t -> t <= 24 -> in_grid_x (x_of_hour t).
Proof.
  intros H0 H24. unfold in_grid_x, x_of_hour, JS.of_Z.
  unfold JS.div. rewrite (Qeqb_false (inject_Z 24)) by discriminate.
  change (inject_Z 24) with 24.
  destruct (round64_between (t / 24) 0 1) as (E1 & B1).
  { change (inject_Z 0) with 0. change (inject_Z 1) with 1.
    split; [apply Qle_shift_div_l | apply Qle_shift_div_r]; lra. }
  { vm_compute. discriminate. }
  { vm_compute. discriminate. }
  rewrite E1. set (f := JS.round64_Q (t / 24)) in *.
  change (inject_Z 0) with 0 in B1. change (inject_Z 1) with 1 in B1.
  cbn [JS.mul]. change (inject_Z GRID_W) with 736.
  destruct (round64_between (f * 736) 0 736) as (E2 & B2).
  { change (inject_Z 0) with 0. change (inject_Z 736) with 736. split; lra. }
  { vm_compute. discriminate. }
  { vm_compute. discriminate. }
  rewrite E2. set (g := JS.round64_Q (f * 736)) in *.
  change (inject_Z 0) with 0 in B2. change (inject_Z 736) with 736 in B2.
  cbn [JS.add]. change (inject_Z GRID_X) with 88.
  destruct (round64_between (88 + g) 88 824) as (E3 & B3).
  { change (inject_Z 88) with 88. change (inject_Z 824) with 824. split; lra. }
  { vm_compute. discriminate. }
  { vm_compute. discriminate. }
  rewrite E3. eexists. split; [reflexivity | ].
  change (inject_Z (GRID_X + GRID_W)) with (inject_Z 824). exact B3.
Qed.

(** A duty status has a row between 0 and 3 and a colour of its own. *)
Lemma status_row_colour (k : string) :
  In k statusKeys ->
  (exists r, (0 <= r <= 3)%Z /\ JS.obj_get STATUS_ROW k = JS.VNum (JS.of_Z r))
  /\ In (JS.obj_get STATUS_COLOR k) (map snd STATUS_COLOR).
Proof.
  intros [<- | [<- | [<- | [<- | []]]]]; (split; [eexists; split; [ | reflexivity]; lia | ]);
    simpl; tauto.
Qed.

Lemma activity_step_graph (st : activity_state) (s : segment) :
  contract_segment s -> graph_ok st -> graph_ok (activity_step st s).
Proof.
  intros (Hk & Hs0 & Hs24 & He0 & He24) (Hrow & Hx & Hstrokes).
  destruct (status_row_colour (status s) Hk) as ((r & Hr & Erow) & Hcol).
  unfold activity_step. rewrite Erow.
  pose proof (x_of_hour_in_grid (start s) Hs0 Hs24) as Hsx.
  pose proof (x_of_hour_in_grid (end_ s) He0 He24) as Hex.
  assert (Hcy : on_row_centre (cy_of_row (JS.VNum (JS.of_Z r))))
    by (exists r; split; [exact Hr | reflexivity]).
  unfold graph_ok. simpl.
  split; [exists r; split; [exact Hr | reflexivity] | ].
  split; [exact Hex | ].
  apply Forall_app. split; [exact Hstrokes | ].
  apply Forall_app. split.
  - destruct (prevRow st) as [pr | ]; [ | constructor].
    destruct (prevEndX st) as [px | ]; [ | constructor].
    destruct (negb (JS.strict_eq pr (JS.VNum (JS.of_Z r)))); [ | constructor].
    constructor; [ | constructor]. simpl.
    destruct Hrow as (r' & Hr' & ->).
    split; [exact Hcol | ]. split; [exact Hx | ]. split; [exact Hx | ].
    split; [exists r'; split; [exact Hr' | reflexivity] | ].
    split; [exact Hcy | left; reflexivity].
  - constructor; [ | constructor]. simpl.
    split; [exact Hcol | ]. split; [exact Hsx | ]. split; [exact Hex | ].
    split; [exact Hcy | ]. split; [exact Hcy | right; reflexivity].
Qed.

Lemma activity_fold_graph (segs : list segment) (st : activity_state) :
  Forall contract_segment segs -> graph_ok st ->
  graph_ok (fold_left activity_step segs st).
Proof.
  intros Hsegs. revert st. induction Hsegs as [ | s segs Hs _ IH]; intros st Hst; simpl.
  - exact Hst.
  - apply IH, activity_step_graph; assumption.
Qed.

Lemma validSegs_contract (tl : list segment) :
  Forall contract_segment tl -> validSegs tl = tl.
Proof.
  intros H. unfold validSegs. apply filter_all.
  eapply List.Forall_impl; [ | exact H].
  intros s (Hk & _). simpl.
  destruct (status_row_colour (status s) Hk) as ((r & _ & ->) & _). reflexivity.
Qed.

(** X12. For a timeline of the output contract (each status one of the four
    tags, start and end within 0..24), no segment is filtered out and every
    line of the duty graph stays on the grid: its colour is one of the four
    status colours, both ends lie between the grid's left and right edges at
    the middle height of one of the four rows, and it is horizontal (an
    activity line) or vertical (a connector). *)
Theorem duty_graph_stays_on_grid (mt : string -> Q) (d : day) (inf : info) :
  Forall contract_segment (timeline d) ->
  validSegs (timeline d) = timeline d
  /\ Forall stroke_in_grid (List.filter is_stroke (fst (drawELDLog mt d inf))).
Proof.
  intros H. split; [apply validSegs_contract; exact H | ].
  rewrite drawELDLog_strokes. unfold activity.
  rewrite (validSegs_contract _ H).
  apply (activity_fold_graph (timeline d)); [exact H | ].
  unfold graph_ok. simpl. repeat split. constructor.
Qed.

Lemma sample_day1_contract : Forall contract_segment (timeline Sample.day1).
Proof.
  unfold Sample.day1, Sample.seg. simpl.
  repeat (constructor; [unfold contract_segment; simpl; repeat split; try lra; tauto | ]).
  constructor.
Qed.

Lemma duty_graph_stays_on_grid_witness :
  let inf := DayLog_info Sample.day1 "11/01/2026" Sample.sample_meta in
  validSegs (timeline Sample.day1) = timeline Sample.day1
  /\ Forall stroke_in_grid
       (List.filter is_stroke (fst (drawELDLog (fun _ => 60) Sample.day1 inf))).
Proof.
  apply (duty_graph_stays_on_grid (fun _ => 60) Sample.day1
           (DayLog_info Sample.day1 "11/01/2026" Sample.sample_meta)).
  exact sample_day1_contract.
Defined.

(** The graph of the sample day: six activity lines and five connectors. *)
Example duty_graph_sample : length (activity (timeline Sample.day1)) = 11%nat.
Proof. vm_compute. reflexivity. Qed.

End DutyGraph.

Section DutyGraphCount.
Import Schedule ELDLogs SheetGeometry.

Lemma status_row_injective (k1 k2 : string) :
  In k1 statusKeys -> In k2 statusKeys ->
  JS.strict_eq (JS.obj_get STATUS_ROW k1) (JS.obj_get STATUS_ROW k2) = String.eqb k1 k2.
Proof.
  intros [<- | [<- | [<- | [<- | []]]]] [<- | [<- | [<- | [<- | []]]]]; reflexivity.
Qed.

Lemma activity_count_from (segs : list segment) (st : activity_state)
    (k0 : string) (x : JS.number) :
  Forall contract_segment segs ->
  In k0 statusKeys ->
  prevRow st = Some (JS.obj_get STATUS_ROW k0) ->
  prevEndX st = Some x ->
  length (strokes (fold_left activity_step segs st))
  = (length (strokes st) + length segs + status_changes k0 segs)%nat.
Proof.
  intros Hsegs. revert st k0 x.
  induction Hsegs as [ | s segs Hs _ IH]; intros st k0 x Hk0 Hrow Hx; simpl.
  - lia.
  - destruct Hs as (Hk & _).
    rewrite (IH (activity_step st s) (status s) (x_of_hour (end_ s)) Hk eq_refl eq_refl).
    unfold activity_step at 1. simpl. rewrite Hrow, Hx.
    rewrite (status_row_injective k0 (status s) Hk0 Hk).
    rewrite !length_app.
    destruct (String.eqb k0 (status s)); simpl; lia.
Qed.

(** X13. On a contract timeline the duty graph has one activity line per
    segment and one connector for every segment whose status differs from
    the status of the segment before it; nothing is drawn for an empty
    timeline. *)
Theorem duty_graph_line_count (s0 : segment) (rest : list segment) :
  Forall contract_segment (s0 :: rest) ->
  length (activity (s0 :: rest))
  = (length (s0 :: rest) + status_changes (status s0) rest)%nat
  /\ activity [] = [].
Proof.
  intros H. split; [ | reflexivity].
  unfold activity. rewrite (validSegs_contract _ H).
  inversion H as [ | s l Hs Hrest]; subst.
  destruct Hs as (Hk & _). simpl fold_left.
  rewrite (activity_count_from rest
             (activity_step {| prevRow := None; prevEndX := None; strokes := [] |} s0)
             (status s0) (x_of_hour (end_ s0)) Hrest Hk eq_refl eq_refl).
  simpl. lia.
Qed.

Lemma duty_graph_line_count_witness :
  length (activity (timeline Sample.day1))
  = (length (timeline Sample.day1)
     + status_changes "on_duty" (List.tl (timeline Sample.day1)))%nat
  /\ activity [] = [].
Proof.
  apply (duty_graph_line_count (Sample.seg "on_duty" 0 1 (Some "Pickup"))
           (List.tl (timeline Sample.day1))).
  exact sample_day1_contract.
Defined.

End DutyGraphCount.

(* ===================================================================== *)
(** ** TripSummary: totals with a missing key *)
(* ===================================================================== *)

Section SummaryEdges.
Import Schedule TripSummary TripSummaryCards.

Lemma add_NaN_l (a : JS.number) : JS.add JS.NaN a = JS.NaN.
Proof. reflexivity. Qed.

Lemma add_NaN_r (a : JS.number) : JS.add a JS.NaN = JS.NaN.
Proof. destruct a; reflexivity. Qed.

Lemma totalOnDuty_NaN_absorbs (ds : list day) :
  fold_left
    (fun sum d =>
       JS.add (JS.add sum (JS.ToNumber (totals_get d "driving")))
              (JS.ToNumber (totals_get d "on_duty")))
    ds JS.NaN = JS.NaN.
Proof. induction ds as [ | d ds IH]; simpl; [reflexivity | exact IH]. Qed.

Lemma day_rows_missing (ds : list day) (d : day) :
  In d ds ->
  (totals d !! "driving" = None \/ totals d !! "on_duty" = None) ->
  day_rows ds = None.
Proof.
  intros Hin Hmiss. induction ds as [ | d' ds IH]; [destruct Hin | ].
  destruct Hin as [-> | Hin].
  - cbn [day_rows]. unfold day_row, totals_get.
    destruct Hmiss as [H | H]; rewrite H; [reflexivity | ].
    destruct (totals d !! "driving"); reflexivity.
  - cbn [day_rows]. rewrite (IH Hin).
    destruct (day_row d'); reflexivity.
Qed.

(** X14. If some day of the schedule lacks [totals.driving] or
    [totals.on_duty], the sum of on-duty hours is NaN, the text computed for
    the remaining cycle hours is "NaN" with a green accent, and none of it
    is shown: the render throws in the daily breakdown. *)
Theorem missing_total_breaks_summary (sch : schedule) (d : day) :
  In d (days sch) ->
  (totals d !! "driving" = None \/ totals d !! "on_duty" = None) ->
  totalOnDuty (days sch) = JS.NaN
  /\ cycleRemaining sch = "NaN"
  /\ cycle_accent sch = "green"
  /\ render sch = None.
Proof.
  intros Hin Hmiss.
  assert (Htot : totalOnDuty (days sch) = JS.NaN).
  { pose proof Hin as Hin'.
    apply in_split in Hin'. destruct Hin' as (l1 & l2 & E). rewrite E.
    unfold totalOnDuty. rewrite fold_left_app. simpl.
    match goal with
    | |- fold_left ?f l2 ?acc = _ =>
        assert (E' : acc = JS.NaN); [ | rewrite E'; apply totalOnDuty_NaN_absorbs]
    end.
    unfold totals_get.
    destruct Hmiss as [H | H]; rewrite H; simpl.
    - rewrite add_NaN_r. reflexivity.
    - apply add_NaN_r. }
  assert (Hrem : cycleRemaining sch = "NaN").
  { unfold cycleRemaining, cycleRemaining_value. rewrite Htot.
    unfold JS.sub at 1. cbn [JS.neg]. rewrite add_NaN_r. reflexivity. }
  split; [exact Htot | ]. split; [exact Hrem | ].
  split.
  - unfold cycle_accent. rewrite Hrem. reflexivity.
  - unfold render. rewrite (day_rows_missing _ d Hin Hmiss). reflexivity.
Qed.

Lemma missing_total_breaks_summary_witness :
  let sch := {| days := [Sample.day1; Sample.day_without_on_duty];
                fuel_stops := []; rest_stops := [];
                stats := stats Sample.sample_schedule |} in
  totalOnDuty (days sch) = JS.NaN
  /\ cycleRemaining sch = "NaN"
  /\ cycle_accent sch = "green"
  /\ render sch = None.
Proof.
  apply (missing_total_breaks_summary
           {| days := [Sample.day1; Sample.day_without_on_duty];
              fuel_stops := []; rest_stops := [];
              stats := stats Sample.sample_schedule |}
           Sample.day_without_on_duty).
  - simpl. tauto.
  - right. vm_compute. reflexivity.
Defined.

End SummaryEdges.

(* ===================================================================== *)
(** ** ELDLogs: the filter and the colours *)
(* ===================================================================== *)

Section FilterAndColours.
Import Schedule ELDLogs.

(** X15. The filter before drawing keeps exactly the segments whose status
    is a key of [STATUS_ROW] or a property name every object inherits from
    Object.prototype (such as "constructor" or "toString"); the kept
    segments stay in their order. *)
Theorem filter_keeps_own_and_inherited_names (tl : list segment) (s : segment) :
  In s (validSegs tl) <->
  In s tl /\ (In (status s) statusKeys \/ In (status s) JS.Object_prototype_keys).
Proof.
  unfold validSegs. rewrite List.filter_In, negb_true_iff, validSegs_keeps.
  reflexivity.
Qed.

(** X16. The total of a row is printed in the colour of the activity lines
    of that row: for the status [k] of row [r], the fill style of the
    [r]-th total, read by position from [STATUS_COLOR], is the stroke style
    [STATUS_COLOR[k]] of a segment with that status. *)
Theorem row_total_has_the_colour_of_its_lines
    (mt : string -> Q) (d : day) (inf : info) (s : segment) (r : nat) :
  In (status s, r)
     [("off_duty", 0%nat); ("sleeper", 1%nat); ("driving", 2%nat); ("on_duty", 3%nat)] ->
  exists text x y,
    nth_error (List.filter is_row_total (fst (drawELDLog mt d inf))) r
    = Some (RowTotal text x y (JS.obj_get STATUS_COLOR (status s)))
    /\ forall st, In (StrokeLine (JS.obj_get STATUS_COLOR (status s))
                        (x_of_hour (start s))
                        (cy_of_row (JS.VNum (JS.of_Z (Z.of_nat r))))
                        (x_of_hour (end_ s))
                        (cy_of_row (JS.VNum (JS.of_Z (Z.of_nat r)))))
                     (strokes (activity_step st s)).
Proof.
  intros Hin. rewrite drawELDLog_row_totals.
  destruct Hin as [E | [E | [E | [E | []]]]]; injection E as Hk <-; rewrite <- Hk;
    eexists; eexists; eexists; (split; [reflexivity | ]);
    intros st; unfold activity_step; rewrite <- Hk; simpl;
    apply List.in_or_app; right; apply List.in_or_app; right; left; reflexivity.
Qed.

Lemma row_total_has_the_colour_of_its_lines_witness :
  exists text x y,
    nth_error (List.filter is_row_total
                 (fst (drawELDLog (fun _ => 60%Q) Sample.day1
                         (DayLog_info Sample.day1 "11/01/2026" Sample.sample_meta)))) 2
    = Some (RowTotal text x y (JS.VStr "#d97706"))
    /\ forall st, In (StrokeLine (JS.VStr "#d97706")
                        (x_of_hour 1)
                        (cy_of_row (JS.VNum (JS.of_Z (Z.of_nat 2))))
                        (x_of_hour 9)
                        (cy_of_row (JS.VNum (JS.of_Z (Z.of_nat 2)))))
                     (strokes (activity_step st (Sample.seg "driving" 1 9 None))).
Proof.
  apply (row_total_has_the_colour_of_its_lines (fun _ => 60%Q) Sample.day1
           (DayLog_info Sample.day1 "11/01/2026" Sample.sample_meta)
           (Sample.seg "driving" 1 9 None) 2%nat).
  simpl. tauto.
Defined.

End FilterAndColours.

(* ===================================================================== *)
(** ** App: a pending and a successful request *)
(* ===================================================================== *)

Section AppMore.
Import Schedule App Stated.

(** X17. Starting a plan hides whatever was shown before: while the request
    is pending the page shows the loading card alone.  When the response
    carries [success: true] the page shows the results of that response
    alone, and no error, whatever error or trip the state held earlier. *)
Theorem success_replaces_what_was_shown (st : app_state) (o : post_outcome) :
  failed o = false ->
  render (handlePlanTrip_begin st)
  = [LoadingCard "Calculating route & applying FMCSA HOS rules…"]
  /\ exists body, o = Resolved body
       /\ error (handlePlanTrip o st) = ""
       /\ tripData (handlePlanTrip o st) = Some (body_trip body)
       /\ render (handlePlanTrip o st) = [Results (body_trip body)].
Proof.
  intros Hf. split; [reflexivity | ].
  destruct o as [body | re message]; [ | discriminate].
  exists body. split; [reflexivity | ].
  unfold handlePlanTrip, handlePlanTrip_end, handlePlanTrip_begin, render.
  simpl in Hf. apply negb_false_iff in Hf. rewrite Hf. simpl.
  repeat split; reflexivity.
Qed.

Lemma success_replaces_what_was_shown_witness :
  let st := {| loading := false; loadMsg := ""; error := "Could not geocode";
               tripData := None |} in
  let o := Resolved {| success := true; body_error := None;
                       body_trip := Sample.sample_trip |} in
  render (handlePlanTrip_begin st)
  = [LoadingCard "Calculating route & applying FMCSA HOS rules…"]
  /\ exists body, o = Resolved body
       /\ error (handlePlanTrip o st) = ""
       /\ tripData (handlePlanTrip o st) = Some (body_trip body)
       /\ render (handlePlanTrip o st) = [Results (body_trip body)].
Proof.
  apply (success_replaces_what_was_shown
           {| loading := false; loadMsg := ""; error := "Could not geocode";
              tripData := None |}
           (Resolved {| success := true; body_error := None;
                        body_trip := Sample.sample_trip |})).
  reflexivity.
Defined.

End AppMore.

(* ===================================================================== *)
(** ** TripSummary: what is rendered, and when the cycle card turns red *)
(* ===================================================================== *)

Section CycleAccent.
Import Schedule TripSummary TripSummaryCards Stated Digits.

Lemma take_digits_all (s r : string) (acc : N) (len : nat) :
  all_digits s = true ->
  JS.take_digits (s ++ r) acc len
  = JS.take_digits r (digits_value s acc) (len + String.length s).
Proof.
  revert acc len. induction s as [ | c s IH]; intros acc len H.
  - rewrite append_empty. simpl. rewrite Nat.add_0_r. reflexivity.
  - rewrite append_cons. simpl in *. destruct (JS.digit_of c); [ | discriminate].
    rewrite (IH _ _ H). f_equal. lia.
Qed.

Lemma all_digits_app (a b : string) :
  all_digits (a ++ b) = (all_digits a && all_digits b)%bool.
Proof.
  induction a as [ | c a IH].
  - rewrite append_empty. reflexivity.
  - rewrite append_cons. simpl. destruct (JS.digit_of c); [exact IH | reflexivity].
Qed.

Lemma digits_value_app (a b : string) (acc : N) :
  all_digits a = true ->
  digits_value (a ++ b) acc = digits_value b (digits_value a acc).
Proof.
  revert acc. induction a as [ | c a IH]; intros acc H.
  - rewrite append_empty. reflexivity.
  - rewrite append_cons. simpl in *. destruct (JS.digit_of c); [ | discriminate].
    apply IH, H.
Qed.

Lemma uint_digits (d : Decimal.uint) :
  all_digits (NilEmpty.string_of_uint d) = true.
Proof. induction d; simpl; auto. Qed.

Lemma uint_value (d : Decimal.uint) (acc : N) :
  digits_value (NilEmpty.string_of_uint d) acc
  = (acc * 10 ^ DecimalPos.Unsigned.usize d + DecimalPos.Unsigned.of_lu (Decimal.rev d))%N.
Proof.
  revert acc. induction d; intros acc;
    [ simpl; lia | .. ];
    cbn [NilEmpty.string_of_uint digits_value DecimalPos.Unsigned.usize];
    match goal with
    | |- context [JS.digit_of ?c] =>
        let v := eval vm_compute in (JS.digit_of c) in
        change (JS.digit_of c) with v; cbv iota
    end;
    unfold Decimal.rev; cbn [Decimal.revapp];
    rewrite (DecimalPos.Unsigned.of_lu_revapp d); cbn [DecimalPos.Unsigned.of_lu];
    rewrite IHd, N.pow_succ_r'; lia.
Qed.

Lemma N_to_uint_nonnil (n : N) : N.to_uint n <> Decimal.Nil.
Proof.
  destruct n as [ | p]; [discriminate | ].
  exact (DecimalPos.Unsigned.to_uint_nonnil p).
Qed.

Lemma string_of_N_uint (n : N) :
  JS.string_of_N n = NilEmpty.string_of_uint (N.to_uint n).
Proof.
  unfold JS.string_of_N, NilZero.string_of_uint.
  pose proof (N_to_uint_nonnil n) as H.
  destruct (N.to_uint n); [congruence | reflexivity ..].
Qed.

Lemma string_of_N_digits (n : N) : all_digits (JS.string_of_N n) = true.
Proof. rewrite string_of_N_uint. apply uint_digits. Qed.

Lemma string_of_N_value (n : N) : digits_value (JS.string_of_N n) 0 = n.
Proof.
  rewrite string_of_N_uint, uint_value, N.mul_0_l, N.add_0_l.
  rewrite <- DecimalPos.Unsigned.of_uint_alt.
  exact (DecimalN.Unsigned.of_to n).
Qed.

Lemma string_of_Z_nonneg (z : Z) :
  (0 <= z)%Z -> JS.string_of_Z z = JS.string_of_N (Z.to_N z).
Proof. destruct z as [ | p | p]; intros H; [reflexivity | reflexivity | lia]. Qed.

Lemma zeros_digits (j : nat) : all_digits (JS.repeat_char "0" j) = true.
Proof. induction j as [ | j IH]; [reflexivity | exact IH]. Qed.

Lemma zeros_value (j : nat) : digits_value (JS.repeat_char "0" j) 0 = 0%N.
Proof. induction j as [ | j IH]; [reflexivity | exact IH]. Qed.

Lemma length_append (a b : string) :
  String.length (a ++ b) = (String.length a + String.length b)%nat.
Proof.
  induction a as [ | c a IH]; [rewrite append_empty; reflexivity | ].
  rewrite append_cons. simpl. rewrite IH. reflexivity.
Qed.

Lemma length_repeat_char (c : ascii) (j : nat) :
  String.length (JS.repeat_char c j) = j.
Proof. induction j as [ | j IH]; simpl; [reflexivity | rewrite IH; reflexivity]. Qed.

(** The digits [toFixed] cuts in two: they are decimal digits, at least
    [f + 1] of them, and read back as [n]. *)
Lemma padded_digits (f : nat) (n : Z) :
  (0 <= n)%Z ->
  let m := JS.padStart (S f) "0" (JS.string_of_Z n) in
  all_digits m = true
  /\ digits_value m 0 = Z.to_N n
  /\ (S f <= String.length m)%nat.
Proof.
  intros Hn m. subst m. unfold JS.padStart.
  rewrite (string_of_Z_nonneg n Hn).
  split; [ | split].
  - rewrite all_digits_app, zeros_digits, string_of_N_digits. reflexivity.
  - rewrite digits_value_app by apply zeros_digits.
    rewrite zeros_value. apply string_of_N_value.
  - rewrite length_append, length_repeat_char. lia.
Qed.

Lemma substring_all (m : string) : String.substring 0 (String.length m) m = m.
Proof. induction m as [ | c m IH]; simpl; [reflexivity | rewrite IH; reflexivity]. Qed.

Lemma take_drop (m : string) (k : nat) :
  (k <= String.length m)%nat ->
  JS.string_take k m ++ JS.string_drop k m = m
  /\ String.length (JS.string_take k m) = k.
Proof.
  unfold JS.string_take, JS.string_drop.
  revert k. induction m as [ | c m IH]; intros k Hk.
  - simpl in Hk. assert (k = 0)%nat as -> by lia. simpl. split; reflexivity.
  - destruct k as [ | k].
    + cbn [String.length Nat.sub]. cbn [String.substring].
      rewrite append_empty, substring_all. split; reflexivity.
    + simpl in Hk. cbn [String.length Nat.sub String.substring].
      destruct (IH k ltac:(lia)) as [E L].
      rewrite append_cons, E. cbn [String.length]. rewrite L. split; reflexivity.
Qed.

Lemma no_Infinity_prefix (s : string) (c : ascii) (d : N) :
  JS.digit_of c = Some d -> String.prefix "Infinity" (String c s) = false.
Proof.
  intros H. cbn [String.prefix].
  destruct (ascii_dec "I" c) as [<- | ne]; [vm_compute in H; discriminate | reflexivity].
Qed.

Lemma take_digits_stop (s : string) (acc : N) (len : nat) :
  JS.take_digits (String "." s) acc len = (acc, len, String "." s).
Proof. reflexivity. Qed.

Lemma take_digits_end (s : string) (acc : N) (len : nat) :
  all_digits s = true ->
  JS.take_digits s acc len = (digits_value s acc, (len + String.length s)%nat, "").
Proof.
  revert acc len. induction s as [ | c s IH]; intros acc len H.
  - simpl. rewrite Nat.add_0_r. reflexivity.
  - simpl in *. destruct (JS.digit_of c); [ | discriminate].
    rewrite (IH _ _ H). f_equal. f_equal. lia.
Qed.

Lemma parse_signed_digit (c : ascii) (s : string) (d : N) :
  JS.digit_of c = Some d ->
  JS.parse_signed (String c s) = JS.parse_unsigned (String c s).
Proof.
  intros H.
  destruct c as [[] [] [] [] [] [] [] []];
    try reflexivity; vm_compute in H; discriminate.
Qed.

(** A literal with digits on both sides of the point. *)
Lemma parse_unsigned_fixed (c : ascii) (a b : string) :
  all_digits (String c a) = true ->
  all_digits b = true ->
  JS.parse_unsigned (String c (a ++ "." ++ b))
  = (JS.round64 (inject_Z (Z.of_N (digits_value (String c a ++ b) 0))
                 * Qpower (10 # 1) (0 - Z.of_nat (String.length b)))%Q, "").
Proof.
  intros Ha Hb.
  assert (Hc : exists d, JS.digit_of c = Some d).
  { simpl in Ha. destruct (JS.digit_of c) as [d | ]; [exists d; reflexivity | discriminate]. }
  destruct Hc as [d Hc].
  unfold JS.parse_unsigned.
  rewrite (no_Infinity_prefix _ c d Hc).
  rewrite <- append_cons.
  rewrite (take_digits_all (String c a) ("." ++ b) 0 0 Ha).
  rewrite append_cons, append_empty, take_digits_stop.
  rewrite (take_digits_end b _ 0 Hb).
  rewrite (digits_value_app (String c a) b 0 Ha).
  cbn [String.length Nat.add].
  reflexivity.
Qed.

(** Reading back what [toFixed] wrote: [parseFloat(x.toFixed(f))] is the
    binary64 number nearest to n / 10^f, for the integer n nearest to
    [x * 10^f]. *)
Lemma parseFloat_toFixedQ (f : nat) (x : Q) :
  (0 <= x)%Q ->
  JS.parseFloat (JS.toFixedQ (S f) x)
  = JS.round64 (inject_Z (JS.scaled_round (S f) x)
                * Qpower (10 # 1) (0 - Z.of_nat (S f)))%Q.
Proof.
  intros Hx.
  assert (Hn : (0 <= JS.scaled_round (S f) x)%Z).
  { unfold JS.scaled_round. apply Qfloor_resp_le with (x := 0%Q) (y := _).
    assert (0 <= inject_Z (10 ^ Z.of_nat (S f)))%Q.
    { change 0%Q with (inject_Z 0). rewrite <- Zle_Qle. apply Z.pow_nonneg. lia. }
    nra. }
  unfold JS.toFixedQ.
  assert (Hneg : JS.Qltb x 0 = false).
  { unfold JS.Qltb. destruct (Qlt_le_dec x 0); [lra | reflexivity]. }
  rewrite Hneg.
  assert (Habs : JS.scaled_round (S f) (Qabs x) = JS.scaled_round (S f) x).
  { unfold JS.scaled_round. apply Qfloor_comp. rewrite (Qabs_pos x Hx). reflexivity. }
  rewrite Habs.
  set (n := JS.scaled_round (S f) x) in *.
  destruct (padded_digits (S f) n Hn) as (Hd & Hv & Hl).
  set (m := JS.padStart (S (S f)) "0" (JS.string_of_Z n)) in *.
  destruct (take_drop m (String.length m - S f) ltac:(lia)) as [E L].
  set (a := JS.string_take (String.length m - S f) m) in *.
  set (b := JS.string_drop (String.length m - S f) m) in *.
  assert (Hab : all_digits a = true /\ all_digits b = true).
  { rewrite <- E, all_digits_app in Hd. apply andb_true_iff in Hd. exact Hd. }
  destruct Hab as [Ha Hb].
  assert (Lb : String.length b = S f).
  { pose proof (f_equal String.length E) as EL. rewrite length_append in EL. lia. }
  rewrite append_empty.
  destruct a as [ | c a'] eqn:Ea; [simpl in L; lia | ].
  assert (Hc : exists d, JS.digit_of c = Some d).
  { simpl in Ha. destruct (JS.digit_of c) as [d | ]; [exists d; reflexivity | discriminate]. }
  destruct Hc as [d Hc].
  rewrite append_cons.
  rewrite parseFloat_unfold.
  assert (Hws : JS.is_ws c = false).
  { unfold JS.digit_of in Hc. unfold JS.is_ws.
    destruct (N.leb 48 (N_of_ascii c) && N.leb (N_of_ascii c) 57)%bool eqn:Hr; [ | discriminate].
    apply andb_true_iff in Hr. destruct Hr as [H1 H2].
    apply N.leb_le in H1. apply N.leb_le in H2.
    repeat (apply orb_false_iff; split); apply N.eqb_neq; lia. }
  cbn [JS.trimStart]. rewrite Hws.
  rewrite (parse_signed_digit c _ d Hc).
  rewrite (parse_unsigned_fixed c a' b Ha Hb).
  cbn [fst]. rewrite E, Hv, Lb, Z2N.id by exact Hn.
  reflexivity.
Qed.


Lemma Math_max_zero_Fin (b : JS.number) (r : Q) :
  JS.Math_max (JS.of_Z 0) b = JS.Fin r -> (0 <= r)%Q.
Proof.
  destruct b as [ | | | y]; simpl; try discriminate.
  - intros [= <-]. apply Qle_refl.
  - unfold JS.Qltb. destruct (Qlt_le_dec (inject_Z 0) y) as [H | H]; intros [= <-].
    + apply Qlt_le_weak, H.
    + apply Qle_refl.
Qed.

Lemma Math_max_zero_not_NInf (b : JS.number) :
  JS.Math_max (JS.of_Z 0) b <> JS.NInf.
Proof.
  destruct b as [ | | | y]; simpl; try discriminate.
  destruct (JS.Qltb (inject_Z 0) y); discriminate.
Qed.

(** The nearest integer to [10 r] is below 100 exactly when [r < 9.95]. *)
Lemma scaled_below_100 (r : Q) :
  (JS.scaled_round 1 r < 100)%Z <-> (r < 199 # 20)%Q.
Proof.
  unfold JS.scaled_round.
  change (inject_Z (10 ^ Z.of_nat 1)) with (10 # 1)%Q.
  set (y := (r * (10 # 1) + (1 # 2))%Q).
  pose proof (Qfloor_le y) as Hlo. pose proof (Qlt_floor y) as Hhi.
  assert (Hy : (y < 100 <-> r < 199 # 20)%Q) by (subst y; split; intros; lra).
  rewrite <- Hy.
  split; intros H.
  - assert (Hz' : (Qfloor y + 1 <= 100)%Z) by lia.
    rewrite Zle_Qle in Hz'. change (inject_Z 100) with 100%Q in Hz'. lra.
  - rewrite Zlt_Qlt. change (inject_Z 100) with 100%Q. lra.
Qed.

(** A text with one decimal, read back as a binary64 number, is below 10
    exactly when its tenths are below 100. *)
Lemma tenths_below_ten (n : Z) :
  (0 <= n)%Z ->
  JS.lt (JS.round64 (inject_Z n * Qpower (10 # 1) (0 - Z.of_nat 1))) (JS.of_Z 10) = true
  <-> (n < 100)%Z.
Proof.
  intros Hn.
  change (Qpower (10 # 1) (0 - Z.of_nat 1)) with (/ (10 # 1))%Q.
  set (x := (inject_Z n * / (10 # 1))%Q).
  assert (Hx : (x * 10 == inject_Z n)%Q) by (subst x; field).
  assert (Hn0 : (0 <= inject_Z n)%Q).
  { change 0%Q with (inject_Z 0). rewrite <- Zle_Qle. exact Hn. }
  split.
  - intros Hlt.
    destruct (Z_lt_le_dec n 100) as [H | H]; [exact H | exfalso].
    assert (Hq : (100 <= inject_Z n)%Q).
    { change 100%Q with (inject_Z 100). rewrite <- Zle_Qle. exact H. }
    assert (H10 : (inject_Z 10 <= JS.round64_Q x)%Q).
    { apply round64_Q_ge_Z; [change (inject_Z 10) with 10%Q; lra | vm_compute; discriminate]. }
    destruct (round64_cases x) as [E | [[E _] | [_ Hneg]]].
    + rewrite E in Hlt. cbn [JS.lt JS.of_Z] in Hlt. apply Qltb_lt in Hlt. lra.
    + rewrite E in Hlt. discriminate Hlt.
    + pose proof (pow2_pos 1024). change (inject_Z 10) with 10%Q in H10. lra.
  - intros H.
    assert (Hq : (inject_Z n <= 99)%Q).
    { change 99%Q with (inject_Z 99). rewrite <- Zle_Qle. lia. }
    destruct (round64_between x 0 10) as (E & B).
    { change (inject_Z 0) with 0%Q. change (inject_Z 10) with 10%Q. split; lra. }
    { vm_compute. discriminate. }
    { vm_compute. discriminate. }
    rewrite E. cbn [JS.lt JS.of_Z]. apply Qltb_lt.
    apply Qle_lt_trans with (JS.round64_Q (99 # 10)).
    + apply round64_Q_mono. lra.
    + vm_compute. reflexivity.
Qed.

Lemma cycle_accent_of_finite (sch : schedule) (r : Q) :
  cycleRemaining_value sch = JS.Fin r ->
  (0 <= r)%Q
  /\ cycleRemaining sch = JS.toFixedQ 1 r
  /\ (cycle_accent sch = "red" <-> (r < 199 # 20)%Q).
Proof.
  intros Hv.
  assert (Hr : (0 <= r)%Q).
  { unfold cycleRemaining_value in Hv. exact (Math_max_zero_Fin _ _ Hv). }
  split; [exact Hr | ].
  unfold cycle_accent, cycleRemaining. rewrite Hv. cbn [JS.toFixed].
  split; [reflexivity | ].
  rewrite (parseFloat_toFixedQ 0 r Hr).
  assert (Hn : (0 <= JS.scaled_round 1 r)%Z).
  { unfold JS.scaled_round. change 0%Z with (Qfloor 0). apply Qfloor_resp_le.
    change (inject_Z (10 ^ Z.of_nat 1)) with 10%Q. lra. }
  rewrite <- scaled_below_100, <- (tenths_below_ten _ Hn).
  destruct (JS.lt _ _); split; intros H; try reflexivity; discriminate H.
Qed.

(** The accent of the cycle card, for any value of the remaining hours. *)
Lemma cycle_accent_red_iff (sch : schedule) :
  cycle_accent sch = "red"
  <-> exists r, cycleRemaining_value sch = JS.Fin r /\ (r < 199 # 20)%Q.
Proof.
  destruct (cycleRemaining_value sch) as [ | | | r] eqn:Hv.
  - split; [ | intros (r & H & _); discriminate H].
    unfold cycle_accent, cycleRemaining. rewrite Hv.
    intros H. vm_compute in H. discriminate H.
  - split; [ | intros (r & H & _); discriminate H].
    unfold cycle_accent, cycleRemaining. rewrite Hv.
    intros H. vm_compute in H. discriminate H.
  - exfalso. exact (Math_max_zero_not_NInf _ Hv).
  - destruct (cycle_accent_of_finite sch r Hv) as (_ & _ & Hacc).
    rewrite Hacc. split.
    + intros H. exists r. split; [reflexivity | exact H].
    + intros (r' & [= <-] & H). exact H.
Qed.

(** Sums of non-negative hours: a non-negative number or +Infinity. *)
Lemma add_nonneg (a : JS.number) (y : Q) :
  (a = JS.PInf \/ exists t, a = JS.Fin t /\ (0 <= t)%Q) ->
  (0 <= y)%Q ->
  JS.add a (JS.Fin y) = JS.PInf
  \/ exists t, JS.add a (JS.Fin y) = JS.Fin t /\ (0 <= t)%Q.
Proof.
  intros [-> | (t & -> & Ht)] Hy.
  - left. reflexivity.
  - cbn [JS.add]. destruct (round64_nonneg (t + y)) as [E | [E Hr]]; [lra | | ].
    + left. exact E.
    + right. eexists. split; [exact E | exact Hr].
Qed.

Lemma totalOnDuty_nonneg (ds : list day) (a : JS.number) :
  (forall d, In d ds ->
     is_Some (totals d !! "driving") /\ is_Some (totals d !! "on_duty")) ->
  (forall d, In d ds -> (0 <= hours d "driving" /\ 0 <= hours d "on_duty")%Q) ->
  (a = JS.PInf \/ exists t, a = JS.Fin t /\ (0 <= t)%Q) ->
  let s := fold_left
      (fun sum d =>
         JS.add (JS.add sum (JS.ToNumber (totals_get d "driving")))
                (JS.ToNumber (totals_get d "on_duty")))
      ds a in
  s = JS.PInf \/ exists t, s = JS.Fin t /\ (0 <= t)%Q.
Proof.
  revert a. induction ds as [ | d ds IH]; intros a Hall Hpos Ha; [exact Ha | ].
  destruct (Hall d (or_introl eq_refl)) as [Hd Ho].
  destruct (Hpos d (or_introl eq_refl)) as [Hd0 Ho0].
  cbn [fold_left].
  rewrite (totals_get_hours d "driving" Hd), (totals_get_hours d "on_duty" Ho).
  apply IH.
  - intros d' Hd'. apply Hall. right. exact Hd'.
  - intros d' Hd'. apply Hpos. right. exact Hd'.
  - apply add_nonneg; [apply add_nonneg; assumption | exact Ho0].
Qed.

(** With non-negative hours and a non-negative cycle start the remaining
    hours are a finite number. *)
Lemma cycleRemaining_finite (sch : schedule) :
  (forall d, In d (days sch) ->
     is_Some (totals d !! "driving") /\ is_Some (totals d !! "on_duty")) ->
  (forall d, In d (days sch) -> (0 <= hours d "driving" /\ 0 <= hours d "on_duty")%Q) ->
  (0 <= cycle_used_start (stats sch))%Q ->
  exists r, cycleRemaining_value sch = JS.Fin r.
Proof.
  intros Hall Hpos Hcus.
  unfold cycleRemaining_value, totalOnDuty.
  pose proof (totalOnDuty_nonneg (days sch) (JS.of_Z 0) Hall Hpos) as Hs.
  cbv zeta in Hs.
  destruct Hs as [Es | (t & Es & Ht)].
  { right. exists 0%Q. split; [reflexivity | apply Qle_refl]. }
  - (* the sum overflowed: 70 - cus - Infinity = -Infinity *)
    rewrite Es. unfold JS.sub, JS.of_Z. cbn [JS.neg].
    set (a := JS.add (JS.Fin (inject_Z 70)) (JS.Fin (- cycle_used_start (stats sch)))).
    assert (Ha : a <> JS.PInf /\ a <> JS.NaN).
    { subst a. cbn [JS.add].
      destruct (round64_cases (inject_Z 70 + - cycle_used_start (stats sch)))
        as [E | [[E Hbig] | [E _]]]; rewrite E; try (split; discriminate).
      exfalso.
      assert (Hle : (JS.round64_Q (inject_Z 70 + - cycle_used_start (stats sch))
                     <= inject_Z 70)%Q).
      { apply round64_Q_le_Z; [lra | vm_compute; discriminate]. }
      assert (inject_Z 70 < JS.pow2 1024)%Q by (vm_compute; reflexivity).
      lra. }
    destruct Ha as [Ha1 Ha2].
    destruct a; try congruence; eexists; reflexivity.
  - rewrite Es. unfold JS.sub, JS.of_Z. cbn [JS.neg].
    set (a := JS.add (JS.Fin (inject_Z 70)) (JS.Fin (- cycle_used_start (stats sch)))).
    assert (Ha : a = JS.NInf \/ exists x, a = JS.Fin x /\ (x <= 70)%Q).
    { subst a. cbn [JS.add].
      assert (Hle : (JS.round64_Q (inject_Z 70 + - cycle_used_start (stats sch))
                     <= inject_Z 70)%Q).
      { apply round64_Q_le_Z; [lra | vm_compute; discriminate]. }
      destruct (round64_cases (inject_Z 70 + - cycle_used_start (stats sch)))
        as [E | [[E Hbig] | [E _]]]; rewrite E.
      - right. eexists. split; [reflexivity | exact Hle].
      - exfalso. assert (inject_Z 70 < JS.pow2 1024)%Q by (vm_compute; reflexivity). lra.
      - left. reflexivity. }
    destruct Ha as [-> | (x & -> & Hx)].
    + eexists. reflexivity.
    + cbn [JS.add].
      destruct (round64_cases (x + - t)) as [E | [[E Hbig] | [E _]]]; rewrite E.
      * cbn [JS.Math_max JS.lt]. destruct (JS.Qltb _ _); eexists; reflexivity.
      * exfalso.
        assert (Hle : (JS.round64_Q (x + - t) <= inject_Z 70)%Q).
        { apply round64_Q_le_Z; [change (inject_Z 70) with 70%Q; lra | vm_compute; discriminate]. }
        assert (inject_Z 70 < JS.pow2 1024)%Q by (vm_compute; reflexivity). lra.
      * eexists. reflexivity.
Qed.

Lemma day_rows_present (ds : list day) :
  (forall d, In d ds ->
     is_Some (totals d !! "driving") /\ is_Some (totals d !! "on_duty")) ->
  exists rows, day_rows ds = Some rows /\ length rows = length ds.
Proof.
  induction ds as [ | d ds IH]; intros Hall.
  - exists []. split; reflexivity.
  - destruct (Hall d (or_introl eq_refl)) as [[a Ha] [b Hb]].
    destruct IH as (rows & Hrows & Hlen).
    { intros d' Hd'. apply Hall. right. exact Hd'. }
    cbn [day_rows]. unfold day_row, totals_get. rewrite Ha, Hb, Hrows.
    eexists. split; [reflexivity | ]. cbn [length]. rewrite Hlen. reflexivity.
Qed.

(** X5. When every day carries [totals.driving] and [totals.on_duty] the
    summary renders, with one breakdown row per day, and the cycle card is
    red exactly when the remaining cycle hours are a finite number below
    9.95: the comparison with 10 is made on the text rounded to one decimal,
    so from 9.95 hours on the card is green.  With non-negative hours and a
    non-negative cycle start the remaining hours are a finite number
    [r >= 0], shown with one decimal. *)
Theorem summary_renders_with_totals (sch : schedule) :
  (forall d, In d (days sch) ->
     is_Some (totals d !! "driving") /\ is_Some (totals d !! "on_duty")) ->
  exists v,
    render sch = Some v
    /\ length (breakdown v) = length (days sch)
    /\ (cycle_card_accent v = "red"
        <-> exists r, cycleRemaining_value sch = JS.Fin r /\ (r < 199 # 20)%Q)
    /\ ((forall d, In d (days sch) ->
           (0 <= hours d "driving" /\ 0 <= hours d "on_duty")%Q) ->
        (0 <= cycle_used_start (stats sch))%Q ->
        exists r,
          cycleRemaining_value sch = JS.Fin r
          /\ (0 <= r)%Q
          /\ cycle_remaining v = JS.toFixedQ 1 r
          /\ (cycle_card_accent v = "red" <-> (r < 199 # 20)%Q)).
Proof.
  intros Hall.
  destruct (day_rows_present (days sch) Hall) as (rows & Hrows & Hlen).
  unfold render. rewrite Hrows.
  eexists. split; [reflexivity | ].
  cbn [breakdown cycle_remaining cycle_card_accent].
  split; [exact Hlen | ].
  split; [apply cycle_accent_red_iff | ].
  intros Hpos Hcus.
  destruct (cycleRemaining_finite sch Hall Hpos Hcus) as (r & Hr).
  destruct (cycle_accent_of_finite sch r Hr) as (Hr0 & Htext & Hacc).
  exists r. repeat (split; [assumption | ]). exact Hacc.
Qed.

Lemma summary_renders_with_totals_witness :
  let sch := Sample.sample_schedule in
  exists v,
    render sch = Some v
    /\ length (breakdown v) = length (days sch)
    /\ (cycle_card_accent v = "red"
        <-> exists r, cycleRemaining_value sch = JS.Fin r /\ (r < 199 # 20)%Q)
    /\ ((forall d, In d (days sch) ->
           (0 <= hours d "driving" /\ 0 <= hours d "on_duty")%Q) ->
        (0 <= cycle_used_start (stats sch))%Q ->
        exists r,
          cycleRemaining_value sch = JS.Fin r
          /\ (0 <= r)%Q
          /\ cycle_remaining v = JS.toFixedQ 1 r
          /\ (cycle_card_accent v = "red" <-> (r < 199 # 20)%Q)).
Proof.
  apply (summary_renders_with_totals Sample.sample_schedule).
  intros d Hd. pose proof (sample_totals_complete d Hd) as Hc.
  split; apply Hc; simpl; tauto.
Defined.

(** 9.96875 hours remaining are shown as 10.0 on a green card, 9.9375
    hours as 9.9 on a red one. *)
Example cycle_card_just_below_10 :
  let sch := {| days := []; fuel_stops := []; rest_stops := [];
                stats := {| total_miles := 0; total_driving_hrs := 0;
                            trip_days := 1; fuel_stop_count := 0;
                            cycle_used_start := 1921 # 32;
                            avg_speed_mph := 55 |} |} in
  cycleRemaining_value sch = JS.Fin (319 # 32)
  /\ cycleRemaining sch = "10.0" /\ cycle_accent sch = "green".
Proof. vm_compute. repeat split; reflexivity. Qed.

Example cycle_card_below_9_95 :
  let sch := {| days := []; fuel_stops := []; rest_stops := [];
                stats := {| total_miles := 0; total_driving_hrs := 0;
                            trip_days := 1; fuel_stop_count := 0;
                            cycle_used_start := 961 # 16;
                            avg_speed_mph := 55 |} |} in
  cycleRemaining_value sch = JS.Fin (159 # 16)
  /\ cycleRemaining sch = "9.9" /\ cycle_accent sch = "red".
Proof. vm_compute. repeat split; reflexivity. Qed.

End CycleAccent.
